(** * Tabular Q-learning with the Safety Bellman Equation

    A shallow embedding of [tabular_q_learning/q_learning.py]: the training
    loop [learn] and the action selector [select_action], together with the
    properties of the specification that concern them.

    Conventions of the embedding.
    - Python floats are idealised as exact rationals ([Q]); values are
      compared with [==] ([Qeq]).  Rounding, infinities and NaN are outside
      the model.
    - A NumPy array is a shape together with a total map from multi-indices
      to values; an access checks the index against the shape and raises
      [IndexError] when a component is out of range.  A state has one
      component per axis but the last, as [discretize_state] returns it, and
      an index of another length is rejected in the same way.  Index
      components are naturals (negative, wrapping indices do not occur:
      they come from [discretize_state] and [np.argmax]).
    - The global NumPy generator, the Gym environment, the clock and the
      console are threaded as an explicit [World]; the Value Table and the
      Statistics dictionary, which the loop mutates in place, are threaded
      with it once they exist.
    - The [while not done] loop need not terminate; it is run with fuel and
      an exhausted fuel is reported as [Timeout], never as a result. *)

From Stdlib Require Import QArith Qminmax Lqa Lia List Bool Arith String.
From stdpp Require Import base list.
Import ListNotations.

Set Implicit Arguments.

(** ** Numbers *)

(** [x < y] on floats, as a boolean. *)
Definition Qltb (x y : Q) : bool := negb (Qle_bool y x).

(** A Python [bool] used in arithmetic: [True] is 1 and [False] is 0. *)
Definition of_bool (b : bool) : Q := if b then 1 else 0.

Definition of_nat (n : nat) : Q := inject_Z (Z.of_nat n).

(** The builtin [min(a, b)]: the first argument unless the second is
    strictly smaller. *)
Definition py_min (a b : Q) : Q := if Qltb b a then b else a.

(** ** Exceptions and results *)

Inductive exn := ValueError | IndexError | AttributeError.

Inductive Res (A : Type) :=
| Ok (a : A)
| Raise (e : exn)
| Timeout.

Arguments Raise {A} e.
Arguments Timeout {A}.

(** ** Reductions over a one-dimensional array *)

(** [np.amax]: the running maximum, scanning left to right. *)
Fixpoint amax_from (m : Q) (l : list Q) : Q :=
  match l with
  | [] => m
  | x :: l' => amax_from (if Qltb m x then x else m) l'
  end.

Definition amax (l : list Q) : Res Q :=
  match l with
  | [] => Raise ValueError
  | x :: l' => Ok (amax_from x l')
  end.

(** [np.argmax]: index of the first occurrence of the maximum.  [best] is
    the index of the running maximum [m], [i] the index of the head of [l]. *)
Fixpoint argmax_from (best : nat) (m : Q) (i : nat) (l : list Q) : nat :=
  match l with
  | [] => best
  | x :: l' =>
      if Qltb m x then argmax_from i x (S i) l'
      else argmax_from best m (S i) l'
  end.

Definition argmax (l : list Q) : Res nat :=
  match l with
  | [] => Raise ValueError
  | x :: l' => Ok (argmax_from 0 x 1 l')
  end.

(** [np.min] of a one-dimensional array. *)
Fixpoint amin_from (m : Q) (l : list Q) : Q :=
  match l with
  | [] => m
  | x :: l' => amin_from (if Qltb x m then x else m) l'
  end.

Definition amin (l : list Q) : Res Q :=
  match l with
  | [] => Raise ValueError
  | x :: l' => Ok (amin_from x l')
  end.

(** [np.average]: the arithmetic mean. *)
Definition average (l : list Q) : Q :=
  (fold_left Qplus l 0 / of_nat (length l))%Q.

(** ** N-dimensional arrays *)

Record ndarray := mk_ndarray {
  shape : list nat;
  item : list nat -> Q
}.

(** A multi-index addresses one element when it has one component per axis,
    each below the extent of its axis. *)
Fixpoint in_bounds (sh idx : list nat) : bool :=
  match sh, idx with
  | [], [] => true
  | d :: sh', i :: idx' => (i <? d) && in_bounds sh' idx'
  | _, _ => false
  end.

Definition zeros (sh : list nat) : ndarray :=
  {| shape := sh; item := fun _ => 0%Q |}.

(** The write [a[idx] = v], bounds already checked. *)
Definition store (a : ndarray) (idx : list nat) (v : Q) : ndarray :=
  {| shape := shape a;
     item := fun j => if decide (j = idx) then v else item a j |}.

(** [a[idx]] for a full index. *)
Definition getitem (a : ndarray) (idx : list nat) : Res Q :=
  if in_bounds (shape a) idx then Ok (item a idx) else Raise IndexError.

(** [a[idx] = v] for a full index. *)
Definition setitem (a : ndarray) (idx : list nat) (v : Q) : Res ndarray :=
  if in_bounds (shape a) idx then Ok (store a idx v) else Raise IndexError.

(** [a[state]] where [state] indexes every axis but the last: the
    one-dimensional array of the values of the actions at [state]. *)
Definition row (a : ndarray) (state : list nat) : Res (list Q) :=
  match shape a with
  | [] => Raise IndexError
  | _ :: _ =>
      if in_bounds (removelast (shape a)) state
      then Ok (map (fun action => item a (state ++ [action]))
                   (seq 0 (List.last (shape a) 0%nat)))
      else Raise IndexError
  end.

(** [np.argmax(a[state])] *)
Definition greedy (a : ndarray) (state : list nat) : Res nat :=
  match row a state with
  | Ok r => argmax r
  | Raise e => Raise e
  | Timeout => Timeout
  end.


(** The multi-indices of an array of shape [sh], in the order in which
    [np.nditer] visits them (last axis fastest). *)
Fixpoint multi_indices (sh : list nat) : list (list nat) :=
  match sh with
  | [] => [[]]
  | d :: sh' =>
      flat_map (fun i => map (cons i) (multi_indices sh')) (seq 0 d)
  end.

(** [np.array_equal] on two tuples of integers. *)
Definition array_equal (s1 s2 : list nat) : bool :=
  if decide (s1 = s2) then true else false.

(** ** A state and exception monad

    A computation runs on a state [S]; when it raises, the state reached so
    far is kept, as the heap of the interpreter is. *)

Definition M (S A : Type) : Type := S -> Res A * S.

Definition ret {S A} (a : A) : M S A := fun s => (Ok a, s).

Definition bind {S A B} (c : M S A) (k : A -> M S B) : M S B :=
  fun s =>
    match c s with
    | (Ok a, s') => k a s'
    | (Raise e, s') => (Raise e, s')
    | (Timeout, s') => (Timeout, s')
    end.

Definition lift {S A} (r : Res A) : M S A := fun s => (r, s).

Definition gets {S A} (f : S -> A) : M S A := fun s => (Ok (f s), s).

Definition modify {S} (f : S -> S) : M S unit := fun s => (Ok tt, f s).

(** A computation that never exhausts its fuel. *)
Definition never_times_out {S A} (c : M S A) : Prop :=
  forall s : S, fst (c s) <> Timeout.

Notation "'let!' x ':=' c 'in' k" := (bind c (fun x => k))
  (at level 10, x pattern, c at level 100, k at level 200).

Notation "c ';;' k" := (bind c (fun _ => k))
  (at level 100, k at level 200, right associativity).

(** ** Collaborators

    What [learn] consumes and does not define: the global NumPy generator,
    the Gym environment, the helpers of [utils] and the clock. *)

Record Interfaces := {
  Rng : Type;       (* state of the global generator of np.random *)
  Env : Type;       (* the environment object, with its own sampler *)
  Obs : Type;       (* a real-valued state *)
  Bounds : Type;    (* state_bounds *)
  Bins : Type;      (* env.bins *)
  EnvId : Type;     (* env.spec.id *)
  Clock : Type;
  Time : Type;      (* a formatted date *)
  (* np.random *)
  np_random_seed : Z -> Rng;
  np_random_random : Rng -> Q * Rng;
  (* env *)
  env_reset : Env -> Obs * Env;
  env_step : Env -> nat -> (Obs * Q * bool) * Env;
  action_space_n : Env -> nat;
  action_space_sample : Env -> nat * Env;
  l_function : Env -> Obs -> Q;
  set_discretization : Env -> list nat -> Bounds -> Env;
  env_bins : Env -> Bins;
  spec_id : Env -> EnvId;
  unwrapped_spec_id : Env -> EnvId;
  (* utils *)
  discrete_to_real : list nat -> Bounds -> list nat -> Obs;
  discretize_state : list nat -> Bounds -> Bins -> Obs -> list nat;
  sbe_outcome : list Q -> Q -> Q;   (* first component of the result *)
  (* time and datetime *)
  process_time : Clock -> Q * Clock;
  datetime_now : Clock -> Time * Clock
}.

Section QLearning.

Variable I : Interfaces.

(** The [stats] dictionary.  [stats_time_elapsed] is [None] until the key is
    added at the end of the run. *)
Record Stats := mk_Stats {
  stats_start_time : Time I;
  stats_episode_lengths : list Q;
  stats_average_episode_rewards : list Q;
  stats_true_min : list Q;
  stats_episode_outcomes : list Q;
  stats_state_action_visits : ndarray;
  stats_epsilon : list Q;
  stats_learning_rate : list Q;
  stats_state_bounds : Bounds I;
  stats_buckets : list nat;
  stats_gamma : list Q;
  stats_type : string;
  stats_environment : EnvId I;
  stats_seed : Z;
  stats_episode : nat;
  stats_time_elapsed : option Q
}.

Inductive Warning :=
| NoMaxEpisodeLength       (* max_episode_length is None ... *)
| WarmStartNoStartEpisode  (* used warm start q_values without ... *).

(** What is written to the console or handed to [save]. *)
Inductive Event :=
| Warn (w : Warning)
| PrintEpisode (episode max_episodes : nat) (alpha gamma epsilon : Q)
| PrintNewline
| Save (q : ndarray) (s : Stats) (id : EnvId I).

(** Everything outside [learn] that it reads or changes. *)
Record World := mk_World {
  np_rng : Rng I;
  gym_env : Env I;
  clock : Clock I;
  out : list Event
}.

(** The world together with the two objects the loop mutates in place. *)
Record St := mk_St {
  world : World;
  q_values : ndarray;
  stats : Stats
}.

(** *** Accessors on the world *)

Definition with_rng (g : Rng I) (w : World) : World :=
  {| np_rng := g; gym_env := gym_env w; clock := clock w; out := out w |}.

Definition with_env (e : Env I) (w : World) : World :=
  {| np_rng := np_rng w; gym_env := e; clock := clock w; out := out w |}.

Definition with_clock (c : Clock I) (w : World) : World :=
  {| np_rng := np_rng w; gym_env := gym_env w; clock := c; out := out w |}.

Definition emit (ev : Event) (w : World) : World :=
  {| np_rng := np_rng w; gym_env := gym_env w; clock := clock w;
     out := out w ++ [ev] |}.

Definition on_world (f : World -> World) (s : St) : St :=
  {| world := f (world s); q_values := q_values s; stats := stats s |}.

Definition with_q (q : ndarray) (s : St) : St :=
  {| world := world s; q_values := q; stats := stats s |}.

Definition with_stats (st : Stats) (s : St) : St :=
  {| world := world s; q_values := q_values s; stats := st |}.

(** [np.random.random()] *)
Definition random : M St Q :=
  fun s =>
    let (u, g) := np_random_random I (np_rng (world s)) in
    (Ok u, on_world (with_rng g) s).

(** [env.action_space.sample()] *)
Definition sample : M St nat :=
  fun s =>
    let (a, e) := action_space_sample I (gym_env (world s)) in
    (Ok a, on_world (with_env e) s).

(** [env.reset()] *)
Definition reset : M St (Obs I) :=
  fun s =>
    let (o, e) := env_reset I (gym_env (world s)) in
    (Ok o, on_world (with_env e) s).

(** [env.step(action)], the info dictionary dropped. *)
Definition step (action : nat) : M St (Obs I * Q * bool) :=
  fun s =>
    let (r, e) := env_step I (gym_env (world s)) action in
    (Ok r, on_world (with_env e) s).

(** ** [select_action] *)

(** The value bound to the parameter [env] of [select_action]: the
    environment object, or a number when the caller passes one there. *)
Inductive EnvArg :=
| TheEnv
| Number (x : Q).

Definition select_action (q : ndarray) (state : list nat) (env : EnvArg)
    (epsilon : Q) : M St nat :=
  let! u := random in
  if Qltb u epsilon then
    match env with
    | TheEnv => sample
    | Number _ => lift (Raise AttributeError)  (* a float has no action_space *)
    end
  else lift (greedy q state).

(** ** [learn] *)

(** The parameters of [learn]; [env] is [gym_env] of the world.
    [q_values0] and [start_episode0] are the arguments [q_values] and
    [start_episode], which [learn] reassigns. *)
Record Params := mk_Params {
  get_learning_rate : nat -> Q -> Q;
  get_epsilon : nat -> Q -> Q;
  get_gamma : nat -> Q -> Q;
  max_episodes : nat;
  buckets : list nat;
  state_bounds : Bounds I;
  max_episode_length : option nat;
  q_values0 : option ndarray;
  start_episode0 : option nat;
  suppress_print : bool;
  seed : Z;
  fictitious_terminal_val : option Q;
  use_sbe : bool;
  save_freq : option nat
}.

Section Learn.

Variable P : Params.

(** [start_episode] once [None] has been replaced by 0. *)
Definition start_episode : nat :=
  match start_episode0 P with
  | Some n => n
  | None => 0%nat
  end.

(** *** The backup

    [if fictitious_terminal_val:] tests the truth value of the argument:
    [None] and [0.0] are both false. *)
Definition backup_terminal (reward gamma : Q) : Q :=
  if use_sbe P then
    match fictitious_terminal_val P with
    | Some v =>
        if Qeq_bool v 0 then reward
        else (1 - gamma) * reward + gamma * py_min reward v
    | None => reward
    end
  else
    match fictitious_terminal_val P with
    | Some v =>
        if Qeq_bool v 0 then reward
        else reward + gamma * v
    | None => reward
    end.

Definition backup_non_terminal (reward gamma next_max : Q) : Q :=
  if use_sbe P then (1 - gamma) * reward + gamma * py_min reward next_max
  else reward + gamma * next_max.

(** [done * q_terminal + (1.0 - done) * q_non_terminal], both targets being
    finite numbers: over the rationals the product by 0 removes the target
    that is not selected, whereas a float product of 0 and an infinite
    target is NaN, which is outside the model. *)
Definition blend (done : bool) (q_terminal q_non_terminal : Q) : Q :=
  of_bool done * q_terminal + (1 - of_bool done) * q_non_terminal.

(** *** The local variables of the episode loop *)

Record Locals := mk_Locals {
  state : list nat;
  done : bool;
  t : nat;
  episode_rewards : list Q;
  epsilon : Q;
  alpha : Q;
  gamma : Q
}.

(** The variables that one pass through the body assigns and the loop does
    not carry over: the transition and the values computed for its backup.
    [tr_state] is the value of [state] when the action was selected. *)
Record Transition := mk_Transition {
  tr_state : list nat;
  tr_action : nat;
  tr_reward : Q;
  tr_next_state : list nat;
  tr_done : bool;
  tr_num_visits : Q;
  tr_q_terminal : Q;
  tr_q_non_terminal : Q;
  tr_new_q : Q
}.

(** The index [state + (action,)] of the entry a transition updates. *)
Definition tr_index (tr : Transition) : list nat :=
  tr_state tr ++ [tr_action tr].

Definition with_visits (v : ndarray) (st : Stats) : Stats :=
  {| stats_start_time := stats_start_time st;
     stats_episode_lengths := stats_episode_lengths st;
     stats_average_episode_rewards := stats_average_episode_rewards st;
     stats_true_min := stats_true_min st;
     stats_episode_outcomes := stats_episode_outcomes st;
     stats_state_action_visits := v;
     stats_epsilon := stats_epsilon st;
     stats_learning_rate := stats_learning_rate st;
     stats_state_bounds := stats_state_bounds st;
     stats_buckets := stats_buckets st;
     stats_gamma := stats_gamma st;
     stats_type := stats_type st;
     stats_environment := stats_environment st;
     stats_seed := stats_seed st;
     stats_episode := stats_episode st;
     stats_time_elapsed := stats_time_elapsed st |}.

(** [stats['state_action_visits'][idx] += 1], then the read of the entry
    into [num_visits]. *)
Definition count_visit (idx : list nat) : M St Q :=
  let! visits := gets (fun s => stats_state_action_visits (stats s)) in
  let! n := lift (getitem visits idx) in
  let! visits' := lift (setitem visits idx (n + 1)) in
  modify (fun s => with_stats (with_visits visits' (stats s)) s) ;;
  let! visits := gets (fun s => stats_state_action_visits (stats s)) in
  lift (getitem visits idx).

(** *** One pass through the body of [while not done] *)
Definition loop_body (episode : nat) (l : Locals)
    : M St (Locals * Transition) :=
  (* determine action to use based on epsilon greedy schedule:
     select_action(q_values, state, epsilon) binds epsilon to the parameter
     env and leaves the parameter epsilon at its default, 0 *)
  let! q := gets q_values in
  let! action := select_action q (state l) (Number (epsilon l)) 0 in
  (* take step and discretize state *)
  let! r := step action in
  let '(next_state_real_valued, reward, done) := r in
  let! bins := gets (fun s => env_bins I (gym_env (world s))) in
  let next_state :=
    discretize_state I (buckets P) (state_bounds P) bins
      next_state_real_valued in
  (* update episode statistics *)
  let! num_visits := count_visit (state l ++ [action]) in
  let episode_rewards := episode_rewards l ++ [reward] in
  let t := S (t l) in
  (* update exploration fraction, learning rate, and discount factor *)
  let epsilon := get_epsilon P (episode + start_episode) num_visits in
  let alpha := get_learning_rate P (episode + start_episode) num_visits in
  let gamma := get_gamma P (episode + start_episode) num_visits in
  (* perform bellman update and move along state variables *)
  let! q := gets q_values in
  let! next_row := lift (row q next_state) in
  let! next_max := lift (amax next_row) in
  let q_terminal := backup_terminal reward gamma in
  let q_non_terminal := backup_non_terminal reward gamma next_max in
  (* update q values *)
  let new_q := blend done q_terminal q_non_terminal in
  let! old := lift (getitem q (state l ++ [action])) in
  let! q' :=
    lift (setitem q (state l ++ [action])
            ((1 - alpha) * old + alpha * new_q)) in
  modify (with_q q') ;;
  ret ({| state := next_state; done := done; t := t;
          episode_rewards := episode_rewards;
          epsilon := epsilon; alpha := alpha; gamma := gamma |},
       {| tr_state := state l; tr_action := action; tr_reward := reward;
          tr_next_state := next_state; tr_done := done;
          tr_num_visits := num_visits;
          tr_q_terminal := q_terminal; tr_q_non_terminal := q_non_terminal;
          tr_new_q := new_q |}).

(** [t >= max_episode_length], when a length is given. *)
Definition length_reached (t : nat) : bool :=
  match max_episode_length P with
  | Some m => m <=? t
  | None => false
  end.

(** [while not done: ...; if ... t >= max_episode_length: break] *)
Fixpoint while_not_done (fuel : nat) (episode : nat) (l : Locals)
    : M St Locals :=
  if done l then ret l
  else
    match fuel with
    | O => lift Timeout
    | S fuel' =>
        let! r := loop_body episode l in
        let l' := fst r in
        (* end episode if max episode length reached *)
        if length_reached (t l') then ret l'
        else while_not_done fuel' episode l'
    end.

(** *** The end of an episode *)

Definition with_episode_arrays (st : Stats)
    (lengths averages mins outcomes epsilons rates gammas : list Q)
    (episode : nat) : Stats :=
  {| stats_start_time := stats_start_time st;
     stats_episode_lengths := lengths;
     stats_average_episode_rewards := averages;
     stats_true_min := mins;
     stats_episode_outcomes := outcomes;
     stats_state_action_visits := stats_state_action_visits st;
     stats_epsilon := epsilons;
     stats_learning_rate := rates;
     stats_state_bounds := stats_state_bounds st;
     stats_buckets := stats_buckets st;
     stats_gamma := gammas;
     stats_type := stats_type st;
     stats_environment := stats_environment st;
     stats_seed := stats_seed st;
     stats_episode := episode;
     stats_time_elapsed := stats_time_elapsed st |}.

(** [stats["episode_outcomes"][episode] = outcome].  Here and below
    [episode] is below [max_episodes], the length of the arrays, so that the
    writes are in range. *)
Definition record_outcome (episode : nat) (outcome : Q) (st : Stats) : Stats :=
  with_episode_arrays st
    (stats_episode_lengths st) (stats_average_episode_rewards st)
    (stats_true_min st) (<[episode := outcome]> (stats_episode_outcomes st))
    (stats_epsilon st) (stats_learning_rate st) (stats_gamma st)
    (stats_episode st).

(** The seven assignments after it, from [stats["true_min"]] to
    [stats["episode"]]. *)
Definition record_episode (episode : nat) (true_min : Q) (l : Locals)
    (st : Stats) : Stats :=
  with_episode_arrays st
    (<[episode := of_nat (length (episode_rewards l))]>
       (stats_episode_lengths st))
    (<[episode := average (episode_rewards l)]>
       (stats_average_episode_rewards st))
    (<[episode := true_min]> (stats_true_min st))
    (stats_episode_outcomes st)
    (<[episode := epsilon l]> (stats_epsilon st))
    (<[episode := alpha l]> (stats_learning_rate st))
    (<[episode := gamma l]> (stats_gamma st))
    episode.

(** [save_freq and episode % save_freq == 0] *)
Definition save_due (episode : nat) : bool :=
  match save_freq P with
  | Some f => negb (f =? 0) && (episode mod f =? 0)
  | None => false
  end.

(** *** One iteration of [for episode in range(max_episodes)]

    In three parts: up to the [while], the [while], and what follows it.
    [epsilon0], [alpha0] and [gamma0] are the values that [epsilon], [alpha]
    and [gamma] hold when the iteration starts. *)
Definition begin_episode (episode : nat) (epsilon0 alpha0 gamma0 : Q)
    : M St Locals :=
  (if negb (suppress_print P) && ((episode + 1) mod 100 =? 0)
   then modify (on_world
                  (emit (PrintEpisode (episode + 1) (max_episodes P)
                                      alpha0 gamma0 epsilon0)))
   else ret tt) ;;
  let! state_real_valued := reset in
  let! bins := gets (fun s => env_bins I (gym_env (world s))) in
  let state :=
    discretize_state I (buckets P) (state_bounds P) bins state_real_valued in
  ret {| state := state; done := false; t := 0; episode_rewards := [];
         epsilon := epsilon0; alpha := alpha0; gamma := gamma0 |}.

Definition end_episode (episode : nat) (l : Locals) : M St unit :=
  (* save episode statistics *)
  let outcome := sbe_outcome I (episode_rewards l) (gamma l) in
  modify (fun s => with_stats (record_outcome episode outcome (stats s)) s) ;;
  let! true_min := lift (amin (episode_rewards l)) in
  modify (fun s =>
            with_stats (record_episode episode true_min l (stats s)) s) ;;
  if save_due episode
  then modify (fun s =>
                 on_world
                   (emit (Save (q_values s) (stats s)
                               (unwrapped_spec_id I (gym_env (world s)))))
                   s)
  else ret tt.

Definition run_episode (fuel : nat) (episode : nat)
    (epsilon0 alpha0 gamma0 : Q) : M St Locals :=
  let! l0 := begin_episode episode epsilon0 alpha0 gamma0 in
  let! l := while_not_done fuel episode l0 in
  end_episode episode l ;;
  ret l.

Fixpoint for_episodes (fuel : nat) (episodes : list nat)
    (epsilon0 alpha0 gamma0 : Q) : M St unit :=
  match episodes with
  | [] => ret tt
  | episode :: rest =>
      let! l := run_episode fuel episode epsilon0 alpha0 gamma0 in
      for_episodes fuel rest (epsilon l) (alpha l) (gamma l)
  end.

(** *** Setting up *)

(** [np.nditer] refuses an array without elements, one whose shape has an
    extent of 0, with [ValueError] ([zerosize_ok] is not among the flags). *)
Definition zero_size (sh : list nat) : bool := existsb (Nat.eqb 0) sh.

(** A fresh table: zeros, then every entry set to the value of
    [env.l_function] at the real-valued point of its state.  This is the
    table that the iteration leaves when it starts, that is, for a shape
    without an extent of 0; [set_up_q_values] raises otherwise. *)
Definition fresh_q_values (env : Env I) : ndarray :=
  let sh := buckets P ++ [action_space_n I env] in
  fold_left
    (fun q multi_index =>
       let state := removelast multi_index in
       store q multi_index
         (l_function I env
            (discrete_to_real I (buckets P) (state_bounds P) state)))
    (multi_indices sh) (zeros sh).

Definition set_up_q_values : M World ndarray :=
  match q_values0 P with
  | None =>
      match start_episode0 P with
      | Some _ => lift (Raise ValueError)
      | None =>
          let! env := gets gym_env in
          if zero_size (buckets P ++ [action_space_n I env])
          then lift (Raise ValueError)   (* raised by np.nditer *)
          else ret (fresh_q_values env)
      end
  | Some q =>
      if negb (array_equal (removelast (shape q)) (buckets P))
      then lift (Raise ValueError)
      else
        match start_episode0 P with
        | None => modify (emit (Warn WarmStartNoStartEpisode)) ;; ret q
        | Some _ => ret q
        end
  end.

Definition initial_stats (start_time : Time I) (q : ndarray) (env : Env I)
    : Stats :=
  {| stats_start_time := start_time;
     stats_episode_lengths := repeat 0%Q (max_episodes P);
     stats_average_episode_rewards := repeat 0%Q (max_episodes P);
     stats_true_min := repeat 0%Q (max_episodes P);
     stats_episode_outcomes := repeat 0%Q (max_episodes P);
     stats_state_action_visits := zeros (shape q);
     stats_epsilon := repeat 0%Q (max_episodes P);
     stats_learning_rate := repeat 0%Q (max_episodes P);
     stats_state_bounds := state_bounds P;
     stats_buckets := buckets P;
     stats_gamma := repeat 0%Q (max_episodes P);
     stats_type := "tabular q_values-learning";
     stats_environment := spec_id I env;
     stats_seed := seed P;
     stats_episode := 0;
     stats_time_elapsed := None |}.

Definition read_process_time : M World Q :=
  fun w => let (x, c) := process_time I (clock w) in (Ok x, with_clock c w).

Definition read_datetime_now : M World (Time I) :=
  fun w => let (x, c) := datetime_now I (clock w) in (Ok x, with_clock c w).

(** [np.random.seed(seed)] for an integer [seed]: it is accepted when it is
    between 0 and 2**32 - 1; otherwise [ValueError] is raised and the
    generator is left as it is. *)
Definition seed_in_range (seed : Z) : bool :=
  ((0 <=? seed) && (seed <? 2 ^ 32))%Z.

Definition seed_generator : M World unit :=
  if seed_in_range (seed P)
  then modify (with_rng (np_random_seed I (seed P)))
  else lift (Raise ValueError).

(** From the first line of [learn] to [env.set_discretization]: the value
    of [start], the table and the statistics. *)
Definition set_up : M World (Q * ndarray * Stats) :=
  let! start := read_process_time in
  let! _now := read_datetime_now in
  seed_generator ;;
  (* argument checks *)
  match max_episode_length P with
  | None => modify (emit (Warn NoMaxEpisodeLength))
  | Some _ => ret tt
  end ;;
  (* set up q_values *)
  let! q := set_up_q_values in
  (* setting up stats *)
  let! start_time := read_datetime_now in
  let! env := gets gym_env in
  let st := initial_stats start_time q env in
  modify (fun w =>
            with_env
              (set_discretization I (gym_env w) (buckets P) (state_bounds P))
              w) ;;
  ret (start, q, st).

Definition with_time_elapsed (x : Q) (st : Stats) : Stats :=
  {| stats_start_time := stats_start_time st;
     stats_episode_lengths := stats_episode_lengths st;
     stats_average_episode_rewards := stats_average_episode_rewards st;
     stats_true_min := stats_true_min st;
     stats_episode_outcomes := stats_episode_outcomes st;
     stats_state_action_visits := stats_state_action_visits st;
     stats_epsilon := stats_epsilon st;
     stats_learning_rate := stats_learning_rate st;
     stats_state_bounds := stats_state_bounds st;
     stats_buckets := stats_buckets st;
     stats_gamma := stats_gamma st;
     stats_type := stats_type st;
     stats_environment := stats_environment st;
     stats_seed := stats_seed st;
     stats_episode := stats_episode st;
     stats_time_elapsed := Some x |}.

(** From the first schedule values to the [return]. *)
Definition main_loop (fuel : nat) (start : Q) : M St (ndarray * Stats) :=
  (* set starting exploration fraction, learning rate, and discount factor *)
  let epsilon0 := get_epsilon P start_episode 1 in
  let alpha0 := get_learning_rate P start_episode 1 in
  let gamma0 := get_gamma P start_episode 1 in
  for_episodes fuel (seq 0 (max_episodes P)) epsilon0 alpha0 gamma0 ;;
  let! finish :=
    (fun s => let (x, c) := process_time I (clock (world s)) in
              (Ok x, on_world (with_clock c) s)) in
  modify (fun s =>
            with_stats (with_time_elapsed (finish - start) (stats s)) s) ;;
  modify (on_world (emit PrintNewline)) ;;
  let! q := gets q_values in
  let! st := gets stats in
  ret (q, st).

(** How a call of [learn] ends.  [Raised e q st]: the exception [e]
    propagates to the caller; [q] is the Value Table and [st] the Statistics
    as they are at that moment ([None]: no such object exists).
    [Diverged]: the fuel of some episode ran out. *)
Inductive Outcome :=
| Returned (q : ndarray) (st : Stats)
| Raised (e : exn) (q : option ndarray) (st : option Stats)
| Diverged.

(** [fuel] bounds the number of steps of each episode. *)
Definition learn (fuel : nat) (w : World) : Outcome * World :=
  match set_up w with
  | (Ok (start, q, st), w1) =>
      match main_loop fuel start
              {| world := w1; q_values := q; stats := st |} with
      | (Ok (q', st'), s) => (Returned q' st', world s)
      | (Raise e, s) => (Raised e (Some (q_values s)) (Some (stats s)), world s)
      | (Timeout, s) => (Diverged, world s)
      end
  | (Raise e, w1) => (Raised e (q_values0 P) None, w1)
  | (Timeout, w1) => (Diverged, w1)
  end.

(** *** The transitions of a run

    The transitions that a run goes through, in order: the record that each
    completed pass through the body leaves.  They are read off the same
    functions and serve to state properties of all the steps of a run. *)

Fixpoint while_transitions (fuel : nat) (episode : nat) (l : Locals)
    (s : St) : list Transition :=
  if done l then []
  else
    match fuel with
    | O => []
    | S fuel' =>
        match loop_body episode l s with
        | (Ok (l', tr), s') =>
            tr :: (if length_reached (t l') then []
                   else while_transitions fuel' episode l' s')
        | _ => []
        end
    end.

Definition episode_transitions (fuel : nat) (episode : nat)
    (epsilon0 alpha0 gamma0 : Q) (s : St) : list Transition :=
  match begin_episode episode epsilon0 alpha0 gamma0 s with
  | (Ok l0, s0) => while_transitions fuel episode l0 s0
  | _ => []
  end.

Fixpoint for_transitions (fuel : nat) (episodes : list nat)
    (epsilon0 alpha0 gamma0 : Q) (s : St) : list Transition :=
  match episodes with
  | [] => []
  | episode :: rest =>
      episode_transitions fuel episode epsilon0 alpha0 gamma0 s ++
      match run_episode fuel episode epsilon0 alpha0 gamma0 s with
      | (Ok l, s') =>
          for_transitions fuel rest (epsilon l) (alpha l) (gamma l) s'
      | _ => []
      end
  end.

Definition learn_transitions (fuel : nat) (w : World) : list Transition :=
  match set_up w with
  | (Ok (_, q, st), w1) =>
      for_transitions fuel (seq 0 (max_episodes P))
        (get_epsilon P start_episode 1)
        (get_learning_rate P start_episode 1)
        (get_gamma P start_episode 1)
        {| world := w1; q_values := q; stats := st |}
  | _ => []
  end.

(** [steps episode l s trs l' s']: from the local variables [l] and the
    state [s], the passes through the body recorded by [trs], each entered
    with [done] false and completed, lead to [l'] and [s']. *)
Inductive steps (episode : nat)
    : Locals -> St -> list Transition -> Locals -> St -> Prop :=
| steps_nil (l : Locals) (s : St) : steps episode l s [] l s
| steps_cons (l l1 l2 : Locals) (s s1 s2 : St) (tr : Transition)
    (trs : list Transition) :
    done l = false ->
    loop_body episode l s = (Ok (l1, tr), s1) ->
    steps episode l1 s1 trs l2 s2 ->
    steps episode l s (tr :: trs) l2 s2.

End Learn.

(** The number of transitions of [trs] that update the entry [p]. *)
Fixpoint updates_to (p : list nat) (trs : list Transition) : nat :=
  match trs with
  | [] => 0
  | tr :: rest =>
      (if decide (tr_index tr = p) then 1 else 0) + updates_to p rest
  end.

(** ** Agreement up to the clock

    Two Statistics agree when they differ at most in [start_time] and
    [time_elapsed], the two entries that record readings of the clock. *)

Definition stats_agree (a b : Stats) : Prop :=
  stats_episode_lengths a = stats_episode_lengths b /\
  stats_average_episode_rewards a = stats_average_episode_rewards b /\
  stats_true_min a = stats_true_min b /\
  stats_episode_outcomes a = stats_episode_outcomes b /\
  stats_state_action_visits a = stats_state_action_visits b /\
  stats_epsilon a = stats_epsilon b /\
  stats_learning_rate a = stats_learning_rate b /\
  stats_state_bounds a = stats_state_bounds b /\
  stats_buckets a = stats_buckets b /\
  stats_gamma a = stats_gamma b /\
  stats_type a = stats_type b /\
  stats_environment a = stats_environment b /\
  stats_seed a = stats_seed b /\
  stats_episode a = stats_episode b.

Definition outcome_agree (o1 o2 : Outcome) : Prop :=
  match o1, o2 with
  | Returned q1 st1, Returned q2 st2 => q1 = q2 /\ stats_agree st1 st2
  | Raised e1 q1 st1, Raised e2 q2 st2 =>
      e1 = e2 /\ q1 = q2 /\
      match st1, st2 with
      | Some a, Some b => stats_agree a b
      | None, None => True
      | _, _ => False
      end
  | Diverged, Diverged => True
  | _, _ => False
  end.

(** Two states of a run agree when the generator, the environment and the
    table are the same and the statistics agree; the clock and the console
    are left out. *)
Definition sim (s1 s2 : St) : Prop :=
  np_rng (world s1) = np_rng (world s2) /\
  gym_env (world s1) = gym_env (world s2) /\
  q_values s1 = q_values s2 /\
  stats_agree (stats s1) (stats s2).

Definition res_rel {A : Type} (R : A -> A -> Prop) (r1 r2 : Res A) : Prop :=
  match r1, r2 with
  | Ok a, Ok b => R a b
  | Raise e1, Raise e2 => e1 = e2
  | Timeout, Timeout => True
  | _, _ => False
  end.

(** Two computations are related when, from states that agree, they end the
    same way, with results related by [R], in states that agree. *)
Definition related {A : Type} (R : A -> A -> Prop) (c1 c2 : M St A) : Prop :=
  forall s1 s2 : St,
    sim s1 s2 ->
    res_rel R (fst (c1 s1)) (fst (c2 s2)) /\ sim (snd (c1 s1)) (snd (c2 s2)).

End QLearning.

(** ** A small deterministic environment

    Two states and two actions.  The observation is the action just taken
    (action 0 leads to state 0 and action 1 to state 1), every step is worth
    1, and an episode is done after [horizon] steps.  The sampler of the
    action space always proposes action 1 and counts its calls.  The
    generator counts its draws and yields 0, 1/4, 1/2, 3/4 in turn.  The
    clock counts its readings; the date is the count and the processor time
    its square. *)

Module Toy.

Record env := mk_env {
  pos : nat;       (* steps since the last reset *)
  horizon : nat;
  sampled : nat    (* calls of action_space.sample() *)
}.

Definition I : Interfaces :=
  {| Rng := nat; Env := env; Obs := nat; Bounds := unit; Bins := unit;
     EnvId := unit; Clock := nat; Time := nat;
     np_random_seed := Z.to_nat;
     np_random_random := fun g => (Z.of_nat (g mod 4) # 4, S g);
     env_reset := fun e =>
       (0%nat, {| pos := 0; horizon := horizon e; sampled := sampled e |});
     env_step := fun e action =>
       ((action, 1%Q, horizon e <=? S (pos e)),
        {| pos := S (pos e); horizon := horizon e; sampled := sampled e |});
     action_space_n := fun _ => 2%nat;
     action_space_sample := fun e =>
       (1%nat,
        {| pos := pos e; horizon := horizon e; sampled := S (sampled e) |});
     l_function := fun _ _ => 0%Q;
     set_discretization := fun e _ _ => e;
     env_bins := fun _ => tt;
     spec_id := fun _ => tt;
     unwrapped_spec_id := fun _ => tt;
     discrete_to_real := fun _ _ s => hd 0%nat s;
     discretize_state := fun _ _ _ o => [o];
     sbe_outcome := fun rewards _ => fold_left py_min rewards 1%Q;
     process_time := fun c => (of_nat (c * c), S c);
     datetime_now := fun c => (c, S c) |}.

(** A world whose clock reads [now] and whose environment ends an episode
    after [h] steps. *)
Definition world_at (now : nat) (h : nat) : World I :=
  @mk_World I 0%nat {| pos := 0; horizon := h; sampled := 0 |} now [].

(** The table of shape (2, 2) with the given rows. *)
Definition table (q00 q01 q10 q11 : Q) : ndarray :=
  {| shape := [2; 2]%nat;
     item := fun idx =>
       match idx with
       | [0; 0]%nat => q00
       | [0; 1]%nat => q01
       | [1; 0]%nat => q10
       | [1; 1]%nat => q11
       | _ => 0%Q
       end |}.

(** The arguments of the runs below: two episodes, learning rate 1/2,
    exploration rate 1, discount 1/2, seed 0, no printing, no saving; the
    rest is chosen run by run. *)
Definition make_params (max_episode_length : option nat)
    (q_values : option ndarray) (start_episode : option nat)
    (fictitious_terminal_val : option Q) (use_sbe : bool) : Params I :=
  @mk_Params I
    (fun _ _ => 1 # 2)   (* get_learning_rate *)
    (fun _ _ => 1%Q)     (* get_epsilon *)
    (fun _ _ => 1 # 2)   (* get_gamma *)
    2                    (* max_episodes *)
    [2%nat]              (* buckets *)
    tt                   (* state_bounds *)
    max_episode_length
    q_values
    start_episode
    true                 (* suppress_print *)
    0                    (* seed *)
    fictitious_terminal_val
    use_sbe
    None                 (* save_freq *).

(** Episodes of at most three steps, a fresh table, the safety backup. *)
Definition params : Params I :=
  make_params (Some 3%nat) None None None true.

(** A warm start from a table on which the greedy actions alternate
    between the two states. *)
Definition warm_params : Params I :=
  make_params (Some 3%nat) (Some (table 0 5 5 0)) (Some 0%nat) None true.

(** A table of zeros with three entries per state, one more than the
    environment has actions, and a warm start from it. *)
Definition wide_table : ndarray := zeros [2; 3]%nat.

Definition wide_params : Params I :=
  make_params (Some 3%nat) (Some wide_table) (Some 0%nat) None true.

(** The two configuration errors: a [start_episode] and no table; a table
    of shape (3, 2) for two buckets. *)
Definition orphan_start_params : Params I :=
  make_params (Some 3%nat) None (Some 5%nat) None true.

Definition misshapen_params : Params I :=
  make_params (Some 3%nat) (Some (zeros [3; 2]%nat)) (Some 0%nat) None true.

(** A fictitious terminal value of 0. *)
Definition zero_terminal_params : Params I :=
  make_params (Some 3%nat) None None (Some 0%Q) true.

(** The local variables when the first episode starts in state 0. *)
Definition l0 : Locals :=
  {| state := [0%nat]; done := false; t := 0; episode_rewards := [];
     epsilon := 1; alpha := 1 # 2; gamma := 1 # 2 |}.

(** The state of a run that is about to start its first episode with the
    table [q], the environment ending episodes after [h] steps. *)
Definition st0 (q : ndarray) (h : nat) : St I :=
  {| world := world_at 0 h;
     q_values := q;
     stats := initial_stats params 0%nat q (gym_env (world_at 0 h)) |}.

End Toy.

(** ** [play]

    The greedy player.  What it shows is kept as a list of events: a frame
    rendered, the line printed after an episode, the window closed. *)

Record Rendering (I : Interfaces) := {
  env_render : Env I -> Env I;
  env_close : Env I -> Env I
}.

Inductive PlayEvent :=
| Rendered
| Lasted (i t : nat)    (* episode i lasted t timesteps. *)
| Closed.

Section Play.

Variable I : Interfaces.
Variable R : Rendering I.

(** The parameters of [play] besides [q_values] and [env], which are the
    table and the environment of the state. *)
Record PlayParams := mk_PlayParams {
  num_episodes : nat;
  play_buckets : list nat;
  play_state_bounds : Bounds I;
  play_suppress_print : bool;
  episode_length : option nat
}.

Record PlaySt := mk_PlaySt {
  play_st : St I;
  shown : list PlayEvent
}.

(** A computation of the learner's monad, run by the player. *)
Definition on_st {A : Type} (c : M (St I) A) : M PlaySt A :=
  fun p =>
    let (r, s) := c (play_st p) in
    (r, {| play_st := s; shown := shown p |}).

Definition show (ev : PlayEvent) : M PlaySt unit :=
  modify (fun p => {| play_st := play_st p; shown := shown p ++ [ev] |}).

(** [env.render()] *)
Definition render : M PlaySt unit :=
  on_st (modify
           (on_world (fun w => with_env (env_render R (gym_env w)) w))) ;;
  show Rendered.

(** [env.close()] *)
Definition close : M PlaySt unit :=
  on_st (modify
           (on_world (fun w => with_env (env_close R (gym_env w)) w))) ;;
  show Closed.

Variable PP : PlayParams.

(** [episode_length and t >= episode_length]: [None] and 0 are both
    false. *)
Definition cap_reached (t : nat) : bool :=
  match episode_length PP with
  | Some m => negb (m =? 0) && (m <=? t)
  | None => false
  end.

(** [while not done: if ...: break; ...], returning the final [t]. *)
Fixpoint play_while (fuel : nat) (obv : Obs I) (t : nat) (done : bool)
    : M PlaySt nat :=
  if done then ret t
  else if cap_reached t then ret t
  else
    match fuel with
    | O => lift Timeout
    | S fuel' =>
        let! bins := on_st (gets (fun s => env_bins I (gym_env (world s)))) in
        let state :=
          discretize_state I (play_buckets PP) (play_state_bounds PP) bins
            obv in
        let! q := on_st (gets (@q_values I)) in
        let! action := on_st (select_action q state TheEnv 0) in
        let! r := on_st (step action) in
        let '(obv', _, done') := r in
        render ;;
        play_while fuel' obv' (S t) done'
    end.

Definition play_episode (fuel : nat) (i : nat) : M PlaySt unit :=
  let! obv := on_st (@reset I) in
  let! t := play_while fuel obv 0 false in
  if negb (play_suppress_print PP) then show (Lasted i t) else ret tt.

Fixpoint play_for (fuel : nat) (episodes : list nat) : M PlaySt unit :=
  match episodes with
  | [] => ret tt
  | i :: rest => play_episode fuel i ;; play_for fuel rest
  end.

(** [fuel] bounds the number of steps of each episode. *)
Definition play (fuel : nat) : M PlaySt unit :=
  play_for fuel (seq 0 (num_episodes PP)) ;;
  close.

(** What one episode that lasted [t] steps shows, and what a whole call
    shows when its episodes lasted [ts]. *)
Definition episode_show (i t : nat) : list PlayEvent :=
  repeat Rendered t ++
  (if negb (play_suppress_print PP) then [Lasted i t] else []).

Fixpoint episodes_show (first : nat) (ts : list nat) : list PlayEvent :=
  match ts with
  | [] => []
  | t :: rest => episode_show first t ++ episodes_show (S first) rest
  end.

End Play.

(** ** The console of [learn]

    What a run writes, event by event, with the data of the events left
    out: a saved snapshot is named by the episode its statistics record. *)

Inductive EventKind :=
| KWarn (w : Warning)
| KPrintEpisode (n : nat)
| KPrintNewline
| KSave (episode : nat).

Section Schedule.

Variable I : Interfaces.
Variable P : Params I.

Definition kind_of (ev : Event I) : EventKind :=
  match ev with
  | Warn _ w => KWarn w
  | PrintEpisode _ n _ _ _ _ => KPrintEpisode n
  | PrintNewline _ => KPrintNewline
  | Save _ st _ => KSave (stats_episode st)
  end.

Definition warning_schedule : list EventKind :=
  match max_episode_length P with
  | None => [KWarn NoMaxEpisodeLength]
  | Some _ => []
  end ++
  match q_values0 P, start_episode0 P with
  | Some _, None => [KWarn WarmStartNoStartEpisode]
  | _, _ => []
  end.

Definition episode_schedule (episode : nat) : list EventKind :=
  (if negb (suppress_print P) && ((episode + 1) mod 100 =? 0)
   then [KPrintEpisode (episode + 1)] else []) ++
  (if save_due P episode then [KSave episode] else []).

Definition run_schedule : list EventKind :=
  warning_schedule ++
  flat_map episode_schedule (seq 0 (max_episodes P)) ++
  [KPrintNewline].

(** The table a run starts from: the warm-start table, or a fresh one. *)
Definition q_init (w : World I) : ndarray :=
  match q_values0 P with
  | Some q0 => q0
  | None => fresh_q_values P (gym_env w)
  end.

(** The generator after one more draw. *)
Definition next_rng (g : Rng I) : Rng I := snd (np_random_random I g).

(** The seven per-episode arrays of the statistics all have length [n]. *)
Definition arrays_length (n : nat) (st : Stats I) : Prop :=
  length (stats_episode_lengths st) = n /\
  length (stats_average_episode_rewards st) = n /\
  length (stats_true_min st) = n /\
  length (stats_episode_outcomes st) = n /\
  length (stats_epsilon st) = n /\
  length (stats_learning_rate st) = n /\
  length (stats_gamma st) = n.

(** Every entry of the table lies between [lo] and [hi]. *)
Definition table_within (lo hi : Q) (q : ndarray) : Prop :=
  forall p : list nat,
    in_bounds (shape q) p = true -> (lo <= item q p <= hi)%Q.

End Schedule.

(** The toy environment has no window: rendering and closing leave it as it
    is.  Three episodes of at most four steps are played and reported. *)
Module ToyPlay.

Definition R : Rendering Toy.I :=
  {| env_render := fun e : Env Toy.I => e;
     env_close := fun e : Env Toy.I => e |}.

Definition params (episode_length : option nat) : PlayParams Toy.I :=
  @mk_PlayParams Toy.I 3 [2%nat] tt false episode_length.

Definition start (q : ndarray) (h : nat) : PlaySt Toy.I :=
  {| play_st := Toy.st0 q h; shown := [] |}.

(** A table with the single state 0, in which action 1 is the better one;
    action 1 leads to state 1, which the table does not have. *)
Definition narrow_table : ndarray :=
  {| shape := [1; 2]%nat; item := item (Toy.table 0 1 0 0) |}.

End ToyPlay.

(** Whether a run came back with a table and statistics. *)
Definition is_returned {I : Interfaces} (o : Outcome I) : bool :=
  match o with
  | Returned _ _ => true
  | _ => false
  end.

(** Further runs of the toy environment.  Its discretiser is replaced by one
    that clips an observation to the two buckets, as a discretiser over a
    bounded state space does; everything else is the toy interface. *)
Module ToyRuns.

Definition I : Interfaces :=
  {| Rng := nat; Env := Toy.env; Obs := nat; Bounds := unit; Bins := unit;
     EnvId := unit; Clock := nat; Time := nat;
     np_random_seed := np_random_seed Toy.I;
     np_random_random := np_random_random Toy.I;
     env_reset := env_reset Toy.I;
     env_step := env_step Toy.I;
     action_space_n := action_space_n Toy.I;
     action_space_sample := action_space_sample Toy.I;
     l_function := l_function Toy.I;
     set_discretization := set_discretization Toy.I;
     env_bins := env_bins Toy.I;
     spec_id := spec_id Toy.I;
     unwrapped_spec_id := unwrapped_spec_id Toy.I;
     discrete_to_real := discrete_to_real Toy.I;
     discretize_state := fun _ _ _ o => [Nat.min o 1];
     sbe_outcome := sbe_outcome Toy.I;
     process_time := process_time Toy.I;
     datetime_now := datetime_now Toy.I |}.

Definition world (h : nat) : World I :=
  @mk_World I 0%nat (Toy.mk_env 0 h 0) 0%nat [].

(** Learning rate 1, discount 1, seed 0, the safety backup, a fresh table
    unless one is given. *)
Definition make_params (max_episodes : nat)
    (max_episode_length : option nat) (q_values : option ndarray)
    (start_episode : option nat) (suppress_print : bool)
    (save_freq : option nat) : Params I :=
  @mk_Params I
    (fun _ _ => 1%Q)     (* get_learning_rate *)
    (fun _ _ => 1%Q)     (* get_epsilon *)
    (fun _ _ => 1%Q)     (* get_gamma *)
    max_episodes
    [2%nat]              (* buckets *)
    tt                   (* state_bounds *)
    max_episode_length
    q_values
    start_episode
    suppress_print
    0                    (* seed *)
    None                 (* fictitious_terminal_val *)
    true                 (* use_sbe *)
    save_freq.

(** A hundred episodes, reported on the console and saved every forty. *)
Definition reporting_params : Params I :=
  make_params 100 (Some 3%nat) None None false (Some 40%nat).

(** Three silent episodes, from a fresh table and from a given one. *)
Definition params : Params I :=
  make_params 3 (Some 3%nat) None None true None.

Definition warm_params : Params I :=
  make_params 3 (Some 3%nat) (Some (Toy.table 0 1 1 0)) (Some 0%nat) true None.

(** No episode at all. *)
Definition idle_params : Params I :=
  make_params 0 (Some 3%nat) None None true None.

(** A [start_episode] without a table, and no [max_episode_length]. *)
Definition orphan_start_params : Params I :=
  make_params 3 None None (Some 5%nat) true None.


(** The state of a run that is about to start its first episode with the
    table [q], the environment ending episodes after [h] steps. *)
Definition start (q : ndarray) (h : nat) : St I :=
  @mk_St I (world h) q (initial_stats params 0%nat q (gym_env (world h))).

(** The same arguments with another seed. *)
Definition with_seed (seed0 : Z) (P : Params I) : Params I :=
  @mk_Params I (get_learning_rate P) (get_epsilon P) (get_gamma P)
    (max_episodes P) (buckets P) (state_bounds P) (max_episode_length P)
    (q_values0 P) (start_episode0 P) (suppress_print P) seed0
    (fictitious_terminal_val P) (use_sbe P) (save_freq P).

End ToyRuns.

(** * Properties *)

(** ** Numbers and reductions *)

Lemma Qltb_true (x y : Q) : Qltb x y = true <-> (x < y)%Q.
Proof.
  unfold Qltb. rewrite negb_true_iff, <- not_true_iff_false, Qle_bool_iff.
  split; [apply Qnot_le_lt | apply Qlt_not_le].
Qed.

Lemma Qltb_false (x y : Q) : Qltb x y = false <-> (y <= x)%Q.
Proof.
  unfold Qltb. rewrite negb_false_iff. apply Qle_bool_iff.
Qed.

Lemma blend_done (done : bool) (qt qn : Q) :
  (blend done qt qn == if done then qt else qn)%Q.
Proof. unfold blend, of_bool. destruct done; ring. Qed.


Lemma amax_from_upper (l : list Q) : forall m,
  (m <= amax_from m l)%Q /\ Forall (fun x => (x <= amax_from m l)%Q) l.
Proof.
  induction l as [|x l IH]; intros m; simpl.
  - split; [lra | constructor].
  - destruct (IH (if Qltb m x then x else m)) as [Hm Hl].
    destruct (Qltb m x) eqn:E.
    + apply Qltb_true in E. repeat split; try constructor; trivial; lra.
    + apply Qltb_false in E. repeat split; try constructor; trivial; lra.
Qed.

Lemma amax_from_attained (l : list Q) : forall m,
  amax_from m l = m \/ In (amax_from m l) l.
Proof.
  induction l as [|x l IH]; intros m; simpl; [now left|].
  destruct (IH (if Qltb m x then x else m)) as [H|H]; [|now right; right].
  rewrite H. destruct (Qltb m x); [right; now left | now left].
Qed.

(** [np.amax] of a non-empty array is one of its elements and bounds all of
    them. *)
Lemma amax_spec (l : list Q) (v : Q) :
  amax l = Ok v -> In v l /\ Forall (fun x => (x <= v)%Q) l.
Proof.
  destruct l as [|x l]; simpl; [discriminate|].
  intros H; injection H as <-.
  destruct (amax_from_upper l x) as [Hx Hl].
  split; [|constructor; trivial].
  destruct (amax_from_attained l x) as [E|E]; [left; now rewrite E | now right].
Qed.

Lemma argmax_from_spec (l : list Q) : forall best m i,
  let j := argmax_from best m i l in
  (j = best /\ Forall (fun x => (x <= m)%Q) l) \/
  (exists k v, j = (i + k)%nat /\ l !! k = Some v /\ (m < v)%Q /\
     Forall (fun x => (x <= v)%Q) l /\
     forall k' w, (k' < k)%nat -> l !! k' = Some w -> (w < v)%Q).
Proof.
  induction l as [|x l IH]; intros best m i; simpl.
  - left. split; [reflexivity | constructor].
  - destruct (Qltb m x) eqn:E.
    + apply Qltb_true in E. right.
      destruct (IH i x (S i)) as [[-> Hl] | (k & v & -> & Hk & Hv & Hl & Hlt)].
      * exists 0%nat, x.
        split; [lia|]. split; [reflexivity|]. split; [exact E|].
        split; [constructor; [lra | trivial] | intros; lia].
      * exists (S k), v.
        split; [lia|]. split; [exact Hk|]. split; [lra|].
        split; [constructor; [lra | trivial]|].
        intros [|k'] w Hk' Hw; simpl in Hw.
        -- injection Hw as <-. trivial.
        -- apply (Hlt k'); [lia | trivial].
    + apply Qltb_false in E.
      destruct (IH best m (S i))
        as [[-> Hl] | (k & v & -> & Hk & Hv & Hl & Hlt)].
      * left. split; [reflexivity | constructor; trivial].
      * right. exists (S k), v.
        split; [lia|]. split; [exact Hk|]. split; [exact Hv|].
        split; [constructor; [lra | trivial]|].
        intros [|k'] w Hk' Hw; simpl in Hw.
        -- injection Hw as <-. lra.
        -- apply (Hlt k'); [lia | trivial].
Qed.

(** [np.argmax] returns the position of a maximum, and the first one: every
    earlier entry is strictly smaller. *)
Lemma argmax_spec (l : list Q) (j : nat) :
  argmax l = Ok j ->
  exists v, l !! j = Some v /\ Forall (fun x => (x <= v)%Q) l /\
    forall k w, (k < j)%nat -> l !! k = Some w -> (w < v)%Q.
Proof.
  destruct l as [|x l]; simpl; [discriminate|].
  intros H; injection H as <-.
  destruct (argmax_from_spec l 0 x 1)
    as [[-> Hl] | (k & v & -> & Hk & Hv & Hl & Hlt)].
  - exists x. split; [reflexivity|].
    split; [constructor; [lra | trivial] | intros; lia].
  - exists v. split; [exact Hk|].
    split; [constructor; [lra | trivial]|].
    intros [|k'] w Hk' Hw; simpl in Hw.
    + injection Hw as <-. trivial.
    + apply (Hlt k'); [lia | trivial].
Qed.

(** ** The monad *)

Section MonadInversion.

Context {T A B : Type}.

Lemma bind_Ok (c : M T A) (k : A -> M T B) (s s' : T) (b : B) :
  bind c k s = (Ok b, s') ->
  exists a s1, c s = (Ok a, s1) /\ k a s1 = (Ok b, s').
Proof.
  unfold bind. destruct (c s) as [[a|e|] s1]; intros H; try discriminate.
  exists a, s1. split; [reflexivity | exact H].
Qed.

Lemma lift_Ok (r : Res A) (s s' : T) (a : A) :
  lift r s = (Ok a, s') -> r = Ok a /\ s' = s.
Proof. unfold lift. intros H. injection H as -> ->. split; reflexivity. Qed.

Lemma gets_Ok (f : T -> A) (s s' : T) (a : A) :
  gets f s = (Ok a, s') -> a = f s /\ s' = s.
Proof. unfold gets. intros H. injection H as <- <-. split; reflexivity. Qed.

Lemma ret_Ok (x : A) (s s' : T) (a : A) :
  ret x s = (Ok a, s') -> a = x /\ s' = s.
Proof. unfold ret. intros H. injection H as <- <-. split; reflexivity. Qed.

Lemma gets_run (f : T -> A) (s : T) : gets f s = (Ok (f s), s).
Proof. reflexivity. Qed.

End MonadInversion.

Lemma modify_Ok {T : Type} (f : T -> T) (s s' : T) (u : unit) :
  modify f s = (Ok u, s') -> s' = f s.
Proof. unfold modify. intros H. injection H as _ <-. reflexivity. Qed.

(** Peel one step off a successful monadic computation. *)
Tactic Notation "step_M" hyp(H) "as" ident(a) ident(s) ident(H1) :=
  apply bind_Ok in H; destruct H as (a & s & H1 & H);
  lazymatch type of H1 with
  | lift _ _ = _ => apply lift_Ok in H1; destruct H1 as [H1 ->]
  | gets _ _ = _ => apply gets_Ok in H1; destruct H1 as [-> ->]
  | modify _ _ = _ => apply modify_Ok in H1; subst s
  | ret _ _ = _ => apply ret_Ok in H1; destruct H1 as [-> ->]
  | _ => idtac
  end.

(** ** One pass through the loop body *)

Section Properties.

Variable I : Interfaces.
Variable P : Params I.

Lemma store_same (a : ndarray) (idx : list nat) (v : Q) :
  item (store a idx v) idx = v.
Proof. simpl. destruct (decide (idx = idx)); [reflexivity | congruence]. Qed.

Lemma store_other (a : ndarray) (idx j : list nat) (v : Q) :
  j <> idx -> item (store a idx v) j = item a j.
Proof.
  intros Hne. simpl. destruct (decide (j = idx)); [congruence | reflexivity].
Qed.

(** What a pass that completes has done: the draw did not select
    exploration, the action is the [argmax] of the row of the current state,
    the environment was stepped once with it, the visit count of the pair was
    raised by one, the backup was computed from the table as it was when the
    pass began, and a single entry of the table was written. *)
Lemma loop_body_Ok (episode : nat) (l l' : Locals) (tr : Transition)
    (s s' : St I) :
  loop_body P episode l s = (Ok (l', tr), s') ->
  let q := q_values s in
  let visits := stats_state_action_visits (stats s) in
  let idx := state l ++ [tr_action tr] in
  let ep := (episode + start_episode P)%nat in
  exists (obs : Obs I) (r next_row : list Q) (next_max : Q),
    Qltb (fst (np_random_random I (np_rng (world s)))) 0 = false /\
    row q (state l) = Ok r /\
    argmax r = Ok (tr_action tr) /\
    env_step I (gym_env (world s)) (tr_action tr)
      = ((obs, tr_reward tr, tr_done tr), gym_env (world s')) /\
    tr_state tr = state l /\
    tr_next_state tr
      = discretize_state I (buckets P) (state_bounds P)
          (env_bins I (gym_env (world s'))) obs /\
    in_bounds (shape visits) idx = true /\
    tr_num_visits tr = (item visits idx + 1)%Q /\
    row q (tr_next_state tr) = Ok next_row /\
    amax next_row = Ok next_max /\
    tr_q_terminal tr = backup_terminal P (tr_reward tr) (gamma l') /\
    tr_q_non_terminal tr
      = backup_non_terminal P (tr_reward tr) (gamma l') next_max /\
    tr_new_q tr
      = blend (tr_done tr) (tr_q_terminal tr) (tr_q_non_terminal tr) /\
    in_bounds (shape q) idx = true /\
    l' = {| state := tr_next_state tr; done := tr_done tr; t := S (t l);
            episode_rewards := episode_rewards l ++ [tr_reward tr];
            epsilon := get_epsilon P ep (tr_num_visits tr);
            alpha := get_learning_rate P ep (tr_num_visits tr);
            gamma := get_gamma P ep (tr_num_visits tr) |} /\
    np_rng (world s') = snd (np_random_random I (np_rng (world s))) /\
    clock (world s') = clock (world s) /\
    out (world s') = out (world s) /\
    q_values s'
      = store q idx ((1 - alpha l') * item q idx + alpha l' * tr_new_q tr) /\
    stats s' = with_visits (store visits idx (item visits idx + 1)) (stats s).
Proof.
  intros H. unfold loop_body in H.
  step_M H as q0 s0 Hq.
  step_M H as action s1 Hsel.
  unfold select_action in Hsel. step_M Hsel as u s2 Hu. unfold random in Hu.
  destruct (np_random_random I (np_rng (world s))) as [u' g] eqn:Hd.
  injection Hu as <- <-.
  destruct (Qltb u' 0) eqn:Hlt.
  { apply lift_Ok in Hsel. destruct Hsel; discriminate. }
  apply lift_Ok in Hsel. destruct Hsel as [Hgr ->].
  unfold greedy in Hgr.
  destruct (row (q_values s) (state l)) as [r| |] eqn:Hrow; try discriminate.
  step_M H as res s4 Hstep. unfold step in Hstep.
  cbn [world on_world with_rng gym_env] in Hstep.
  destruct (env_step I (gym_env (world s)) action)
    as [[[obs reward] dn] e] eqn:He.
  injection Hstep as <- <-.
  step_M H as bins s5 Hb.
  step_M H as num_visits s6 Hcv.
  unfold count_visit in Hcv.
  step_M Hcv as visits0 s7 Hv.
  step_M Hcv as n s8 Hn.
  step_M Hcv as visits' s9 Hv'.
  step_M Hcv as uu s10 Hm.
  step_M Hcv as visits2 s11 Hv2.
  apply lift_Ok in Hcv. destruct Hcv as [Hcv ->].
  step_M H as q2 s12 Hq2.
  step_M H as next_row s13 Hnr.
  step_M H as next_max s14 Hnm.
  step_M H as old s15 Hold.
  step_M H as q' s16 Hq'.
  step_M H as u3 s17 Hm2.
  apply ret_Ok in H. destruct H as [H ->]. injection H as -> ->.
  cbn in *.
  unfold getitem in Hn, Hcv, Hold. unfold setitem in Hv', Hq'.
  destruct (in_bounds (shape (stats_state_action_visits (stats s)))
              (state l ++ [action])) eqn:Hbv; [|discriminate].
  injection Hn as <-. injection Hv' as <-.
  cbn [shape store] in Hcv. rewrite Hbv in Hcv. injection Hcv as <-.
  destruct (in_bounds (shape (q_values s)) (state l ++ [action])) eqn:Hbq;
    [|discriminate].
  injection Hold as <-. injection Hq' as <-.
  destruct (decide (state l ++ [action] = state l ++ [action]));
    [|congruence].
  exists obs, r, next_row, next_max.
  repeat (split; [first [reflexivity | assumption]|]).
  reflexivity.
Qed.

Lemma in_bounds_app (sh idx : list nat) (n a : nat) :
  in_bounds (sh ++ [n]) (idx ++ [a]) = in_bounds sh idx && (a <? n).
Proof.
  revert idx. induction sh as [|d sh IH]; intros [|i idx]; simpl.
  - destruct (a <? n); reflexivity.
  - destruct idx; simpl; destruct (i <? n); reflexivity.
  - destruct sh; simpl; destruct (a <? d); reflexivity.
  - rewrite IH. destruct (i <? d); reflexivity.
Qed.

Lemma bind_run {T A B : Type} (c : M T A) (k : A -> M T B) (s s1 : T)
    (a : A) :
  c s = (Ok a, s1) -> bind c k s = k a s1.
Proof. intros H. unfold bind. rewrite H. reflexivity. Qed.

Lemma bind_raise {T A B : Type} (c : M T A) (k : A -> M T B) (s s1 : T)
    (e : exn) :
  c s = (Raise e, s1) -> bind c k s = (Raise e, s1).
Proof. intros H. unfold bind. rewrite H. reflexivity. Qed.

Lemma lift_run {T A : Type} (r : Res A) (a : A) (s : T) :
  r = Ok a -> lift r s = (Ok a, s).
Proof. intros ->. reflexivity. Qed.

(** A pass completes when the draw is not negative, the table has at
    least one action, the current state is within the table and so is
    whatever state the discretizer returns. *)
Lemma loop_body_completes (episode : nat) (l : Locals) (s : St I)
    (lead : list nat) (n : nat) :
  (0 <= fst (np_random_random I (np_rng (world s))))%Q ->
  shape (q_values s) = lead ++ [n] ->
  shape (stats_state_action_visits (stats s)) = lead ++ [n] ->
  (0 < n)%nat ->
  in_bounds lead (state l) = true ->
  (forall bins obs,
     in_bounds lead
       (discretize_state I (buckets P) (state_bounds P) bins obs) = true) ->
  exists (l' : Locals) (tr : Transition) (s' : St I),
    loop_body P episode l s = (Ok (l', tr), s').
Proof.
  intros Hu Hq Hv Hn Hst Hdisc.
  assert (Hrow : forall st, in_bounds lead st = true ->
            row (q_values s) st
            = Ok (map (fun action => item (q_values s) (st ++ [action]))
                    (seq 0 n))).
  { intros st Hb. unfold row. rewrite Hq.
    destruct (lead ++ [n]) as [|d sh] eqn:E.
    - destruct lead; discriminate.
    - rewrite <- E, removelast_last, last_last, Hb. reflexivity. }
  assert (Hmax : forall st, in_bounds lead st = true ->
            exists (r : list Q) (m : Q),
              row (q_values s) st = Ok r /\ amax r = Ok m).
  { intros st Hb. rewrite (Hrow st Hb).
    destruct n as [|n']; [lia|]. simpl seq. cbn [map].
    eexists _, _. split; reflexivity. }
  assert (Hgr : exists action,
            greedy (q_values s) (state l) = Ok action /\ (action < n)%nat).
  { unfold greedy. rewrite (Hrow _ Hst).
    destruct n as [|n']; [lia|]. simpl seq. cbn [map argmax].
    eexists. split; [reflexivity|].
    match goal with |- (argmax_from ?b ?m ?i ?r < _)%nat =>
      destruct (argmax_from_spec r b m i) as [[-> _] | (k & v & -> & Hk & _)]
    end.
    - lia.
    - apply lookup_lt_Some in Hk. rewrite length_map, length_seq in Hk.
      lia. }
  destruct Hgr as (action & Hgr & Hlt).
  destruct (np_random_random I (np_rng (world s))) as [u g] eqn:Hd.
  simpl in Hu. apply Qltb_false in Hu.
  assert (Hsel : select_action (q_values s) (state l) (Number (epsilon l)) 0 s
                 = (Ok action, on_world (with_rng g) s)).
  { unfold select_action, bind, random. rewrite Hd, Hu.
    apply lift_run. exact Hgr. }
  destruct (env_step I (gym_env (world s)) action)
    as [[[obs reward] dn] e] eqn:He.
  assert (Hidx : in_bounds (lead ++ [n]) (state l ++ [action]) = true).
  { rewrite in_bounds_app, Hst. apply Nat.ltb_lt in Hlt. rewrite Hlt.
    reflexivity. }
  destruct (Hmax _ (Hdisc (env_bins I e) obs)) as (r & m & Hr & Hm).
  eexists _, _, _. unfold loop_body.
  erewrite bind_run by apply gets_run.
  erewrite bind_run by exact Hsel.
  erewrite bind_run
    by (unfold step; cbn [world on_world with_rng gym_env]; rewrite He;
        reflexivity).
  cbv iota beta.
  erewrite bind_run by apply gets_run.
  erewrite bind_run.
  2:{ unfold count_visit.
      erewrite bind_run by apply gets_run.
      erewrite bind_run
        by (apply lift_run; unfold getitem; cbn; rewrite Hv, Hidx;
            reflexivity).
      erewrite bind_run
        by (apply lift_run; unfold setitem; cbn; rewrite Hv, Hidx;
            reflexivity).
      erewrite bind_run by reflexivity.
      erewrite bind_run by apply gets_run.
      apply lift_run. unfold getitem. cbn [stats with_stats with_visits
        stats_state_action_visits store shape]. cbn in Hv. rewrite Hv, Hidx.
      reflexivity. }
  erewrite bind_run by apply gets_run.
  erewrite bind_run by (apply lift_run; exact Hr).
  erewrite bind_run by (apply lift_run; exact Hm).
  erewrite bind_run
    by (apply lift_run; unfold getitem; cbn; rewrite Hq, Hidx; reflexivity).
  erewrite bind_run
    by (apply lift_run; unfold setitem; cbn; rewrite Hq, Hidx; reflexivity).
  erewrite bind_run by reflexivity.
  reflexivity.
Qed.

(** *** The action selector *)

(** The greedy action is the first maximum of the row of the state. *)
Lemma greedy_first_maximum (q : ndarray) (state : list nat) (action : nat) :
  greedy q state = Ok action ->
  exists (r : list Q) (v : Q),
    row q state = Ok r /\ r !! action = Some v /\
    Forall (fun x => (x <= v)%Q) r /\
    forall k w, (k < action)%nat -> r !! k = Some w -> (w < v)%Q.
Proof.
  unfold greedy. destruct (row q state) as [r| |]; try discriminate.
  intros H. destruct (argmax_spec _ H) as (v & Hv & Hall & Hfirst).
  exists r, v. repeat split; assumption.
Qed.

(** Whatever the exploration rate held in [epsilon], the action of a pass
    that completes is the greedy one, and the sampler of the environment
    has not been asked: the environment only went through [env.step]. *)
Lemma loop_body_greedy (episode : nat) (l l' : Locals) (tr : Transition)
    (s s' : St I) :
  loop_body P episode l s = (Ok (l', tr), s') ->
  greedy (q_values s) (state l) = Ok (tr_action tr) /\
  gym_env (world s') = snd (env_step I (gym_env (world s)) (tr_action tr)).
Proof.
  intros H.
  destruct (loop_body_Ok _ _ _ H)
    as (obs & r & _ & _ & _ & Hrow & Harg & Hstep & _).
  unfold greedy. rewrite Hrow, Hstep. split; [exact Harg | reflexivity].
Qed.

(** C10. Every call of [select_action] takes one draw from the global
    generator before it chooses between exploring and exploiting: whatever
    the arguments and the outcome, the generator is left exactly one draw
    further.  When the draw is not below [epsilon] (as with [epsilon = 0]
    and a draw in [0, 1)) the result is the [argmax] action and nothing but
    the generator has changed. *)
Theorem select_action_draws_once (q : ndarray) (state : list nat)
    (env : EnvArg) (epsilon : Q) (s : St I) :
  let d := np_random_random I (np_rng (world s)) in
  let res := select_action q state env epsilon s in
  np_rng (world (snd res)) = snd d /\
  ((epsilon <= fst d)%Q ->
   res = (greedy q state, on_world (with_rng (snd d)) s)).
Proof.
  cbv zeta. unfold select_action, bind, random.
  destruct (np_random_random I (np_rng (world s))) as [u g]. simpl.
  split.
  - destruct (Qltb u epsilon).
    + destruct env; [|reflexivity].
      unfold sample. simpl.
      destruct (action_space_sample I (gym_env (world s))). reflexivity.
    + reflexivity.
  - intros Hle. apply Qltb_false in Hle. rewrite Hle. reflexivity.
Qed.

(** *** The backup and the update *)

Lemma row_Ok (a : ndarray) (state : list nat) (r : list Q) :
  row a state = Ok r ->
  in_bounds (removelast (shape a)) state = true /\
  r = map (fun action => item a (state ++ [action]))
        (seq 0 (List.last (shape a) 0%nat)).
Proof.
  unfold row. destruct (shape a) as [|d sh]; [discriminate|].
  destruct (in_bounds (removelast (d :: sh)) state); [|discriminate].
  intros H; injection H as <-. split; reflexivity.
Qed.






(** ** The episode loop *)

(** A [while] loop that returns has gone through the passes that
    [while_transitions] lists; if it was entered with [done] false, it was
    left because [done] became true or because the length was reached. *)
Lemma while_not_done_steps (fuel episode : nat) :
  forall (l l_end : Locals) (s s_end : St I),
    while_not_done P fuel episode l s = (Ok l_end, s_end) ->
    steps P episode l s (while_transitions P fuel episode l s) l_end s_end /\
    (done l = false ->
     while_transitions P fuel episode l s <> [] /\
     (done l_end = true \/ length_reached P (t l_end) = true)).
Proof.
  induction fuel as [|fuel IH]; intros l l_end s s_end H; simpl in *.
  - destruct (done l) eqn:Hd.
    + apply ret_Ok in H. destruct H as [-> ->].
      split; [constructor | discriminate].
    + discriminate.
  - destruct (done l) eqn:Hd.
    + apply ret_Ok in H. destruct H as [-> ->].
      split; [constructor | discriminate].
    + apply bind_Ok in H. destruct H as ([l1 tr] & s1 & Hb & H).
      rewrite Hb. simpl in H.
      destruct (length_reached P (t l1)) eqn:Hlen.
      * apply ret_Ok in H. destruct H as [-> ->]. split.
        -- eapply steps_cons; [exact Hd | exact Hb | constructor].
        -- intros _. split; [discriminate | right; exact Hlen].
      * destruct (IH _ _ _ _ H) as [Hs Hend]. split.
        -- eapply steps_cons; [exact Hd | exact Hb | exact Hs].
        -- intros _. split; [discriminate|].
           destruct (done l1) eqn:Hd1.
           ++ destruct fuel; simpl in H; rewrite Hd1 in H;
                apply ret_Ok in H; destruct H as [-> _]; left; exact Hd1.
           ++ apply Hend. reflexivity.
Qed.

Lemma begin_episode_Ok (episode : nat) (epsilon0 alpha0 gamma0 : Q)
    (l0 : Locals) (s s0 : St I) :
  begin_episode P episode epsilon0 alpha0 gamma0 s = (Ok l0, s0) ->
  done l0 = false /\ t l0 = 0%nat /\ episode_rewards l0 = [] /\
  epsilon l0 = epsilon0 /\ alpha l0 = alpha0 /\ gamma l0 = gamma0 /\
  q_values s0 = q_values s /\ stats s0 = stats s /\
  np_rng (world s0) = np_rng (world s) /\
  gym_env (world s0) = snd (env_reset I (gym_env (world s))).
Proof.
  unfold begin_episode. intros H.
  step_M H as u s1 Hp.
  step_M H as o s2 Hr.
  step_M H as bins s3 Hb.
  apply ret_Ok in H. destruct H as [-> ->]. simpl.
  unfold reset in Hr.
  destruct (env_reset I (gym_env (world s1))) as [o' e] eqn:He.
  injection Hr as <- <-. simpl.
  destruct (negb (suppress_print P) && ((episode + 1) mod 100 =? 0)).
  - apply modify_Ok in Hp. subst s1. simpl in *. rewrite He.
    repeat split; reflexivity.
  - apply ret_Ok in Hp. destruct Hp as [_ ->]. rewrite He.
    repeat split; reflexivity.
Qed.


(** ** Visit counts *)

Lemma of_nat_add (n m : nat) : (of_nat (n + m) == of_nat n + of_nat m)%Q.
Proof. unfold of_nat. rewrite Nat2Z.inj_add, inject_Z_plus. reflexivity. Qed.

Lemma loop_body_visits (episode : nat) (l l' : Locals) (tr : Transition)
    (s s' : St I) (p : list nat) :
  loop_body P episode l s = (Ok (l', tr), s') ->
  (item (stats_state_action_visits (stats s')) p
   == item (stats_state_action_visits (stats s)) p
      + of_nat (if decide (tr_index tr = p) then 1 else 0))%Q.
Proof.
  intros H.
  destruct (loop_body_Ok _ _ _ H)
    as (_ & _ & _ & _ & _ & _ & _ & _ & Hst & _ & _ & _ & _ & _ & _ & _
        & _ & _ & _ & _ & _ & _ & _ & Hv).
  rewrite Hv. unfold tr_index. rewrite Hst. simpl.
  destruct (decide (p = state l ++ [tr_action tr])) as [->|Hne].
  - destruct (decide (state l ++ [tr_action tr] = state l ++ [tr_action tr]));
      [|congruence].
    reflexivity.
  - destruct (decide (state l ++ [tr_action tr] = p)); [congruence|].
    unfold of_nat. simpl. ring.
Qed.

Lemma steps_visits (episode : nat) (l l' : Locals) (s s' : St I)
    (trs : list Transition) (p : list nat) :
  steps P episode l s trs l' s' ->
  (item (stats_state_action_visits (stats s')) p
   == item (stats_state_action_visits (stats s)) p
      + of_nat (updates_to p trs))%Q.
Proof.
  induction 1 as [|l l1 l2 s s1 s2 tr trs Hd Hb Hs IH]; simpl.
  - unfold of_nat. simpl. ring.
  - apply loop_body_visits with (p := p) in Hb.
    rewrite IH, Hb, of_nat_add. ring.
Qed.

Lemma end_episode_Ok (episode : nat) (l : Locals) (s s' : St I) (u : unit) :
  end_episode P episode l s = (Ok u, s') ->
  q_values s' = q_values s /\
  stats_state_action_visits (stats s')
    = stats_state_action_visits (stats s) /\
  np_rng (world s') = np_rng (world s) /\
  gym_env (world s') = gym_env (world s).
Proof.
  unfold end_episode. intros H.
  step_M H as u1 s1 H1.
  step_M H as m s2 H2.
  step_M H as u2 s3 H3.
  destruct (save_due P episode).
  - apply modify_Ok in H. subst s'. repeat split; reflexivity.
  - apply ret_Ok in H. destruct H as [_ ->]. repeat split; reflexivity.
Qed.

Lemma run_episode_visits (fuel episode : nat) (epsilon0 alpha0 gamma0 : Q)
    (l : Locals) (s s' : St I) (p : list nat) :
  run_episode P fuel episode epsilon0 alpha0 gamma0 s = (Ok l, s') ->
  (item (stats_state_action_visits (stats s')) p
   == item (stats_state_action_visits (stats s)) p
      + of_nat (updates_to p
                  (episode_transitions P fuel episode
                     epsilon0 alpha0 gamma0 s)))%Q.
Proof.
  intros H. unfold run_episode in H.
  step_M H as l0 s0 Hbeg.
  step_M H as l1 s1 Hw.
  step_M H as u s2 Hend.
  apply ret_Ok in H. destruct H as [-> ->].
  unfold episode_transitions. rewrite Hbeg.
  destruct (begin_episode_Ok _ _ _ _ _ Hbeg)
    as (_ & _ & _ & _ & _ & _ & _ & Hst & _).
  destruct (while_not_done_steps _ _ _ _ Hw) as [Hs _].
  destruct (end_episode_Ok _ _ _ Hend) as (_ & Hv & _).
  apply steps_visits with (p := p) in Hs.
  rewrite Hv, Hs, Hst. reflexivity.
Qed.

Lemma updates_to_app (p : list nat) (trs1 trs2 : list Transition) :
  updates_to p (trs1 ++ trs2) = (updates_to p trs1 + updates_to p trs2)%nat.
Proof. induction trs1 as [|tr trs1 IH]; simpl; [reflexivity | lia]. Qed.

Lemma for_episodes_visits (fuel : nat) (episodes : list nat) :
  forall (epsilon0 alpha0 gamma0 : Q) (s s' : St I) (u : unit)
         (p : list nat),
    for_episodes P fuel episodes epsilon0 alpha0 gamma0 s = (Ok u, s') ->
    (item (stats_state_action_visits (stats s')) p
     == item (stats_state_action_visits (stats s)) p
        + of_nat (updates_to p
                    (for_transitions P fuel episodes
                       epsilon0 alpha0 gamma0 s)))%Q.
Proof.
  induction episodes as [|episode rest IH]; intros e0 a0 g0 s s' u p H;
    simpl in *.
  - apply ret_Ok in H. destruct H as [_ ->]. unfold of_nat. simpl. ring.
  - apply bind_Ok in H. destruct H as (l & s1 & Hrun & H).
    rewrite Hrun, updates_to_app, of_nat_add.
    apply IH with (p := p) in H.
    apply run_episode_visits with (p := p) in Hrun.
    rewrite H, Hrun. ring.
Qed.

(** ** Setting up and the whole run *)

Lemma set_up_q_values_Ok (w w1 : World I) (q : ndarray) :
  set_up_q_values P w = (Ok q, w1) ->
  gym_env w1 = gym_env w /\ np_rng w1 = np_rng w /\ clock w1 = clock w /\
  ((q_values0 P = Some q /\ removelast (shape q) = buckets P) \/
   (q_values0 P = None /\ start_episode0 P = None /\
    q = fresh_q_values P (gym_env w))).
Proof.
  unfold set_up_q_values.
  destruct (q_values0 P) as [q0|].
  - unfold array_equal.
    destruct (decide (removelast (shape q0) = buckets P)) as [Heq|Hne];
      simpl; [|discriminate].
    destruct (start_episode0 P).
    + intros H. apply ret_Ok in H. destruct H as [-> ->].
      repeat split; trivial. left. split; trivial.
    + intros H. step_M H as u s1 Hm.
      apply ret_Ok in H. destruct H as [-> ->].
      repeat split; trivial. left. split; trivial.
  - destruct (start_episode0 P); [discriminate|].
    intros H. step_M H as env s1 He.
    destruct (zero_size _); [discriminate|].
    apply ret_Ok in H. destruct H as [-> ->].
    repeat split; trivial. right. repeat split; trivial.
Qed.

Lemma set_up_Ok (w w1 : World I) (start : Q) (q : ndarray) (st : Stats I) :
  set_up P w = (Ok (start, q, st), w1) ->
  (exists (start_time : Time I) (env : Env I),
     st = initial_stats P start_time q env) /\
  np_rng w1 = np_random_seed I (seed P) /\
  gym_env w1
    = set_discretization I (gym_env w) (buckets P) (state_bounds P) /\
  ((q_values0 P = Some q /\ removelast (shape q) = buckets P) \/
   (q_values0 P = None /\ start_episode0 P = None /\
    q = fresh_q_values P (gym_env w))).
Proof.
  unfold set_up. intros H.
  step_M H as start0 s1 H1.
  step_M H as now s2 H2.
  step_M H as u1 s3 H3.
  unfold seed_generator in H3.
  destruct (seed_in_range (seed P)); [|discriminate].
  apply modify_Ok in H3. subst s3.
  step_M H as u2 s4 H4.
  step_M H as q0 s5 H5.
  step_M H as start_time s6 H6.
  step_M H as env s7 H7.
  step_M H as u3 s8 H8.
  apply ret_Ok in H. destruct H as [H ->]. injection H as -> -> ->.
  destruct (set_up_q_values_Ok _ H5) as (He5 & Hr5 & _ & Hq).
  unfold read_process_time in H1. unfold read_datetime_now in H2, H6.
  destruct (process_time I (clock w)) as [x1 c1].
  injection H1 as <- <-.
  destruct (datetime_now I (clock (with_clock c1 w))) as [x2 c2].
  injection H2 as <- <-.
  destruct (datetime_now I (clock s5)) as [x6 c6].
  injection H6 as <- <-.
  assert (He4 : gym_env s4 = gym_env w /\
                np_rng s4 = np_random_seed I (seed P)).
  { destruct (max_episode_length P).
    - apply ret_Ok in H4. destruct H4 as [_ ->]. split; reflexivity.
    - apply modify_Ok in H4. subst s4. split; reflexivity. }
  destruct He4 as [He4 Hr4]. simpl.
  split; [eexists _, _; reflexivity|].
  split; [rewrite Hr5; exact Hr4|].
  split; [rewrite He5, He4; reflexivity|].
  destruct Hq as [Hq|(Hq1 & Hq2 & Hq3)]; [left; exact Hq|].
  right. rewrite Hq3, He4. repeat split; trivial.
Qed.

Lemma learn_Returned (fuel : nat) (w w' : World I) (q : ndarray)
    (st : Stats I) :
  learn P fuel w = (Returned q st, w') ->
  exists (start : Q) (q0 : ndarray) (st0 : Stats I) (w1 : World I)
         (s1 : St I) (u : unit),
    set_up P w = (Ok (start, q0, st0), w1) /\
    for_episodes P fuel (seq 0 (max_episodes P))
      (get_epsilon P (start_episode P) 1)
      (get_learning_rate P (start_episode P) 1)
      (get_gamma P (start_episode P) 1)
      {| world := w1; q_values := q0; stats := st0 |} = (Ok u, s1) /\
    q = q_values s1 /\
    stats_state_action_visits st = stats_state_action_visits (stats s1).
Proof.
  unfold learn. intros H.
  destruct (set_up P w) as [[[[start q0] st0]|e|] w1] eqn:Hset;
    [|discriminate|discriminate].
  destruct (main_loop P fuel start _) as [[[q' st']|e|] s2] eqn:Hmain;
    [|discriminate|discriminate].
  injection H as -> -> <-.
  unfold main_loop in Hmain.
  step_M Hmain as u s1 Hfor.
  step_M Hmain as finish s3 Hfin.
  step_M Hmain as u1 s4 Hm1.
  step_M Hmain as u2 s5 Hm2.
  step_M Hmain as q1 s6 Hq.
  step_M Hmain as st1 s7 Hst.
  apply ret_Ok in Hmain. destruct Hmain as [Hmain ->].
  injection Hmain as -> ->.
  destruct (process_time I (clock (world s1))) as [x c].
  injection Hfin as <- <-.
  exists start, q0, st0, w1, s1, u.
  split; [reflexivity|]. split; [exact Hfor|]. split; reflexivity.
Qed.

(** C8. A step raises the visit count of the pair it updates by one and
    leaves every other count as it is, so that no count ever decreases; the
    counts start at zero, and in the statistics that a run returns the count
    of a pair is the number of transitions of the run that updated this
    pair, however they were interleaved with updates of other pairs. *)
Theorem visit_count_is_number_of_updates :
  (forall (w w1 : World I) (start : Q) (q : ndarray) (st : Stats I),
     set_up P w = (Ok (start, q, st), w1) ->
     stats_state_action_visits st = zeros (shape q)) /\
  (forall (episode : nat) (l l' : Locals) (tr : Transition) (s s' : St I)
          (p : list nat),
     loop_body P episode l s = (Ok (l', tr), s') ->
     (item (stats_state_action_visits (stats s')) p
      == item (stats_state_action_visits (stats s)) p
         + (if decide (tr_index tr = p) then 1 else 0))%Q /\
     (item (stats_state_action_visits (stats s)) p
      <= item (stats_state_action_visits (stats s')) p)%Q) /\
  (forall (fuel : nat) (w w' : World I) (q : ndarray) (st : Stats I)
          (p : list nat),
     learn P fuel w = (Returned q st, w') ->
     (item (stats_state_action_visits st) p
      == of_nat (updates_to p (learn_transitions P fuel w)))%Q).
Proof.
  split; [|split].
  - intros w w1 start q st H.
    destruct (set_up_Ok _ H) as ((start_time & env & ->) & _). reflexivity.
  - intros episode l l' tr s s' p H.
    apply loop_body_visits with (p := p) in H.
    destruct (decide (tr_index tr = p)).
    + change (of_nat 1) with 1%Q in H. split; lra.
    + change (of_nat 0) with 0%Q in H. split; lra.
  - intros fuel w w' q st p H.
    destruct (learn_Returned _ _ H)
      as (start & q0 & st0 & w1 & s1 & u & Hset & Hfor & _ & Hv).
    unfold learn_transitions. rewrite Hset, Hv.
    apply for_episodes_visits with (p := p) in Hfor. rewrite Hfor.
    destruct (set_up_Ok _ Hset) as ((start_time & env & ->) & _).
    simpl. ring.
Qed.

(** *** Configuration errors *)

(** A seed out of range makes [set_up] raise before anything but the clock
    is touched. *)
Lemma set_up_bad_seed (w : World I) :
  seed_in_range (seed P) = false ->
  exists w0 : World I,
    set_up P w = (Raise ValueError, w0) /\
    gym_env w0 = gym_env w /\ np_rng w0 = np_rng w /\ out w0 = out w.
Proof.
  intros Hseed. unfold set_up, bind, seed_generator.
  unfold read_process_time, read_datetime_now. rewrite Hseed.
  destruct (process_time I (clock w)) as [x1 c1]. simpl.
  destruct (datetime_now I c1) as [x2 c2]. simpl.
  eexists. split; [reflexivity|]. repeat split; reflexivity.
Qed.

(** A run that gets past the set-up had a seed in range. *)
Lemma set_up_seed (w w1 : World I) (r : Q * ndarray * Stats I) :
  set_up P w = (Ok r, w1) -> seed_in_range (seed P) = true.
Proof.
  destruct (seed_in_range (seed P)) eqn:Hseed; [reflexivity|].
  destruct (set_up_bad_seed w Hseed) as (w0 & H & _). rewrite H.
  discriminate.
Qed.

(** Up to the set-up of the table, [set_up] reads the clock twice, seeds the
    generator and possibly warns; the environment is not touched. *)
Lemma set_up_unfold (w : World I) :
  seed_in_range (seed P) = true ->
  exists w0 : World I,
    gym_env w0 = gym_env w /\
    np_rng w0 = np_random_seed I (seed P) /\
    set_up P w
    = (let! q := set_up_q_values P in
       let! start_time := @read_datetime_now I in
       let! env := gets (@gym_env I) in
       let st := initial_stats P start_time q env in
       modify (fun w =>
                 with_env
                   (set_discretization I (gym_env w) (buckets P)
                      (state_bounds P)) w) ;;
       ret (fst (process_time I (clock w)), q, st)) w0.
Proof.
  intros Hseed. unfold set_up, bind at 1 2 3 4, seed_generator.
  rewrite Hseed.
  unfold read_process_time at 1. unfold read_datetime_now at 1.
  destruct (process_time I (clock w)) as [x1 c1]. simpl.
  destruct (datetime_now I c1) as [x2 c2]. simpl.
  destruct (max_episode_length P); simpl; eexists;
    (split; [|split; [|reflexivity]]); reflexivity.
Qed.

(** C7. Both fatal configuration errors, a [start_episode] without a
    warm-start table and a warm-start table whose leading shape is not
    [buckets], make [learn] raise [ValueError] while it sets up: the table
    that was passed is as it was, no statistics exist yet, the environment
    has been neither configured, reset nor stepped, and no step of any
    episode has run. *)
Theorem configuration_errors_fail_fast (fuel : nat) (w : World I) :
  (q_values0 P = None /\ start_episode0 P <> None) \/
  (exists q : ndarray,
     q_values0 P = Some q /\ removelast (shape q) <> buckets P) ->
  exists w' : World I,
    learn P fuel w = (Raised ValueError (q_values0 P) None, w') /\
    gym_env w' = gym_env w /\
    learn_transitions P fuel w = [].
Proof.
  intros Hbad.
  destruct (seed_in_range (seed P)) eqn:Hseed.
  2:{ destruct (set_up_bad_seed w Hseed) as (w0 & Hraise & He0 & _).
      exists w0. unfold learn, learn_transitions. rewrite Hraise.
      split; [reflexivity|]. split; [exact He0 | reflexivity]. }
  destruct (set_up_unfold w Hseed) as (w0 & He0 & _ & Hset).
  assert (Hq : set_up_q_values P w0 = (Raise ValueError, w0)).
  { unfold set_up_q_values.
    destruct Hbad as [[Hnone Hstart] | (q & Hsome & Hshape)].
    - rewrite Hnone. destruct (start_episode0 P); [reflexivity | congruence].
    - rewrite Hsome. unfold array_equal.
      destruct (decide (removelast (shape q) = buckets P));
        [congruence | reflexivity]. }
  assert (Hraise : set_up P w = (Raise ValueError, w0)).
  { rewrite Hset. unfold bind at 1. rewrite Hq. reflexivity. }
  exists w0. unfold learn, learn_transitions. rewrite Hraise.
  split; [reflexivity|]. split; [exact He0 | reflexivity].
Qed.

(** C9. The validation of a warm-start table looks at its shape without the
    last axis only: whatever the extent of the last axis, and so whether or
    not it is the number of actions of the environment, a table whose
    leading shape is [buckets] is accepted as it is (the seed being one that
    [np.random.seed] accepts): the set-up completes with this very table,
    the visit counts take its shape, the environment is configured, and
    the run does not end in an error of the set-up. *)
Theorem warm_start_validates_leading_shape_only (fuel : nat) (w : World I)
    (q : ndarray) :
  seed_in_range (seed P) = true ->
  q_values0 P = Some q ->
  removelast (shape q) = buckets P ->
  (exists (start : Q) (st : Stats I) (w1 : World I),
     set_up P w = (Ok (start, q, st), w1) /\
     stats_state_action_visits st = zeros (shape q) /\
     gym_env w1
     = set_discretization I (gym_env w) (buckets P) (state_bounds P)) /\
  (forall (e : exn) (table : option ndarray),
     fst (learn P fuel w) <> Raised e table None).
Proof.
  intros Hseed Hsome Hshape.
  destruct (set_up_unfold w Hseed) as (w0 & He0 & _ & Hset).
  assert (Hq : exists w2, set_up_q_values P w0 = (Ok q, w2) /\
                          gym_env w2 = gym_env w0).
  { unfold set_up_q_values. rewrite Hsome. unfold array_equal.
    destruct (decide (removelast (shape q) = buckets P)); [|congruence].
    simpl. destruct (start_episode0 P); eexists; split; reflexivity. }
  destruct Hq as (w2 & Hq & He2).
  assert (Hok : exists start st w1,
             set_up P w = (Ok (start, q, st), w1) /\
             stats_state_action_visits st = zeros (shape q) /\
             gym_env w1
             = set_discretization I (gym_env w) (buckets P)
                 (state_bounds P)).
  { rewrite Hset. unfold bind at 1. rewrite Hq.
    unfold bind, read_datetime_now, gets, modify, ret.
    destruct (datetime_now I (clock w2)) as [x c]. simpl.
    eexists _, _, _. split; [reflexivity|]. split; [reflexivity|].
    rewrite He2, He0. reflexivity. }
  split; [exact Hok|].
  destruct Hok as (start & st & w1 & Hok & _).
  intros e table. unfold learn. rewrite Hok.
  destruct (main_loop P fuel start _) as [[[q' st']|e'|] s1]; discriminate.
Qed.

End Properties.

(** ** Termination

    Nothing but the [while] loop can run out of fuel, and with a
    [max_episode_length] the loop needs no more passes than that length (one
    pass when the length is 0). *)

Section Termination.

Variable I : Interfaces.
Variable P : Params I.

Lemma bind_never_times_out {T A B : Type} (c : M T A) (k : A -> M T B) :
  never_times_out c ->
  (forall a, never_times_out (k a)) ->
  never_times_out (bind c k).
Proof.
  intros Hc Hk s. unfold bind. specialize (Hc s).
  destruct (c s) as [[a|e|] s1]; simpl in *.
  - apply Hk.
  - discriminate.
  - congruence.
Qed.

Lemma lift_never_times_out {T A : Type} (r : Res A) :
  r <> Timeout -> never_times_out (lift (S:=T) r).
Proof. intros H s. exact H. Qed.

Lemma row_not_Timeout (a : ndarray) (state : list nat) :
  row a state <> Timeout.
Proof.
  unfold row. destruct (shape a); [discriminate|].
  destruct (in_bounds _ state); discriminate.
Qed.

Lemma greedy_not_Timeout (a : ndarray) (state : list nat) :
  greedy a state <> Timeout.
Proof.
  unfold greedy. destruct (row a state) as [[|x r]| |] eqn:E; simpl;
    try discriminate.
  exfalso. exact (row_not_Timeout _ _ E).
Qed.

Lemma getitem_not_Timeout (a : ndarray) (idx : list nat) :
  getitem a idx <> Timeout.
Proof. unfold getitem. destruct (in_bounds _ idx); discriminate. Qed.

Lemma setitem_not_Timeout (a : ndarray) (idx : list nat) (v : Q) :
  setitem a idx v <> Timeout.
Proof. unfold setitem. destruct (in_bounds _ idx); discriminate. Qed.

Lemma amax_not_Timeout (l : list Q) : amax l <> Timeout.
Proof. destruct l; discriminate. Qed.

Lemma amin_not_Timeout (l : list Q) : amin l <> Timeout.
Proof. destruct l; discriminate. Qed.

(** Discharge [never_times_out] for a chain of primitive steps. *)
Ltac no_timeout :=
  repeat first
    [ apply bind_never_times_out; [|intro]
    | apply lift_never_times_out;
      first [ apply row_not_Timeout | apply greedy_not_Timeout
            | apply getitem_not_Timeout | apply setitem_not_Timeout
            | apply amax_not_Timeout | apply amin_not_Timeout
            | discriminate ]
    | (intros ?s; unfold gets, modify, ret; simpl; discriminate) ].

Lemma select_action_never_times_out (q : ndarray) (state : list nat)
    (env : EnvArg) (epsilon : Q) :
  never_times_out (select_action (I:=I) q state env epsilon).
Proof.
  unfold select_action. apply bind_never_times_out.
  - intros s. unfold random. destruct (np_random_random I _). discriminate.
  - intros u. destruct (Qltb u epsilon); [destruct env|].
    + intros s. unfold sample. destruct (action_space_sample I _).
      discriminate.
    + no_timeout.
    + no_timeout.
Qed.

Lemma loop_body_never_times_out (episode : nat) (l : Locals) :
  never_times_out (loop_body P episode l).
Proof.
  unfold loop_body. apply bind_never_times_out; [no_timeout|]. intros q.
  apply bind_never_times_out; [apply select_action_never_times_out|].
  intros action. apply bind_never_times_out.
  { intros s. unfold step. destruct (env_step I _ action). discriminate. }
  intros [[o reward] dn]. unfold count_visit. no_timeout.
Qed.

Lemma while_not_done_never_times_out (m : nat) (episode fuel : nat) :
  max_episode_length P = Some m ->
  forall l : Locals,
    (1 <= fuel)%nat ->
    (m <= t l + fuel)%nat ->
    never_times_out (while_not_done P fuel episode l).
Proof.
  intros Hm. induction fuel as [|fuel IH]; intros l Hpos Hfuel; [lia|].
  simpl. destruct (done l); [no_timeout|].
  intros s. unfold bind.
  destruct (loop_body P episode l s) as [[[l' tr]|e|] s'] eqn:Hb; simpl.
  - destruct (loop_body_Ok _ _ _ _ Hb)
      as (_ & _ & _ & _ & _ & _ & _ & _ & _ & _ & _ & _ & _ & _ & _ & _
          & _ & _ & Hl' & _).
    assert (Ht : t l' = S (t l)) by (rewrite Hl'; reflexivity).
    unfold length_reached. rewrite Hm.
    destruct (m <=? t l') eqn:Hle; [discriminate|].
    apply Nat.leb_gt in Hle. apply IH; lia.
  - discriminate.
  - exfalso. apply (loop_body_never_times_out episode l s).
    rewrite Hb. reflexivity.
Qed.

Lemma run_episode_never_times_out (m fuel episode : nat)
    (epsilon0 alpha0 gamma0 : Q) :
  max_episode_length P = Some m ->
  (1 <= fuel)%nat -> (m <= fuel)%nat ->
  never_times_out (run_episode P fuel episode epsilon0 alpha0 gamma0).
Proof.
  intros Hm Hpos Hfuel s. unfold run_episode, bind.
  destruct (begin_episode P episode epsilon0 alpha0 gamma0 s)
    as [[l0|e|] s0] eqn:Hbeg; simpl.
  - destruct (begin_episode_Ok _ _ _ _ _ _ Hbeg) as (_ & Ht0 & _).
    pose proof (@while_not_done_never_times_out m episode fuel Hm l0 Hpos)
      as Hw.
    specialize (Hw ltac:(lia) s0).
    destruct (while_not_done P fuel episode l0 s0) as [[l|e|] s1]; simpl in *;
      [|discriminate|congruence].
    assert (He : never_times_out (end_episode P episode l))
      by (unfold end_episode; no_timeout;
          destruct (save_due P episode); no_timeout).
    specialize (He s1).
    destruct (end_episode P episode l s1) as [[u|e|] s2]; simpl in *;
      [discriminate|discriminate|congruence].
  - discriminate.
  - unfold begin_episode in Hbeg.
    assert (Hb : never_times_out
                   (begin_episode P episode epsilon0 alpha0 gamma0)).
    { unfold begin_episode. apply bind_never_times_out.
      - destruct (negb (suppress_print P) && _); no_timeout.
      - intros _. apply bind_never_times_out; [|no_timeout].
        intros s'. unfold reset. destruct (env_reset I _). discriminate. }
    exfalso. apply (Hb s). unfold begin_episode. rewrite Hbeg. reflexivity.
Qed.

Lemma for_episodes_never_times_out (m fuel : nat) (episodes : list nat) :
  max_episode_length P = Some m ->
  (1 <= fuel)%nat -> (m <= fuel)%nat ->
  forall epsilon0 alpha0 gamma0 : Q,
    never_times_out (for_episodes P fuel episodes epsilon0 alpha0 gamma0).
Proof.
  intros Hm Hpos Hfuel.
  induction episodes as [|episode rest IH]; intros e0 a0 g0; simpl.
  - no_timeout.
  - apply bind_never_times_out.
    + apply run_episode_never_times_out with (m := m); assumption.
    + intros l. apply IH.
Qed.

(** X21. With a [max_episode_length] and that much fuel (at least one), [learn]
    returns or raises. *)
Lemma learn_does_not_diverge (m fuel : nat) (w : World I) :
  max_episode_length P = Some m ->
  (1 <= fuel)%nat -> (m <= fuel)%nat ->
  fst (learn P fuel w) <> Diverged I.
Proof.
  intros Hm Hpos Hfuel. unfold learn.
  destruct (set_up P w) as [[[[start q] st]|e|] w1] eqn:Hset; simpl.
  - assert (Hmain : never_times_out (main_loop P fuel start)).
    { unfold main_loop. apply bind_never_times_out.
      - apply for_episodes_never_times_out with (m := m); assumption.
      - intros _. apply bind_never_times_out; [|no_timeout].
        intros s. destruct (process_time I _). discriminate. }
    specialize (Hmain {| world := w1; q_values := q; stats := st |}).
    destruct (main_loop P fuel start _) as [[[q' st']|e|] s]; simpl in *;
      [discriminate|discriminate|congruence].
  - discriminate.
  - destruct (seed_in_range (seed P)) eqn:Hseed.
    2:{ destruct (set_up_bad_seed P w Hseed) as (w0 & Hraise & _).
        rewrite Hraise in Hset. discriminate. }
    destruct (set_up_unfold P w Hseed) as (w0 & _ & _ & Hu).
    rewrite Hu in Hset.
    assert (Hn : never_times_out
                   (let! q := set_up_q_values P in
                    let! start_time := @read_datetime_now I in
                    let! env := gets (@gym_env I) in
                    let st := initial_stats P start_time q env in
                    modify (fun w =>
                              with_env
                                (set_discretization I (gym_env w) (buckets P)
                                   (state_bounds P)) w) ;;
                    ret (fst (process_time I (clock w)), q, st))).
    { apply bind_never_times_out.
      - intros s. unfold set_up_q_values.
        destruct (q_values0 P); [destruct (negb _)|];
          destruct (start_episode0 P); try solve [no_timeout].
        unfold bind, gets. destruct (zero_size _); discriminate.
      - intros q. apply bind_never_times_out; [|no_timeout].
        intros s. unfold read_datetime_now. destruct (datetime_now I _).
        discriminate. }
    exfalso. apply (Hn w0). rewrite Hset. reflexivity.
Qed.

End Termination.

(** ** Runs that differ in the clock *)

Section Determinism.

Variable I : Interfaces.
Variable P : Params I.

(** Split an agreement of states into its four parts. *)
Ltac sim_split := unfold sim; simpl; split; [|split; [|split]].

Lemma stats_agree_refl (st : Stats I) : stats_agree st st.
Proof. unfold stats_agree. repeat split; reflexivity. Qed.

Lemma sim_refl (s : St I) : sim s s.
Proof. unfold sim, stats_agree. repeat split; reflexivity. Qed.

Lemma res_rel_eq_refl {A : Type} (r : Res A) : res_rel eq r r.
Proof. destruct r; simpl; trivial. Qed.

Lemma related_ret {A : Type} (R : A -> A -> Prop) (a b : A) :
  R a b -> @related I A R (ret a) (ret b).
Proof. intros H s1 s2 Hs. simpl. split; assumption. Qed.

Lemma related_bind {A B : Type} (R : A -> A -> Prop) (R' : B -> B -> Prop)
    (c1 c2 : M (St I) A) (k1 k2 : A -> M (St I) B) :
  related R c1 c2 ->
  (forall a b, R a b -> related R' (k1 a) (k2 b)) ->
  related R' (bind c1 k1) (bind c2 k2).
Proof.
  intros Hc Hk s1 s2 Hs. unfold bind.
  destruct (Hc s1 s2 Hs) as [Hr Hs'].
  destruct (c1 s1) as [[a|e1|] t1], (c2 s2) as [[b|e2|] t2]; simpl in *;
    try contradiction; try (split; assumption).
  apply Hk; assumption.
Qed.

Lemma related_lift {A : Type} (r : Res A) :
  @related I A eq (lift r) (lift r).
Proof. intros s1 s2 Hs. simpl. split; [apply res_rel_eq_refl | exact Hs]. Qed.

Lemma related_gets {A : Type} (R : A -> A -> Prop) (f : St I -> A) :
  (forall s1 s2, sim s1 s2 -> R (f s1) (f s2)) -> related R (gets f) (gets f).
Proof. intros H s1 s2 Hs. simpl. split; [apply H|]; exact Hs. Qed.

Lemma related_modify (f g : St I -> St I) :
  (forall s1 s2, sim s1 s2 -> sim (f s1) (g s2)) ->
  related eq (modify f) (modify g).
Proof. intros H s1 s2 Hs. simpl. split; [reflexivity | apply H; exact Hs]. Qed.

(** A step that only writes to the console or reads the clock keeps the
    agreement. *)
Lemma sim_on_world (f g : World I -> World I) (s1 s2 : St I) :
  (forall w, np_rng (f w) = np_rng w /\ gym_env (f w) = gym_env w) ->
  (forall w, np_rng (g w) = np_rng w /\ gym_env (g w) = gym_env w) ->
  sim s1 s2 -> sim (on_world f s1) (on_world g s2).
Proof.
  intros Hf Hg (Hr & He & Hq & Hst). unfold sim. simpl.
  destruct (Hf (world s1)) as [Hf1 Hf2]. destruct (Hg (world s2)) as [Hg1 Hg2].
  rewrite Hf1, Hf2, Hg1, Hg2. sim_split; first [assumption | reflexivity].
Qed.

Lemma random_related : related eq (@random I) (@random I).
Proof.
  intros s1 s2 (Hr & He & Hq & Hst). unfold random. rewrite Hr.
  destruct (np_random_random I (np_rng (world s2))) as [u g]. simpl.
  split; [reflexivity|]. sim_split; first [assumption | reflexivity].
Qed.

Lemma sample_related : related eq (@sample I) (@sample I).
Proof.
  intros s1 s2 (Hr & He & Hq & Hst). unfold sample. rewrite He.
  destruct (action_space_sample I (gym_env (world s2))) as [a e]. simpl.
  split; [reflexivity|]. sim_split; first [assumption | reflexivity].
Qed.

Lemma reset_related : related eq (@reset I) (@reset I).
Proof.
  intros s1 s2 (Hr & He & Hq & Hst). unfold reset. rewrite He.
  destruct (env_reset I (gym_env (world s2))) as [o e]. simpl.
  split; [reflexivity|]. sim_split; first [assumption | reflexivity].
Qed.

Lemma step_related (action : nat) :
  related eq (step (I:=I) action) (step action).
Proof.
  intros s1 s2 (Hr & He & Hq & Hst). unfold step. rewrite He.
  destruct (env_step I (gym_env (world s2)) action) as [r e]. simpl.
  split; [reflexivity|]. sim_split; first [assumption | reflexivity].
Qed.

Lemma gets_q_related : related eq (gets (@q_values I)) (gets (@q_values I)).
Proof. apply related_gets. intros s1 s2 (_ & _ & Hq & _). exact Hq. Qed.

Lemma gets_bins_related :
  related eq (gets (fun s : St I => env_bins I (gym_env (world s))))
             (gets (fun s : St I => env_bins I (gym_env (world s)))).
Proof.
  apply related_gets. intros s1 s2 (_ & He & _). rewrite He. reflexivity.
Qed.

Lemma gets_visits_related :
  related eq (gets (fun s : St I => stats_state_action_visits (stats s)))
             (gets (fun s : St I => stats_state_action_visits (stats s))).
Proof.
  apply related_gets. intros s1 s2 (_ & _ & _ & Hst).
  apply Hst.
Qed.

Lemma modify_stats_related (f : Stats I -> Stats I) :
  (forall a b, stats_agree a b -> stats_agree (f a) (f b)) ->
  related eq (modify (fun s : St I => with_stats (f (stats s)) s))
             (modify (fun s : St I => with_stats (f (stats s)) s)).
Proof.
  intros Hf. apply related_modify. intros s1 s2 (Hr & He & Hq & Hst).
  unfold sim. simpl. sim_split; try assumption. apply Hf. exact Hst.
Qed.

Create HintDb rel.
#[local] Hint Resolve random_related sample_related reset_related
  step_related gets_q_related gets_bins_related gets_visits_related
  related_lift : rel.

(** Chain one [bind] whose first computation returns equal values. *)
Ltac rel_bind :=
  apply related_bind with (R := eq); [auto with rel | intros ? ? <-].

Lemma select_action_related (q : ndarray) (state : list nat) (env : EnvArg)
    (epsilon : Q) :
  related eq (select_action (I:=I) q state env epsilon)
             (select_action q state env epsilon).
Proof.
  unfold select_action. rel_bind.
  destruct (Qltb a epsilon); [destruct env|]; auto with rel.
Qed.

Lemma count_visit_related (idx : list nat) :
  related eq (count_visit (I:=I) idx) (count_visit idx).
Proof.
  unfold count_visit. rel_bind. rel_bind. rel_bind.
  apply related_bind with (R := eq).
  - apply modify_stats_related. intros x y Hxy.
    unfold stats_agree in *. simpl. intuition congruence.
  - intros _ _ _. rel_bind. auto with rel.
Qed.

Lemma loop_body_related (episode : nat) (l : Locals) :
  related eq (loop_body P episode l) (loop_body P episode l).
Proof.
  unfold loop_body. rel_bind.
  apply related_bind with (R := eq); [apply select_action_related|].
  intros action ? <-. rel_bind. destruct a0 as [[o reward] dn].
  rel_bind.
  apply related_bind with (R := eq); [apply count_visit_related|].
  intros num_visits ? <-. rel_bind. rel_bind. rel_bind. rel_bind. rel_bind.
  apply related_bind with (R := eq).
  - apply related_modify. intros s1 s2 (Hr & He & Hq & Hst).
    unfold sim. simpl. sim_split; first [assumption | reflexivity].
  - intros _ _ _. apply related_ret. reflexivity.
Qed.

Lemma while_not_done_related (fuel episode : nat) :
  forall l : Locals,
    related eq (while_not_done P fuel episode l)
               (while_not_done P fuel episode l).
Proof.
  induction fuel as [|fuel IH]; intros l; simpl.
  - destruct (done l); [apply related_ret; reflexivity | apply related_lift].
  - destruct (done l); [apply related_ret; reflexivity|].
    apply related_bind with (R := eq); [apply loop_body_related|].
    intros r ? <-. simpl.
    destruct (length_reached P (t (fst r)));
      [apply related_ret; reflexivity | apply IH].
Qed.

Lemma begin_episode_related (episode : nat) (epsilon0 alpha0 gamma0 : Q) :
  related eq (begin_episode P episode epsilon0 alpha0 gamma0)
             (begin_episode P episode epsilon0 alpha0 gamma0).
Proof.
  unfold begin_episode.
  apply related_bind with (R := eq).
  - destruct (negb (suppress_print P) && ((episode + 1) mod 100 =? 0)).
    + apply related_modify. intros s1 s2 Hs.
      apply sim_on_world; trivial; intros w; split; reflexivity.
    + apply related_ret. reflexivity.
  - intros _ _ _. rel_bind. rel_bind. apply related_ret. reflexivity.
Qed.

Lemma end_episode_related (episode : nat) (l : Locals) :
  related eq (end_episode P episode l) (end_episode P episode l).
Proof.
  unfold end_episode.
  apply related_bind with (R := eq).
  { apply modify_stats_related. intros x y Hxy.
    unfold stats_agree in *. simpl. intuition congruence. }
  intros _ _ _. rel_bind.
  apply related_bind with (R := eq).
  { apply modify_stats_related. intros x y Hxy.
    unfold stats_agree in *. simpl. intuition congruence. }
  intros _ _ _.
  destruct (save_due P episode).
  - apply related_modify. intros s1 s2 Hs.
    destruct Hs as (Hr & He & Hq & Hst).
    sim_split; first [assumption | reflexivity].
  - apply related_ret. reflexivity.
Qed.

Lemma run_episode_related (fuel episode : nat) (epsilon0 alpha0 gamma0 : Q) :
  related eq (run_episode P fuel episode epsilon0 alpha0 gamma0)
             (run_episode P fuel episode epsilon0 alpha0 gamma0).
Proof.
  unfold run_episode.
  apply related_bind with (R := eq); [apply begin_episode_related|].
  intros l0 ? <-.
  apply related_bind with (R := eq); [apply while_not_done_related|].
  intros l ? <-.
  apply related_bind with (R := eq); [apply end_episode_related|].
  intros _ _ _. apply related_ret. reflexivity.
Qed.

Lemma for_episodes_related (fuel : nat) (episodes : list nat) :
  forall epsilon0 alpha0 gamma0 : Q,
    related eq (for_episodes P fuel episodes epsilon0 alpha0 gamma0)
               (for_episodes P fuel episodes epsilon0 alpha0 gamma0).
Proof.
  induction episodes as [|episode rest IH]; intros e0 a0 g0; simpl.
  - apply related_ret. reflexivity.
  - apply related_bind with (R := eq); [apply run_episode_related|].
    intros l ? <-. apply IH.
Qed.

(** The main loop, started with two readings of the processor time. *)
Lemma main_loop_related (fuel : nat) (start1 start2 : Q) :
  related (fun r1 r2 : ndarray * Stats I =>
             fst r1 = fst r2 /\ stats_agree (snd r1) (snd r2))
          (main_loop P fuel start1) (main_loop P fuel start2).
Proof.
  unfold main_loop.
  apply related_bind with (R := eq); [apply for_episodes_related|].
  intros _ _ _.
  apply related_bind with (R := fun _ _ : Q => True).
  { intros s1 s2 (Hr & He & Hq & Hst).
    destruct (process_time I (clock (world s1))) as [x1 c1].
    destruct (process_time I (clock (world s2))) as [x2 c2]. simpl.
    split; [exact Logic.I|]. sim_split; first [assumption | reflexivity]. }
  intros finish1 finish2 _.
  apply related_bind with (R := eq).
  { apply related_modify. intros s1 s2 (Hr & He & Hq & Hst).
    sim_split; first [assumption | unfold stats_agree in *; exact Hst]. }
  intros _ _ _.
  apply related_bind with (R := eq).
  { apply related_modify. intros s1 s2 Hs.
    apply sim_on_world; trivial; intros w; split; reflexivity. }
  intros _ _ _. rel_bind.
  apply related_bind with (R := @stats_agree I).
  { apply related_gets. intros s1 s2 (_ & _ & _ & Hst). exact Hst. }
  intros st1 st2 Hst. apply related_ret. split; [reflexivity | exact Hst].
Qed.

(** Setting up in two worlds with the same environment: both raise
    [ValueError], or both give the same table, statistics that agree, and
    worlds with the same generator and environment. *)
Lemma set_up_agree (w1 w2 : World I) :
  gym_env w1 = gym_env w2 ->
  (exists w1' w2' : World I,
     set_up P w1 = (Raise ValueError, w1') /\
     set_up P w2 = (Raise ValueError, w2')) \/
  (exists (start1 start2 : Q) (q : ndarray) (st1 st2 : Stats I)
          (w1' w2' : World I),
     set_up P w1 = (Ok (start1, q, st1), w1') /\
     set_up P w2 = (Ok (start2, q, st2), w2') /\
     stats_agree st1 st2 /\
     np_rng w1' = np_rng w2' /\ gym_env w1' = gym_env w2').
Proof.
  intros Henv.
  destruct (seed_in_range (seed P)) eqn:Hseed.
  2:{ left.
      destruct (set_up_bad_seed P w1 Hseed) as (a1 & -> & _).
      destruct (set_up_bad_seed P w2 Hseed) as (a2 & -> & _).
      eexists _, _. split; reflexivity. }
  destruct (set_up_unfold P w1 Hseed) as (a1 & He1 & Hr1 & Hset1).
  destruct (set_up_unfold P w2 Hseed) as (a2 & He2 & Hr2 & Hset2).
  rewrite Hset1, Hset2. clear Hset1 Hset2.
  assert (Hsame : gym_env a1 = gym_env a2) by congruence.
  assert (Hrng : np_rng a1 = np_rng a2) by congruence.
  assert (Hq : (exists b1 b2 : World I,
                  set_up_q_values P a1 = (Raise ValueError, b1) /\
                  set_up_q_values P a2 = (Raise ValueError, b2)) \/
               (exists (q : ndarray) (b1 b2 : World I),
                  set_up_q_values P a1 = (Ok q, b1) /\
                  set_up_q_values P a2 = (Ok q, b2) /\
                  gym_env b1 = gym_env b2 /\ np_rng b1 = np_rng b2)).
  { unfold set_up_q_values.
    destruct (q_values0 P) as [q|].
    - unfold array_equal.
      destruct (decide (removelast (shape q) = buckets P)); simpl.
      + right. destruct (start_episode0 P);
          eexists _, _, _; (split; [reflexivity|]); (split; [reflexivity|]);
          split; assumption.
      + left. eexists _, _. split; reflexivity.
    - destruct (start_episode0 P).
      + left. eexists _, _. split; reflexivity.
      + unfold bind, gets. rewrite Hsame.
        destruct (zero_size _).
        * left. eexists _, _. split; reflexivity.
        * right. eexists _, _, _.
          (split; [reflexivity|]); (split; [reflexivity|]);
            split; assumption. }
  destruct Hq as [(b1 & b2 & H1 & H2) | (q & b1 & b2 & H1 & H2 & He & Hr)].
  - left. rewrite (@bind_raise _ _ _ _ _ _ _ _ H1).
    rewrite (@bind_raise _ _ _ _ _ _ _ _ H2).
    eexists _, _. split; reflexivity.
  - right. rewrite (@bind_run _ _ _ _ _ _ _ _ H1).
    rewrite (@bind_run _ _ _ _ _ _ _ _ H2).
    unfold bind, read_datetime_now, gets, modify, ret.
    destruct (datetime_now I (clock b1)) as [x1 c1];
      destruct (datetime_now I (clock b2)) as [x2 c2]; simpl.
    rewrite He.
    eexists _, _, _, _, _, _, _.
    split; [reflexivity|]. split; [reflexivity|].
    split; [unfold stats_agree; simpl; repeat split; reflexivity|].
    split; [exact Hr | reflexivity].
Qed.

(** C3, as amended. Two runs of [learn] with the same arguments, hence the
    same seed and schedule functions, on an environment that starts in the
    same state end in the same way: with the same error, or both without
    result, or with the same Value Table and with Statistics that are equal
    in every entry except [start_time] and [time_elapsed], whatever the
    clock reads in either run. *)
Theorem runs_agree_up_to_clock (fuel : nat) (w1 w2 : World I) :
  gym_env w1 = gym_env w2 ->
  outcome_agree (fst (learn P fuel w1)) (fst (learn P fuel w2)).
Proof.
  intros Henv. unfold learn.
  destruct (set_up_agree w1 w2 Henv)
    as [(w1' & w2' & -> & ->)
       | (start1 & start2 & q & st1 & st2 & w1' & w2' & -> & -> & Hst
          & Hr & He)].
  - simpl. repeat split; reflexivity.
  - assert (Hsim0 : sim {| world := w1'; q_values := q; stats := st1 |}
                        {| world := w2'; q_values := q; stats := st2 |})
      by (sim_split; first [assumption | reflexivity]).
    destruct (main_loop_related fuel start1 start2 Hsim0) as [Hres Hsim].
    destruct (main_loop P fuel start1 _) as [[[q1 r1]|e1|] s1],
             (main_loop P fuel start2 _) as [[[q2 r2]|e2|] s2];
      simpl in *; try contradiction.
    + exact Hres.
    + destruct Hsim as (_ & _ & Hq & Hs).
      split; [exact Hres|]. split; [f_equal; exact Hq | exact Hs].
    + exact Logic.I.
Qed.

End Determinism.

(** ** Instances *)

Lemma select_action_draws_once_witness :
  select_action (Toy.table (1#2) (1#2) 0 1) [0%nat] TheEnv 0
    (Toy.st0 (Toy.table (1#2) (1#2) 0 1) 5)
  = (Ok 0%nat,
     on_world (with_rng (1%nat : Rng Toy.I))
       (Toy.st0 (Toy.table (1#2) (1#2) 0 1) 5)).
Proof.
  apply (proj2 (select_action_draws_once
                  (Toy.table (1#2) (1#2) 0 1) [0%nat] TheEnv 0
                  (Toy.st0 (Toy.table (1#2) (1#2) 0 1) 5))).
  vm_compute. discriminate.
Defined.



Lemma runs_agree_up_to_clock_witness :
  outcome_agree (fst (learn Toy.params 10 (Toy.world_at 0 100)))
                (fst (learn Toy.params 10 (Toy.world_at 7 100))).
Proof.
  apply (runs_agree_up_to_clock Toy.params 10
           (Toy.world_at 0 100) (Toy.world_at 7 100)).
  reflexivity.
Defined.


Lemma configuration_errors_fail_fast_witness :
  (exists w' : World Toy.I,
     learn Toy.orphan_start_params 10 (Toy.world_at 0 100)
       = (Raised ValueError None None, w') /\
     gym_env w' = gym_env (Toy.world_at 0 100) /\
     learn_transitions Toy.orphan_start_params 10 (Toy.world_at 0 100) = []) /\
  (exists w' : World Toy.I,
     learn Toy.misshapen_params 10 (Toy.world_at 0 100)
       = (Raised ValueError (Some (zeros [3; 2]%nat)) None, w') /\
     gym_env w' = gym_env (Toy.world_at 0 100) /\
     learn_transitions Toy.misshapen_params 10 (Toy.world_at 0 100) = []).
Proof.
  split.
  - apply (configuration_errors_fail_fast Toy.orphan_start_params 10
             (Toy.world_at 0 100)).
    left. split; [reflexivity | discriminate].
  - apply (configuration_errors_fail_fast Toy.misshapen_params 10
             (Toy.world_at 0 100)).
    right. exists (zeros [3; 2]%nat). split; [reflexivity | discriminate].
Defined.

(** A warm start on which the updates of (0, 1) and (1, 0) interleave: four
    of the first and two of the second, and these are the counts. *)
Lemma visit_count_is_number_of_updates_witness :
  exists (q : ndarray) (st : Stats Toy.I) (w' : World Toy.I),
    learn Toy.warm_params 10 (Toy.world_at 0 100) = (Returned q st, w') /\
    map tr_index (learn_transitions Toy.warm_params 10 (Toy.world_at 0 100))
      = [[0; 1]; [1; 0]; [0; 1]; [0; 1]; [1; 0]; [0; 1]]%nat /\
    (item (stats_state_action_visits st) [0; 1]%nat
     == of_nat (updates_to [0; 1]%nat
                  (learn_transitions Toy.warm_params 10
                     (Toy.world_at 0 100))))%Q /\
    (item (stats_state_action_visits st) [1; 0]%nat
     == of_nat (updates_to [1; 0]%nat
                  (learn_transitions Toy.warm_params 10
                     (Toy.world_at 0 100))))%Q.
Proof.
  eexists _, _, _. split; [vm_compute; reflexivity|].
  split; [vm_compute; reflexivity|].
  split;
    apply (proj2 (proj2 (visit_count_is_number_of_updates Toy.warm_params))
             10 (Toy.world_at 0 100) _ _ _ _ ltac:(vm_compute; reflexivity)).
Defined.

(** A table with three entries per state is accepted for an environment
    with two actions, and the run returns a table of that shape. *)
Lemma warm_start_validates_leading_shape_only_witness :
  List.last (shape Toy.wide_table) 0%nat
    <> action_space_n Toy.I (gym_env (Toy.world_at 0 100)) /\
  (exists (q' : ndarray) (st' : Stats Toy.I) (w' : World Toy.I),
     learn Toy.wide_params 10 (Toy.world_at 0 100) = (Returned q' st', w') /\
     shape q' = [2; 3]%nat) /\
  (exists (start : Q) (st : Stats Toy.I) (w1 : World Toy.I),
     set_up Toy.wide_params (Toy.world_at 0 100)
       = (Ok (start, Toy.wide_table, st), w1) /\
     stats_state_action_visits st = zeros (shape Toy.wide_table) /\
     gym_env w1 = gym_env (Toy.world_at 0 100)) /\
  (forall (e : exn) (table : option ndarray),
     fst (learn Toy.wide_params 10 (Toy.world_at 0 100))
     <> Raised e table None).
Proof.
  split; [discriminate|].
  split; [eexists _, _, _; split; vm_compute; reflexivity|].
  apply (warm_start_validates_leading_shape_only Toy.wide_params 10
           (Toy.world_at 0 100) (q := Toy.wide_table));
    reflexivity.
Defined.

(** ** Where the code departs from the specification *)

(** C1. With an exploration rate of 1 every draw is below [epsilon], and
    epsilon-greedy selection would take each action from the sampler of the
    environment, which proposes action 1.  In [learn] the six steps of the
    run all take action 0, the [argmax], and the sampler is never called:
    the rate is bound to the parameter [env] of [select_action], whose own
    [epsilon] stays 0. *)
Theorem learn_never_explores :
  get_epsilon Toy.params 0 1 = 1%Q /\
  Forall (fun g => Qltb (fst (np_random_random Toy.I g)) 1 = true)
    [0; 1; 2; 3; 4; 5]%nat /\
  map tr_action (learn_transitions Toy.params 10 (Toy.world_at 0 100))
    = [0; 0; 0; 0; 0; 0]%nat /\
  Toy.sampled (gym_env (snd (learn Toy.params 10 (Toy.world_at 0 100))))
    = 0%nat /\
  np_rng (snd (learn Toy.params 10 (Toy.world_at 0 100))) = 6%nat /\
  fst (action_space_sample Toy.I (gym_env (Toy.world_at 0 100))) = 1%nat.
Proof.
  split; [reflexivity|]. split; [repeat constructor|].
  vm_compute. repeat split; reflexivity.
Qed.

(** C2. With [fictitious_terminal_val = 0] and the safety backup, the
    terminal target for reward 1 and gamma 1/2 is the reward, 1, and not
    [(1-gamma)*reward + gamma*min(reward, 0) = 1/2]: the test
    [if fictitious_terminal_val:] takes 0 for "not set".  A terminal step
    from a table of zeros with learning rate 1/2 therefore writes 1/2 and
    not 1/4. *)
Theorem zero_fictitious_terminal_val_is_ignored :
  (backup_terminal Toy.zero_terminal_params 1 (1 # 2) == 1)%Q /\
  ~ (backup_terminal Toy.zero_terminal_params 1 (1 # 2)
     == (1 - (1 # 2)) * 1 + (1 # 2) * py_min 1 0)%Q /\
  exists (l' : Locals) (tr : Transition) (s' : St Toy.I),
    loop_body Toy.zero_terminal_params 0 Toy.l0
      (Toy.st0 (Toy.table 0 0 0 0) 1) = (Ok (l', tr), s') /\
    tr_done tr = true /\
    (tr_new_q tr == 1)%Q /\
    (item (q_values s') [0; 0]%nat == 1 # 2)%Q.
Proof.
  split; [reflexivity|]. split; [discriminate|].
  eexists _, _, _. split; [vm_compute; reflexivity|].
  repeat split; reflexivity.
Qed.

(** C3, as stated, fails: two runs with the same seed, the same schedule
    functions and the same deterministic environment, started at different
    times, return Statistics that differ in [start_time] and in
    [time_elapsed]. *)
Lemma statistics_depend_on_clock :
  exists (q1 q2 : ndarray) (st1 st2 : Stats Toy.I) (w1 w2 : World Toy.I),
    learn Toy.params 10 (Toy.world_at 0 100) = (Returned q1 st1, w1) /\
    learn Toy.params 10 (Toy.world_at 7 100) = (Returned q2 st2, w2) /\
    stats_start_time st1 <> stats_start_time st2 /\
    stats_time_elapsed st1 <> stats_time_elapsed st2 /\
    st1 <> st2.
Proof.
  eexists _, _, _, _, _, _. split; [vm_compute; reflexivity|].
  split; [vm_compute; reflexivity|].
  split; [discriminate|]. split; [discriminate|].
  intros E. apply (f_equal (@stats_start_time Toy.I)) in E. discriminate E.
Qed.

(** * Further properties *)

(** ** The greedy player *)

Section PlayProperties.

Variable I : Interfaces.
Variable R : Rendering I.
Variable PP : PlayParams I.

Lemma select_action_frame (q : ndarray) (state : list nat) (env : EnvArg)
    (epsilon : Q) (s : St I) :
  q_values (snd (select_action q state env epsilon s)) = q_values s /\
  stats (snd (select_action q state env epsilon s)) = stats s.
Proof.
  unfold select_action, bind, random.
  destruct (np_random_random I (np_rng (world s))) as [u g].
  destruct (Qltb u epsilon); [destruct env|]; simpl.
  - unfold sample. simpl. destruct (action_space_sample I _). split; reflexivity.
  - split; reflexivity.
  - split; reflexivity.
Qed.

(** Whatever way the loop of an episode ends, it has shown some number [k]
    of frames and nothing else, the table and the statistics are as they
    were, a returned [t] has grown by [k], and under a positive
    [episode_length] that was not exceeded [t + k] does not exceed it. *)
Lemma play_while_frame (fuel : nat) :
  forall (obv : Obs I) (t : nat) (done : bool) (p : PlaySt I)
         (res : Res nat * PlaySt I),
    play_while R PP fuel obv t done p = res ->
    exists k : nat,
      shown (snd res) = shown p ++ repeat Rendered k /\
      q_values (play_st (snd res)) = q_values (play_st p) /\
      stats (play_st (snd res)) = stats (play_st p) /\
      (forall t', fst res = Ok t' -> t' = (t + k)%nat) /\
      (forall m, episode_length PP = Some m -> (0 < m)%nat -> (t <= m)%nat ->
                 (t + k <= m)%nat).
Proof.
  assert (Hstop : forall (t : nat) (p : PlaySt I) (r : Res nat),
            (forall t', r = Ok t' -> t' = t) ->
            exists k : nat,
              shown p = shown p ++ repeat Rendered k /\
              q_values (play_st p) = q_values (play_st p) /\
              stats (play_st p) = stats (play_st p) /\
              (forall t', r = Ok t' -> t' = (t + k)%nat) /\
              (forall m, episode_length PP = Some m -> (0 < m)%nat ->
                         (t <= m)%nat -> (t + k <= m)%nat)).
  { intros t p r Hr. exists 0%nat. simpl. rewrite app_nil_r.
    repeat split; trivial.
    - intros t' H. rewrite (Hr t' H). lia.
    - intros; lia. }
  induction fuel as [|fuel IH]; intros obv t done p res Hres; simpl in Hres.
  - destruct done; [|destruct (cap_reached PP t)]; subst res; simpl;
      apply Hstop; intros t' H; try discriminate; injection H as <-;
      reflexivity.
  - destruct done;
      [subst res; simpl; apply Hstop; intros t' H; injection H as <-;
       reflexivity|].
    destruct (cap_reached PP t) eqn:Hcap;
      [subst res; simpl; apply Hstop; intros t' H; injection H as <-;
       reflexivity|].
    destruct p as [s sh].
    unfold bind at 1 in Hres. unfold on_st at 1, gets at 1 in Hres.
    cbn [play_st shown] in Hres.
    unfold bind at 1 in Hres. unfold on_st at 1, gets at 1 in Hres.
    cbn [play_st shown] in Hres.
    unfold bind at 1 in Hres. unfold on_st at 1 in Hres.
    cbn [play_st shown] in Hres.
    match type of Hres with context [select_action ?q ?st ?e ?eps s] =>
      destruct (select_action_frame q st e eps s) as [Hq1 Hst1];
      destruct (select_action q st e eps s) as [[action|e1|] s1]
    end; simpl in Hq1, Hst1;
      try (subst res; exists 0%nat; cbn [fst snd play_st shown repeat];
           rewrite app_nil_r;
           split; [reflexivity|]; split; [exact Hq1|]; split; [exact Hst1|];
           split; [discriminate | intros; lia]).
    unfold bind at 1 in Hres. unfold on_st at 1, step in Hres.
    cbn [play_st shown] in Hres.
    destruct (env_step I (gym_env (world s1)) action) as [[[obv' rw] dn] e].
    cbv iota beta in Hres.
    unfold bind at 1 in Hres.
    unfold render, bind at 1, on_st at 1, modify at 1 in Hres.
    cbn [play_st shown] in Hres. unfold show, modify at 1 in Hres.
    cbn [play_st shown] in Hres.
    destruct (IH _ _ _ _ _ Hres) as (k & Hsh & Hq & Hst & Ht & Hm).
    cbn [play_st shown on_world q_values stats] in *.
    exists (S k). split; [|split; [|split; [|split]]].
    + rewrite Hsh, <- app_assoc. reflexivity.
    + rewrite Hq. exact Hq1.
    + rewrite Hst. exact Hst1.
    + intros t' H. rewrite (Ht t' H). lia.
    + intros m Hlen Hpos Hle.
      assert (t < m)%nat.
      { unfold cap_reached in Hcap. rewrite Hlen in Hcap.
        destruct (m =? 0) eqn:E0; [apply Nat.eqb_eq in E0; lia|].
        simpl in Hcap. apply Nat.leb_gt in Hcap. exact Hcap. }
      specialize (Hm m Hlen Hpos). lia.
Qed.

Lemma episode_show_not_closed (i t : nat) : ~ In Closed (episode_show PP i t).
Proof.
  unfold episode_show. rewrite in_app_iff. intros [H|H].
  - apply repeat_spec in H. discriminate.
  - destruct (negb (play_suppress_print PP)); simpl in H;
      [destruct H as [H|[]]; discriminate | exact H].
Qed.

Lemma episodes_show_not_closed (ts : list nat) :
  forall first : nat, ~ In Closed (episodes_show PP first ts).
Proof.
  induction ts as [|t ts IH]; intros first; simpl; [tauto|].
  rewrite in_app_iff. intros [H|H].
  - exact (episode_show_not_closed _ _ H).
  - exact (IH _ H).
Qed.

Lemma repeat_not_closed (k : nat) : ~ In Closed (repeat Rendered k).
Proof. intros H. apply repeat_spec in H. discriminate. Qed.

(** One episode: however it ends the table and the statistics are as they
    were and the window has not been closed; when it completes it has shown
    what [episode_show] says for some number of steps within the length. *)
Lemma play_episode_frame (fuel i : nat) (p : PlaySt I)
    (res : Res unit * PlaySt I) :
  play_episode R PP fuel i p = res ->
  q_values (play_st (snd res)) = q_values (play_st p) /\
  stats (play_st (snd res)) = stats (play_st p) /\
  exists evs : list PlayEvent,
    shown (snd res) = shown p ++ evs /\
    ~ In Closed evs /\
    (forall u, fst res = Ok u ->
       exists t : nat,
         evs = episode_show PP i t /\
         (forall m, episode_length PP = Some m -> (0 < m)%nat ->
                    (t <= m)%nat)).
Proof.
  unfold play_episode. intros Hres. destruct p as [s sh].
  unfold bind at 1 in Hres. unfold on_st at 1, reset in Hres.
  cbn [play_st shown] in Hres.
  destruct (env_reset I (gym_env (world s))) as [obv e].
  unfold bind in Hres.
  match type of Hres with context [play_while R PP fuel obv 0 false ?p'] =>
    destruct (play_while R PP fuel obv 0 false p') as [r p1] eqn:Hw
  end.
  destruct (play_while_frame _ _ _ _ _ Hw) as (k & Hsh & Hq & Hst & Ht & Hm).
  cbn [fst snd play_st shown on_world q_values stats] in *.
  destruct r as [t|e1|].
  - specialize (Ht t eq_refl). simpl in Ht. subst t.
    destruct (negb (play_suppress_print PP)) eqn:Hp.
    + unfold show, modify in Hres. subst res. cbn [fst snd play_st shown].
      split; [exact Hq|]. split; [exact Hst|].
      exists (episode_show PP i k). unfold episode_show at 1. rewrite Hp, Hsh.
      split; [rewrite <- app_assoc; reflexivity|].
      split; [apply episode_show_not_closed|].
      intros _ _. exists k. split; [reflexivity|].
      intros m Hlen Hpos. specialize (Hm m Hlen Hpos). lia.
    + unfold ret in Hres. subst res. cbn [fst snd play_st shown].
      split; [exact Hq|]. split; [exact Hst|].
      exists (episode_show PP i k). unfold episode_show at 1. rewrite Hp, Hsh.
      split; [rewrite app_nil_r; reflexivity|].
      split; [apply episode_show_not_closed|].
      intros _ _. exists k. split; [reflexivity|].
      intros m Hlen Hpos. specialize (Hm m Hlen Hpos). lia.
  - subst res. cbn [fst snd play_st shown].
    split; [exact Hq|]. split; [exact Hst|].
    exists (repeat Rendered k). split; [exact Hsh|].
    split; [apply repeat_not_closed | discriminate].
  - subst res. cbn [fst snd play_st shown].
    split; [exact Hq|]. split; [exact Hst|].
    exists (repeat Rendered k). split; [exact Hsh|].
    split; [apply repeat_not_closed | discriminate].
Qed.

Lemma play_for_frame (fuel n : nat) :
  forall (first : nat) (p : PlaySt I) (res : Res unit * PlaySt I),
    play_for R PP fuel (seq first n) p = res ->
    q_values (play_st (snd res)) = q_values (play_st p) /\
    stats (play_st (snd res)) = stats (play_st p) /\
    exists evs : list PlayEvent,
      shown (snd res) = shown p ++ evs /\
      ~ In Closed evs /\
      (forall u, fst res = Ok u ->
         exists ts : list nat,
           length ts = n /\
           evs = episodes_show PP first ts /\
           (forall m, episode_length PP = Some m -> (0 < m)%nat ->
                      Forall (fun t => (t <= m)%nat) ts)).
Proof.
  induction n as [|n IH]; intros first p res Hres; simpl in Hres.
  - unfold ret in Hres. subst res. simpl.
    split; [reflexivity|]. split; [reflexivity|].
    exists []. rewrite app_nil_r. split; [reflexivity|].
    split; [tauto|]. intros _ _. exists []. repeat split. constructor.
  - unfold bind in Hres.
    destruct (play_episode R PP fuel first p) as [r p1] eqn:Hep.
    destruct (play_episode_frame _ _ _ Hep)
      as (Hq1 & Hst1 & evs1 & Hsh1 & Hnc1 & Hok1).
    cbn [fst snd] in *.
    destruct r as [u|e1|].
    + destruct (IH _ _ _ Hres) as (Hq & Hst & evs & Hsh & Hnc & Hok).
      split; [rewrite Hq; exact Hq1|]. split; [rewrite Hst; exact Hst1|].
      exists (evs1 ++ evs). rewrite Hsh, Hsh1, app_assoc.
      split; [reflexivity|].
      split; [rewrite in_app_iff; tauto|].
      intros u' Hu'. destruct (Hok u' Hu') as (ts & Hlen & Hevs & Hb).
      destruct (Hok1 u eq_refl) as (t & Ht & Hbt).
      exists (t :: ts). simpl. rewrite Hlen, Ht, Hevs.
      split; [reflexivity|]. split; [reflexivity|].
      intros m Hm Hpos. constructor; [apply (Hbt m Hm Hpos)|].
      apply (Hb m Hm Hpos).
    + subst res. cbn [fst snd].
      split; [exact Hq1|]. split; [exact Hst1|].
      exists evs1. split; [exact Hsh1|]. split; [exact Hnc1 | discriminate].
    + subst res. cbn [fst snd].
      split; [exact Hq1|]. split; [exact Hst1|].
      exists evs1. split; [exact Hsh1|]. split; [exact Hnc1 | discriminate].
Qed.

(** X1. [play] is purely observational: however a call ends (it returns, an
    access to the table raises, or an episode does not end), the table and
    the statistics, visit counts included, are what they were. *)
Theorem play_leaves_table_and_statistics (fuel : nat) (p : PlaySt I) :
  q_values (play_st (snd (play R PP fuel p))) = q_values (play_st p) /\
  stats (play_st (snd (play R PP fuel p))) = stats (play_st p).
Proof.
  unfold play, bind.
  destruct (play_for R PP fuel (seq 0 (num_episodes PP)) p) as [r p1] eqn:Hfor.
  destruct (play_for_frame _ _ _ _ Hfor) as (Hq & Hst & _).
  cbn [fst snd] in *.
  destruct r as [u|e|]; [|split; assumption|split; assumption].
  unfold close, bind, on_st, modify, show. simpl.
  split; assumption.
Qed.

(** X2. A call of [play] that returns has played [num_episodes] episodes in
    order; each rendered one frame per step and then, unless printing is
    suppressed, reported its number of steps, which does not exceed a
    positive [episode_length]; the environment was closed once, at the very
    end. *)
Theorem play_shows_episodes_then_closes (fuel : nat) (p p' : PlaySt I)
    (u : unit) :
  play R PP fuel p = (Ok u, p') ->
  exists ts : list nat,
    length ts = num_episodes PP /\
    shown p' = shown p ++ episodes_show PP 0 ts ++ [Closed] /\
    ~ In Closed (episodes_show PP 0 ts) /\
    (forall m, episode_length PP = Some m -> (0 < m)%nat ->
               Forall (fun t => (t <= m)%nat) ts).
Proof.
  unfold play, bind. intros H.
  destruct (play_for R PP fuel (seq 0 (num_episodes PP)) p) as [r p1] eqn:Hfor.
  destruct (play_for_frame _ _ _ _ Hfor) as (_ & _ & evs & Hsh & _ & Hok).
  cbn [fst snd] in *.
  destruct r as [u1|e|]; [|discriminate|discriminate].
  destruct (Hok u1 eq_refl) as (ts & Hlen & -> & Hb).
  unfold close, bind, on_st, modify, show in H. simpl in H.
  injection H as H. subst p'. simpl.
  exists ts. split; [exact Hlen|].
  split; [rewrite Hsh, <- app_assoc; reflexivity|].
  split; [apply episodes_show_not_closed | exact Hb].
Qed.

(** X3. When an access to the table raises during [play], the exception
    propagates and [env.close()] is not reached: nothing that was shown is
    the closing of the window. *)
Theorem play_does_not_close_on_error (fuel : nat) (p p' : PlaySt I)
    (e : exn) :
  play R PP fuel p = (Raise e, p') ->
  exists evs : list PlayEvent,
    shown p' = shown p ++ evs /\ ~ In Closed evs.
Proof.
  unfold play, bind. intros H.
  destruct (play_for R PP fuel (seq 0 (num_episodes PP)) p) as [r p1] eqn:Hfor.
  destruct (play_for_frame _ _ _ _ Hfor) as (_ & _ & evs & Hsh & Hnc & _).
  cbn [fst snd] in *.
  destruct r as [u1|e1|]; [|injection H as _ <-|discriminate].
  - unfold close, bind, on_st, modify, show in H. simpl in H. discriminate.
  - exists evs. split; assumption.
Qed.

End PlayProperties.

Section PlayLength.

Variable I : Interfaces.
Variable R : Rendering I.

Lemma bind_ext {T A B : Type} (c : M T A) (k1 k2 : A -> M T B) (p : T) :
  (forall a p', k1 a p' = k2 a p') -> bind c k1 p = bind c k2 p.
Proof.
  intros H. unfold bind. destruct (c p) as [[a|e|] p']; [apply H| |];
    reflexivity.
Qed.

Lemma play_while_zero_length (n : nat) (b : list nat) (sb : Bounds I)
    (sp : bool) (fuel : nat) :
  forall (obv : Obs I) (t : nat) (done : bool) (p : PlaySt I),
    play_while R (@mk_PlayParams I n b sb sp (Some 0%nat)) fuel obv t done p
    = play_while R (@mk_PlayParams I n b sb sp None) fuel obv t done p.
Proof.
  induction fuel as [|fuel IH]; intros obv t done p; simpl; [reflexivity|].
  destruct done; [reflexivity|].
  unfold cap_reached. simpl.
  apply bind_ext; intros bins p1. apply bind_ext; intros q p2.
  apply bind_ext; intros a p3. apply bind_ext; intros [[o r] d] p4.
  apply bind_ext; intros u p5. apply IH.
Qed.

(** X4. An [episode_length] of 0 does not give episodes of no step: the test
    [if episode_length and ...] takes 0 for "no limit", and [play] behaves
    exactly as with [episode_length=None]. *)
Theorem play_zero_length_is_no_limit (n : nat) (b : list nat)
    (sb : Bounds I) (sp : bool) (fuel : nat) (p : PlaySt I) :
  play R (@mk_PlayParams I n b sb sp (Some 0%nat)) fuel p
  = play R (@mk_PlayParams I n b sb sp None) fuel p.
Proof.
  unfold play. cbn [num_episodes].
  assert (Hfor : forall (l : list nat) (p0 : PlaySt I),
            play_for R (@mk_PlayParams I n b sb sp (Some 0%nat)) fuel l p0
            = play_for R (@mk_PlayParams I n b sb sp None) fuel l p0).
  { induction l as [|i l IHl]; intros p0; simpl; [reflexivity|].
    assert (Hep : play_episode R (@mk_PlayParams I n b sb sp (Some 0%nat))
                    fuel i p0
                  = play_episode R (@mk_PlayParams I n b sb sp None)
                      fuel i p0).
    { unfold play_episode. cbn [play_suppress_print].
      apply bind_ext; intros obv p1. unfold bind.
      rewrite play_while_zero_length. reflexivity. }
    unfold bind. rewrite Hep.
    destruct (play_episode _ _ _ _ p0) as [[u|e|] p1]; [apply IHl| |];
      reflexivity. }
  unfold bind. rewrite Hfor. reflexivity.
Qed.

Variable PP : PlayParams I.

Lemma play_while_never_times_out (m fuel : nat) :
  episode_length PP = Some m ->
  (0 < m)%nat ->
  forall (obv : Obs I) (t : nat) (done : bool),
    (m <= t + fuel)%nat ->
    never_times_out (play_while R PP fuel obv t done).
Proof.
  intros Hm Hpos.
  assert (Hcap : forall t, cap_reached PP t = (m <=? t)).
  { intros t. unfold cap_reached. rewrite Hm.
    destruct (m =? 0) eqn:E; [apply Nat.eqb_eq in E; lia | reflexivity]. }
  induction fuel as [|fuel IH]; intros obv t done Hfuel p; simpl.
  - destruct done; [discriminate|]. rewrite Hcap.
    destruct (m <=? t) eqn:E; [discriminate|].
    apply Nat.leb_gt in E. lia.
  - destruct done; [discriminate|]. rewrite Hcap.
    destruct (m <=? t) eqn:E; [discriminate|]. apply Nat.leb_gt in E.
    destruct p as [s sh].
    unfold bind at 1. unfold on_st at 1, gets at 1. cbn [play_st shown].
    unfold bind at 1. unfold on_st at 1, gets at 1. cbn [play_st shown].
    unfold bind at 1. unfold on_st at 1. cbn [play_st shown].
    match goal with |- context [select_action ?q ?st ?e ?eps s] =>
      pose proof (select_action_never_times_out q st e eps s) as Hsel;
      destruct (select_action q st e eps s) as [[action|e1|] s1]
    end; simpl in Hsel; [|discriminate|congruence].
    unfold bind at 1. unfold on_st at 1, step. cbn [play_st shown].
    destruct (env_step I (gym_env (world s1)) action) as [[[obv' rw] dn] e].
    cbv iota beta. unfold bind at 1.
    unfold render, bind at 1, on_st at 1, modify at 1.
    cbn [play_st shown]. unfold show, modify at 1.
    apply IH. lia.
Qed.

(** X5. With a positive [episode_length] and that much fuel, [play] returns or
    raises: no episode takes more steps than the length. *)
Theorem play_ends_within_length (m fuel : nat) (p : PlaySt I) :
  episode_length PP = Some m ->
  (0 < m)%nat -> (m <= fuel)%nat ->
  fst (play R PP fuel p) <> Timeout.
Proof.
  intros Hm Hpos Hfuel. revert p.
  change (never_times_out (play R PP fuel)).
  unfold play. apply bind_never_times_out.
  - generalize (seq 0 (num_episodes PP)).
    induction l as [|i l IHl]; simpl; [discriminate|].
    apply bind_never_times_out; [|intros _; exact IHl].
    unfold play_episode. apply bind_never_times_out.
    { intros [s sh]. unfold on_st, reset. simpl.
      destruct (env_reset I _). discriminate. }
    intros obv. apply bind_never_times_out.
    { apply play_while_never_times_out with (m := m); trivial. }
    intros t. destruct (negb (play_suppress_print PP)); discriminate.
  - intros _ [s sh]. discriminate.
Qed.

End PlayLength.

Lemma play_shows_episodes_then_closes_witness :
  exists ts : list nat,
    length ts = num_episodes (ToyPlay.params (Some 4%nat)) /\
    shown (snd (play ToyPlay.R (ToyPlay.params (Some 4%nat)) 10
                  (ToyPlay.start (Toy.table 0 0 0 0) 3)))
    = shown (ToyPlay.start (Toy.table 0 0 0 0) 3)
      ++ episodes_show (ToyPlay.params (Some 4%nat)) 0 ts ++ [Closed] /\
    ~ In Closed (episodes_show (ToyPlay.params (Some 4%nat)) 0 ts) /\
    (forall m, episode_length (ToyPlay.params (Some 4%nat)) = Some m ->
               (0 < m)%nat -> Forall (fun t => (t <= m)%nat) ts).
Proof.
  apply play_shows_episodes_then_closes
    with (R := ToyPlay.R) (fuel := 10%nat) (u := tt).
  vm_compute. reflexivity.
Defined.

(** The first step leads out of the table; the second raises. *)
Lemma play_does_not_close_on_error_witness :
  fst (play ToyPlay.R (ToyPlay.params (Some 4%nat)) 10
         (ToyPlay.start ToyPlay.narrow_table 3)) = Raise IndexError /\
  exists evs : list PlayEvent,
    shown (snd (play ToyPlay.R (ToyPlay.params (Some 4%nat)) 10
                  (ToyPlay.start ToyPlay.narrow_table 3)))
    = shown (ToyPlay.start ToyPlay.narrow_table 3) ++ evs /\
    ~ In Closed evs.
Proof.
  split; [vm_compute; reflexivity|].
  apply play_does_not_close_on_error
    with (R := ToyPlay.R) (PP := ToyPlay.params (Some 4%nat))
         (fuel := 10%nat) (e := IndexError).
  vm_compute. reflexivity.
Defined.

Lemma play_ends_within_length_witness :
  fst (play ToyPlay.R (ToyPlay.params (Some 4%nat)) 4
         (ToyPlay.start (Toy.table 0 0 0 0) 100)) <> Timeout.
Proof.
  apply play_ends_within_length with (m := 4%nat);
    [reflexivity | lia | lia].
Defined.

(** ** What a run of [learn] writes *)

Section Console.

Variable I : Interfaces.
Variable P : Params I.

Lemma steps_world (episode : nat) (l l' : Locals) (s s' : St I)
    (trs : list Transition) :
  steps P episode l s trs l' s' ->
  out (world s') = out (world s) /\ clock (world s') = clock (world s).
Proof.
  induction 1 as [|l l1 l2 s s1 s2 tr trs Hd Hb Hs IH]; [split; reflexivity|].
  destruct (loop_body_Ok _ _ _ _ Hb)
    as (_ & _ & _ & _ & _ & _ & _ & _ & _ & _ & _ & _ & _ & _ & _ & _
        & _ & _ & _ & _ & Hc & Ho & _).
  destruct IH as [IH1 IH2]. split; congruence.
Qed.

Lemma begin_episode_out (episode : nat) (epsilon0 alpha0 gamma0 : Q)
    (l0 : Locals) (s s0 : St I) :
  begin_episode P episode epsilon0 alpha0 gamma0 s = (Ok l0, s0) ->
  exists evs : list (Event I),
    out (world s0) = out (world s) ++ evs /\
    map (@kind_of I) evs
    = if negb (suppress_print P) && ((episode + 1) mod 100 =? 0)
      then [KPrintEpisode (episode + 1)] else [].
Proof.
  unfold begin_episode. intros H.
  destruct (negb (suppress_print P) && ((episode + 1) mod 100 =? 0)).
  - step_M H as u s1 Hp.
    step_M H as o s2 Hr.
    step_M H as bins s3 Hb.
    apply ret_Ok in H. destruct H as [_ ->].
    unfold reset in Hr.
    destruct (env_reset I (gym_env (world _))) as [o' e].
    injection Hr as _ <-. cbn [out world on_world with_env emit].
    eexists. split; reflexivity.
  - step_M H as u s1 Hp.
    step_M H as o s2 Hr.
    step_M H as bins s3 Hb.
    apply ret_Ok in H. destruct H as [_ ->].
    unfold reset in Hr.
    destruct (env_reset I (gym_env (world _))) as [o' e].
    injection Hr as _ <-. cbn [out world on_world with_env].
    exists []. rewrite app_nil_r. split; reflexivity.
Qed.

Lemma end_episode_out (episode : nat) (l : Locals) (s s' : St I) (u : unit) :
  end_episode P episode l s = (Ok u, s') ->
  exists evs : list (Event I),
    out (world s') = out (world s) ++ evs /\
    map (@kind_of I) evs = if save_due P episode then [KSave episode] else [].
Proof.
  unfold end_episode. intros H.
  step_M H as u1 s1 H1.
  step_M H as m s2 H2.
  step_M H as u2 s3 H3.
  destruct (save_due P episode).
  - apply modify_Ok in H. subst s'. simpl. eexists. split; reflexivity.
  - apply ret_Ok in H. destruct H as [_ ->]. simpl.
    exists []. rewrite app_nil_r. split; reflexivity.
Qed.

Lemma run_episode_out (fuel episode : nat) (epsilon0 alpha0 gamma0 : Q)
    (l : Locals) (s s' : St I) :
  run_episode P fuel episode epsilon0 alpha0 gamma0 s = (Ok l, s') ->
  exists evs : list (Event I),
    out (world s') = out (world s) ++ evs /\
    map (@kind_of I) evs = episode_schedule P episode.
Proof.
  intros H. unfold run_episode in H.
  step_M H as l0 s0 Hbeg.
  step_M H as l1 s1 Hw.
  step_M H as u s2 Hend.
  apply ret_Ok in H. destruct H as [-> ->].
  apply begin_episode_out in Hbeg. destruct Hbeg as (evs1 & Ho1 & Hk1).
  apply while_not_done_steps in Hw. destruct Hw as [Hs _].
  apply steps_world in Hs. destruct Hs as [Ho2 _].
  apply end_episode_out in Hend. destruct Hend as (evs3 & Ho3 & Hk3).
  exists (evs1 ++ evs3).
  rewrite Ho3, Ho2, Ho1, <- app_assoc, map_app, Hk1, Hk3.
  split; reflexivity.
Qed.

Lemma for_episodes_out (fuel : nat) (episodes : list nat) :
  forall (epsilon0 alpha0 gamma0 : Q) (s s' : St I) (u : unit),
    for_episodes P fuel episodes epsilon0 alpha0 gamma0 s = (Ok u, s') ->
    exists evs : list (Event I),
      out (world s') = out (world s) ++ evs /\
      map (@kind_of I) evs = flat_map (episode_schedule P) episodes.
Proof.
  induction episodes as [|episode rest IH]; intros e0 a0 g0 s s' u H;
    simpl in *.
  - apply ret_Ok in H. destruct H as [_ ->].
    exists []. rewrite app_nil_r. split; reflexivity.
  - apply bind_Ok in H. destruct H as (l & s1 & Hrun & H).
    apply run_episode_out in Hrun. destruct Hrun as (evs1 & Ho1 & Hk1).
    apply IH in H. destruct H as (evs2 & Ho2 & Hk2).
    exists (evs1 ++ evs2).
    rewrite Ho2, Ho1, <- app_assoc, map_app, Hk1, Hk2.
    split; reflexivity.
Qed.

(** The start of [set_up], with what it writes. *)
Lemma set_up_prefix_out (w : World I) :
  seed_in_range (seed P) = true ->
  exists w0 : World I,
    out w0 = out w ++ match max_episode_length P with
                      | None => [Warn I NoMaxEpisodeLength]
                      | Some _ => []
                      end /\
    set_up P w
    = (let! q := set_up_q_values P in
       let! start_time := @read_datetime_now I in
       let! env := gets (@gym_env I) in
       let st := initial_stats P start_time q env in
       modify (fun w =>
                 with_env
                   (set_discretization I (gym_env w) (buckets P)
                      (state_bounds P)) w) ;;
       ret (fst (process_time I (clock w)), q, st)) w0.
Proof.
  intros Hseed. unfold set_up, bind at 1 2 3 4, seed_generator.
  rewrite Hseed.
  unfold read_process_time at 1. unfold read_datetime_now at 1.
  destruct (process_time I (clock w)) as [x1 c1]. simpl.
  destruct (datetime_now I c1) as [x2 c2]. simpl.
  destruct (max_episode_length P); simpl; eexists;
    (split; [|reflexivity]); simpl; [rewrite app_nil_r|]; reflexivity.
Qed.

Lemma set_up_out (w w1 : World I) (start : Q) (q : ndarray) (st : Stats I) :
  set_up P w = (Ok (start, q, st), w1) ->
  exists evs : list (Event I),
    out w1 = out w ++ evs /\ map (@kind_of I) evs = warning_schedule P.
Proof.
  intros H. pose proof H as Hseed. apply set_up_seed in Hseed.
  destruct (set_up_prefix_out w Hseed) as (w0 & Ho & Hset).
  rewrite Hset in H. clear Hset.
  apply bind_Ok in H. destruct H as (q1 & w2 & Hq & H).
  unfold bind, read_datetime_now, gets, modify, ret in H.
  destruct (datetime_now I (clock w2)) as [x c]. simpl in H.
  injection H as _ _ _ <-. simpl.
  unfold warning_schedule.
  unfold set_up_q_values, array_equal in Hq.
  destruct (q_values0 P) as [q0|].
  - destruct (decide (removelast (shape q0) = buckets P)); simpl in Hq;
      [|discriminate].
    destruct (start_episode0 P).
    + apply ret_Ok in Hq. destruct Hq as [_ ->]. rewrite Ho.
      destruct (max_episode_length P); eexists;
        (split; [reflexivity|]); reflexivity.
    + step_M Hq as u s1 Hm. apply ret_Ok in Hq. destruct Hq as [_ ->].
      simpl. rewrite Ho.
      destruct (max_episode_length P); eexists;
        (split; [rewrite <- app_assoc; reflexivity|]); reflexivity.
  - destruct (start_episode0 P); [discriminate|].
    step_M Hq as env s1 He.
    destruct (zero_size _); [discriminate|].
    apply ret_Ok in Hq. destruct Hq as [_ ->]. rewrite Ho.
    destruct (max_episode_length P); eexists;
      (split; [reflexivity|]); simpl; rewrite ?app_nil_r; reflexivity.
Qed.

(** X6. What a run that returns has written, in order: the warnings about the
    arguments; for each episode, a progress line when [episode + 1] is a
    multiple of 100 and printing is not suppressed, then a snapshot handed
    to [save] when [save_freq] is set and not 0 and divides [episode], taken
    after the statistics of that episode were recorded; and a final newline,
    printed even when printing is suppressed.  Nothing is saved when the run
    ends. *)
Theorem learn_writes_its_schedule (fuel : nat) (w w' : World I)
    (q : ndarray) (st : Stats I) :
  learn P fuel w = (Returned q st, w') ->
  exists evs : list (Event I),
    out w' = out w ++ evs /\ map (@kind_of I) evs = run_schedule P.
Proof.
  unfold learn. intros H.
  destruct (set_up P w) as [[[[start q0] st0]|e|] w1] eqn:Hset;
    [|discriminate|discriminate].
  destruct (main_loop P fuel start _) as [[[q' st']|e|] s2] eqn:Hmain;
    [|discriminate|discriminate].
  injection H as _ _ <-.
  unfold main_loop in Hmain.
  step_M Hmain as u s1 Hfor.
  step_M Hmain as finish s3 Hfin.
  step_M Hmain as u1 s4 Hm1.
  step_M Hmain as u2 s5 Hm2.
  step_M Hmain as q1 s6 Hq.
  step_M Hmain as st1 s7 Hst.
  apply ret_Ok in Hmain. destruct Hmain as [_ ->].
  destruct (process_time I (clock (world s1))) as [x c].
  injection Hfin as _ <-.
  apply set_up_out in Hset. destruct Hset as (evs0 & Ho0 & Hk0).
  apply for_episodes_out in Hfor. destruct Hfor as (evs1 & Ho1 & Hk1).
  cbn [world] in Ho1.
  exists (evs0 ++ evs1 ++ [PrintNewline I]). simpl.
  rewrite Ho1, Ho0, <- !app_assoc. split; [reflexivity|].
  unfold run_schedule. rewrite !map_app, Hk0, Hk1. reflexivity.
Qed.

(** X7. When [learn] raises before the statistics exist (a seed that
    [np.random.seed] refuses, a [start_episode] without a table, a table of
    another leading shape, a fresh table without elements) the error is a
    [ValueError], and the only thing that may have been written is the
    warning about a missing [max_episode_length]: it is issued after the
    generator was seeded and before the table is examined. *)
Theorem configuration_error_after_length_warning (fuel : nat)
    (w w' : World I) (e : exn) (table : option ndarray) :
  learn P fuel w = (Raised e table None, w') ->
  e = ValueError /\
  out w' = out w ++ (if seed_in_range (seed P)
                     then match max_episode_length P with
                          | None => [Warn I NoMaxEpisodeLength]
                          | Some _ => []
                          end
                     else []).
Proof.
  unfold learn.
  destruct (seed_in_range (seed P)) eqn:Hseed.
  2:{ destruct (set_up_bad_seed P w Hseed) as (w0 & -> & _ & _ & Ho).
      intros H. injection H as <- _ <-. split; [reflexivity|].
      rewrite app_nil_r. exact Ho. }
  destruct (set_up_prefix_out w Hseed) as (w0 & Ho & ->).
  unfold bind at 1.
  destruct (set_up_q_values P w0) as [[q|e0|] w1] eqn:Hq.
  - unfold bind, read_datetime_now, gets, modify, ret. simpl.
    destruct (datetime_now I (clock w1)) as [x c]. simpl.
    destruct (main_loop P fuel _ _) as [[[q' st']|e1|] s];
      intros H; discriminate.
  - intros H. injection H as <- _ <-.
    unfold set_up_q_values in Hq.
    destruct (q_values0 P) as [q0|].
    + destruct (negb _);
        [injection Hq as <- <-; split; [reflexivity | exact Ho]|].
      destruct (start_episode0 P); discriminate.
    + destruct (start_episode0 P);
        [injection Hq as <- <-; split; [reflexivity | exact Ho]|].
      unfold bind, gets in Hq.
      destruct (zero_size _); [|discriminate].
      injection Hq as <- <-. split; [reflexivity | exact Ho].
  - discriminate.
Qed.

End Console.

(** ** The statistics of an episode *)

Section Episodes.

Variable I : Interfaces.
Variable P : Params I.

Lemma amin_from_lower (l : list Q) : forall m,
  (amin_from m l <= m)%Q /\ Forall (fun x => (amin_from m l <= x)%Q) l.
Proof.
  induction l as [|x l IH]; intros m; simpl.
  - split; [lra | constructor].
  - destruct (IH (if Qltb x m then x else m)) as [Hm Hl].
    destruct (Qltb x m) eqn:E.
    + apply Qltb_true in E. repeat split; try constructor; trivial; lra.
    + apply Qltb_false in E. repeat split; try constructor; trivial; lra.
Qed.

Lemma amin_from_attained (l : list Q) : forall m,
  amin_from m l = m \/ In (amin_from m l) l.
Proof.
  induction l as [|x l IH]; intros m; simpl; [now left|].
  destruct (IH (if Qltb x m then x else m)) as [H|H]; [|now right; right].
  rewrite H. destruct (Qltb x m); [right; now left | now left].
Qed.

Lemma amin_spec (l : list Q) (v : Q) :
  amin l = Ok v -> In v l /\ Forall (fun x => (v <= x)%Q) l.
Proof.
  destruct l as [|x l]; simpl; [discriminate|].
  intros H; injection H as <-.
  destruct (amin_from_lower l x) as [Hx Hl].
  split; [|constructor; trivial].
  destruct (amin_from_attained l x) as [E|E]; [left; now rewrite E | now right].
Qed.

Lemma steps_locals (episode : nat) (l l' : Locals) (s s' : St I)
    (trs : list Transition) :
  steps P episode l s trs l' s' ->
  t l' = (t l + length trs)%nat /\
  episode_rewards l' = episode_rewards l ++ map tr_reward trs.
Proof.
  induction 1 as [|l l1 l2 s s1 s2 tr trs Hd Hb Hs IH]; simpl.
  - rewrite app_nil_r. split; [lia | reflexivity].
  - destruct (loop_body_Ok _ _ _ _ Hb)
      as (_ & _ & _ & _ & _ & _ & _ & _ & _ & _ & _ & _ & _ & _ & _ & _
          & _ & _ & Hl1 & _).
    destruct IH as [IHt IHr]. rewrite IHt, IHr, Hl1. simpl.
    rewrite <- app_assoc. split; [lia | reflexivity].
Qed.

Lemma while_not_done_length (m fuel episode : nat) :
  max_episode_length P = Some m ->
  forall (l l' : Locals) (s s' : St I),
    while_not_done P fuel episode l s = (Ok l', s') ->
    done l = false ->
    (t l' <= Nat.max (S (t l)) m)%nat.
Proof.
  intros Hm. induction fuel as [|fuel IH]; intros l l' s s' H Hd;
    simpl in H; rewrite Hd in H; [discriminate|].
  apply bind_Ok in H. destruct H as ([l1 tr] & s1 & Hb & H). simpl in H.
  destruct (loop_body_Ok _ _ _ _ Hb)
    as (_ & _ & _ & _ & _ & _ & _ & _ & _ & _ & _ & _ & _ & _ & _ & _
        & _ & _ & Hl1 & _).
  assert (Ht : t l1 = S (t l)) by (rewrite Hl1; reflexivity).
  unfold length_reached in H. rewrite Hm in H.
  destruct (m <=? t l1) eqn:Hle.
  - apply ret_Ok in H. destruct H as [-> _]. lia.
  - apply Nat.leb_gt in Hle.
    destruct (done l1) eqn:Hd1.
    + destruct fuel; simpl in H; rewrite Hd1 in H;
        apply ret_Ok in H; destruct H as [-> _]; lia.
    + apply IH in H; [lia | exact Hd1].
Qed.

Lemma run_episode_steps (fuel episode : nat)
    (epsilon0 alpha0 gamma0 : Q) (l : Locals) (s s' : St I) :
  run_episode P fuel episode epsilon0 alpha0 gamma0 s = (Ok l, s') ->
  let trs := episode_transitions P fuel episode epsilon0 alpha0 gamma0 s in
  (1 <= length trs)%nat /\
  t l = length trs /\
  episode_rewards l = map tr_reward trs /\
  (forall m, max_episode_length P = Some m ->
             (length trs <= Nat.max 1 m)%nat).
Proof.
  intros H. unfold run_episode in H.
  step_M H as l0 s0 Hbeg.
  step_M H as l1 s1 Hw.
  step_M H as u s2 Hend.
  apply ret_Ok in H. destruct H as [-> ->].
  cbv zeta. unfold episode_transitions. rewrite Hbeg.
  apply begin_episode_Ok in Hbeg.
  destruct Hbeg as (Hd0 & Ht0 & Hr0 & _).
  pose proof Hw as Hw'.
  apply while_not_done_steps in Hw. destruct Hw as [Hs Hexit].
  destruct (Hexit Hd0) as [Hne _].
  apply steps_locals in Hs. destruct Hs as [Ht Hr].
  rewrite Ht0 in Ht. rewrite Hr0 in Hr. simpl in Ht, Hr.
  split; [|split; [exact Ht|split; [exact Hr|]]].
  - destruct (while_transitions P fuel episode l0 s0); [congruence|].
    simpl. lia.
  - intros m Hm.
    pose proof (while_not_done_length fuel episode Hm _ _ Hw' Hd0) as Hb.
    rewrite Ht0 in Hb. lia.
Qed.

(** X8. An episode that completes has taken at least one step, also when
    [max_episode_length] is 0: the length is tested after the step.  With a
    [max_episode_length] it has taken at most that many steps, or one.  The
    final [t] is the number of steps and [episode_rewards] holds their
    rewards in order. *)
Theorem episode_takes_between_one_and_length_steps (fuel episode : nat)
    (epsilon0 alpha0 gamma0 : Q) (l : Locals) (s s' : St I) :
  run_episode P fuel episode epsilon0 alpha0 gamma0 s = (Ok l, s') ->
  let trs := episode_transitions P fuel episode epsilon0 alpha0 gamma0 s in
  (1 <= length trs)%nat /\
  t l = length trs /\
  episode_rewards l = map tr_reward trs /\
  (forall m, max_episode_length P = Some m ->
             (length trs <= Nat.max 1 m)%nat).
Proof. exact (@run_episode_steps fuel episode epsilon0 alpha0 gamma0 l s s'). Qed.

Lemma end_episode_stats (episode : nat) (l : Locals) (s s' : St I)
    (u : unit) :
  end_episode P episode l s = (Ok u, s') ->
  exists mn : Q,
    amin (episode_rewards l) = Ok mn /\
    stats s'
    = record_episode episode mn l
        (record_outcome episode
           (sbe_outcome I (episode_rewards l) (gamma l)) (stats s)).
Proof.
  unfold end_episode. intros H.
  step_M H as u1 s1 H1.
  step_M H as mn s2 H2.
  step_M H as u2 s3 H3.
  exists mn. split; [exact H2|].
  destruct (save_due P episode).
  - apply modify_Ok in H. subst s'. reflexivity.
  - apply ret_Ok in H. destruct H as [_ ->]. reflexivity.
Qed.

Lemma steps_stats (episode : nat) (l l' : Locals) (s s' : St I)
    (trs : list Transition) :
  steps P episode l s trs l' s' ->
  exists v : ndarray, stats s' = with_visits v (stats s).
Proof.
  induction 1 as [|l l1 l2 s s1 s2 tr trs Hd Hb Hs IH].
  - exists (stats_state_action_visits (stats s)). destruct (stats s).
    reflexivity.
  - destruct (loop_body_Ok _ _ _ _ Hb)
      as (_ & _ & _ & _ & _ & _ & _ & _ & _ & _ & _ & _ & _ & _ & _ & _
          & _ & _ & _ & _ & _ & _ & _ & Hst).
    destruct IH as (v & ->). rewrite Hst. exists v. reflexivity.
Qed.

(** X9. An episode that completes writes its own entry, and no other, of each
    per-episode array: the number of steps, the mean and the minimum of the
    rewards, the outcome that [sbe_outcome] gives for the rewards and the
    last gamma, and the three schedule values of the last step;
    [stats["episode"]] becomes the episode. *)
Theorem episode_records_its_own_entries (fuel episode n : nat)
    (epsilon0 alpha0 gamma0 : Q) (l : Locals) (s s' : St I) :
  run_episode P fuel episode epsilon0 alpha0 gamma0 s = (Ok l, s') ->
  arrays_length n (stats s) ->
  (episode < n)%nat ->
  let rewards :=
    map tr_reward
      (episode_transitions P fuel episode epsilon0 alpha0 gamma0 s) in
  arrays_length n (stats s') /\
  stats_episode (stats s') = episode /\
  stats_episode_lengths (stats s') !! episode
    = Some (of_nat (length rewards)) /\
  stats_average_episode_rewards (stats s') !! episode
    = Some (average rewards) /\
  stats_episode_outcomes (stats s') !! episode
    = Some (sbe_outcome I rewards (gamma l)) /\
  (exists mn : Q,
     stats_true_min (stats s') !! episode = Some mn /\
     In mn rewards /\ Forall (fun x => (mn <= x)%Q) rewards) /\
  stats_epsilon (stats s') !! episode = Some (epsilon l) /\
  stats_learning_rate (stats s') !! episode = Some (alpha l) /\
  stats_gamma (stats s') !! episode = Some (gamma l) /\
  (forall e : nat,
     e <> episode ->
     stats_episode_lengths (stats s') !! e
       = stats_episode_lengths (stats s) !! e /\
     stats_average_episode_rewards (stats s') !! e
       = stats_average_episode_rewards (stats s) !! e /\
     stats_true_min (stats s') !! e = stats_true_min (stats s) !! e /\
     stats_episode_outcomes (stats s') !! e
       = stats_episode_outcomes (stats s) !! e /\
     stats_epsilon (stats s') !! e = stats_epsilon (stats s) !! e /\
     stats_learning_rate (stats s') !! e
       = stats_learning_rate (stats s) !! e /\
     stats_gamma (stats s') !! e = stats_gamma (stats s) !! e).
Proof.
  intros H (L1 & L2 & L3 & L4 & L5 & L6 & L7) Hlt.
  pose proof (run_episode_steps _ _ _ _ _ _ H) as (_ & _ & Hrew & _).
  cbv zeta. rewrite <- Hrew.
  unfold run_episode in H.
  step_M H as l0 s0 Hbeg.
  step_M H as l1 s1 Hw.
  step_M H as u s2 Hend.
  apply ret_Ok in H. destruct H as [-> ->].
  apply begin_episode_Ok in Hbeg.
  destruct Hbeg as (_ & _ & _ & _ & _ & _ & _ & Hst0 & _).
  apply while_not_done_steps in Hw. destruct Hw as [Hs _].
  apply steps_stats in Hs. destruct Hs as (v & Hst1).
  apply end_episode_stats in Hend. destruct Hend as (mn & Hmn & Hst2).
  rewrite Hst2, Hst1, Hst0. clear Hst2 Hst1 Hst0.
  apply amin_spec in Hmn. destruct Hmn as [Hin Hall].
  cbn [record_episode record_outcome with_episode_arrays with_visits
       stats_episode_lengths stats_average_episode_rewards stats_true_min
       stats_episode_outcomes stats_epsilon stats_learning_rate stats_gamma
       stats_episode stats_state_action_visits].
  unfold arrays_length.
  cbn [record_episode record_outcome with_episode_arrays with_visits
       stats_episode_lengths stats_average_episode_rewards stats_true_min
       stats_episode_outcomes stats_epsilon stats_learning_rate stats_gamma
       stats_episode stats_state_action_visits].
  rewrite !length_insert.
  split; [repeat split; assumption|].
  split; [reflexivity|].
  rewrite !list_lookup_insert_eq by lia.
  split; [reflexivity|]. split; [reflexivity|]. split; [reflexivity|].
  split; [exists mn; repeat split; assumption|].
  split; [reflexivity|]. split; [reflexivity|]. split; [reflexivity|].
  intros e He. rewrite !list_lookup_insert_ne by congruence.
  repeat split; reflexivity.
Qed.

Lemma run_episode_lengths_entry (fuel episode n : nat)
    (epsilon0 alpha0 gamma0 : Q) (l : Locals) (s s' : St I) :
  run_episode P fuel episode epsilon0 alpha0 gamma0 s = (Ok l, s') ->
  arrays_length n (stats s) ->
  (episode < n)%nat ->
  arrays_length n (stats s') /\
  stats_episode (stats s') = episode /\
  (exists k : nat,
     stats_episode_lengths (stats s') !! episode = Some (of_nat k) /\
     (1 <= k)%nat /\
     (forall m, max_episode_length P = Some m -> (k <= Nat.max 1 m)%nat)) /\
  (forall e : nat,
     e <> episode ->
     stats_episode_lengths (stats s') !! e
       = stats_episode_lengths (stats s) !! e).
Proof.
  intros H (L1 & L2 & L3 & L4 & L5 & L6 & L7) Hlt.
  pose proof (run_episode_steps _ _ _ _ _ _ H) as (Hone & Ht & Hrew & Hmax).
  unfold run_episode in H.
  step_M H as l0 s0 Hbeg.
  step_M H as l1 s1 Hw.
  step_M H as u s2 Hend.
  apply ret_Ok in H. destruct H as [-> ->].
  apply begin_episode_Ok in Hbeg.
  destruct Hbeg as (_ & _ & _ & _ & _ & _ & _ & Hst0 & _).
  apply while_not_done_steps in Hw. destruct Hw as [Hs _].
  apply steps_stats in Hs. destruct Hs as (v & Hst1).
  apply end_episode_stats in Hend. destruct Hend as (mn & Hmn & Hst2).
  rewrite Hst2, Hst1, Hst0. clear Hst2 Hst1 Hst0.
  unfold arrays_length.
  cbn [record_episode record_outcome with_episode_arrays with_visits
       stats_episode_lengths stats_average_episode_rewards stats_true_min
       stats_episode_outcomes stats_epsilon stats_learning_rate stats_gamma
       stats_episode stats_state_action_visits].
  rewrite !length_insert.
  split; [repeat split; assumption|].
  split; [reflexivity|]. split.
  - eexists. rewrite list_lookup_insert_eq by lia.
    split; [reflexivity|]. rewrite Hrew, length_map. split; assumption.
  - intros e He. rewrite list_lookup_insert_ne by congruence. reflexivity.
Qed.

Lemma for_episodes_lengths (fuel n : nat) (episodes : list nat) :
  forall (epsilon0 alpha0 gamma0 : Q) (s s' : St I) (u : unit),
    for_episodes P fuel episodes epsilon0 alpha0 gamma0 s = (Ok u, s') ->
    arrays_length n (stats s) ->
    (forall e, In e episodes -> (e < n)%nat) ->
    arrays_length n (stats s') /\
    (episodes <> [] -> stats_episode (stats s') = List.last episodes 0%nat) /\
    (episodes = [] -> stats s' = stats s) /\
    (forall e, In e episodes ->
       exists k : nat,
         stats_episode_lengths (stats s') !! e = Some (of_nat k) /\
         (1 <= k)%nat /\
         (forall m, max_episode_length P = Some m ->
                    (k <= Nat.max 1 m)%nat)) /\
    (forall e, ~ In e episodes ->
       stats_episode_lengths (stats s') !! e
         = stats_episode_lengths (stats s) !! e).
Proof.
  induction episodes as [|episode rest IH];
    intros e0 a0 g0 s s' u H Hlen Hin; simpl in H.
  - apply ret_Ok in H. destruct H as [_ ->].
    split; [exact Hlen|]. split; [congruence|]. split; [reflexivity|].
    split; [intros e []|reflexivity].
  - apply bind_Ok in H. destruct H as (l & s1 & Hrun & H).
    destruct (run_episode_lengths_entry _ _ _ _ _ Hrun Hlen)
      as (Hlen1 & Hep1 & Hk1 & Hother1); [apply Hin; left; reflexivity|].
    destruct (IH _ _ _ _ _ _ H Hlen1)
      as (Hlen2 & Hlast & Hnil & Hk2 & Hother2);
      [intros e He; apply Hin; right; exact He|].
    split; [exact Hlen2|]. split; [|split; [discriminate|split]].
    + intros _. destruct rest as [|e1 rest'].
      * rewrite (Hnil eq_refl). exact Hep1.
      * rewrite Hlast by discriminate. reflexivity.
    + intros e [<-|He].
      * destruct (in_dec Nat.eq_dec episode rest) as [Hr|Hr];
          [apply Hk2; exact Hr|].
        rewrite (Hother2 _ Hr). exact Hk1.
      * apply Hk2. exact He.
    + intros e He. simpl in He.
      rewrite Hother2 by tauto. apply Hother1. intros ->. tauto.
Qed.

(** X10. The statistics that a run returns are complete: each per-episode array
    has [max_episodes] entries, the entry of every episode in
    [episode_lengths] is a number of steps of at least one (and at most
    [max_episode_length], or one), [stats["episode"]] is the last episode,
    and [time_elapsed] is set. *)
Theorem returned_statistics_have_no_gaps (fuel : nat) (w w' : World I)
    (q : ndarray) (st : Stats I) :
  learn P fuel w = (Returned q st, w') ->
  arrays_length (max_episodes P) st /\
  ((0 < max_episodes P)%nat -> stats_episode st = (max_episodes P - 1)%nat) /\
  stats_time_elapsed st <> None /\
  (forall e : nat,
     (e < max_episodes P)%nat ->
     exists k : nat,
       stats_episode_lengths st !! e = Some (of_nat k) /\
       (1 <= k)%nat /\
       (forall m, max_episode_length P = Some m -> (k <= Nat.max 1 m)%nat)).
Proof.
  unfold learn. intros H.
  destruct (set_up P w) as [[[[start q0] st0]|e|] w1] eqn:Hset;
    [|discriminate|discriminate].
  destruct (main_loop P fuel start _) as [[[q' st']|e|] s2] eqn:Hmain;
    [|discriminate|discriminate].
  injection H as _ -> _.
  unfold main_loop in Hmain.
  step_M Hmain as u s1 Hfor.
  step_M Hmain as finish s3 Hfin.
  step_M Hmain as u1 s4 Hm1.
  step_M Hmain as u2 s5 Hm2.
  step_M Hmain as q1 s6 Hq.
  step_M Hmain as st1 s7 Hst.
  apply ret_Ok in Hmain. destruct Hmain as [Hmain _].
  injection Hmain as _ ->.
  destruct (process_time I (clock (world s1))) as [x c].
  injection Hfin as _ <-.
  apply set_up_Ok in Hset. destruct Hset as ((start_time & env & ->) & _).
  apply for_episodes_lengths with (n := max_episodes P) in Hfor.
  - destruct Hfor as (Hlen & Hlast & _ & Hk & _).
    cbn [stats with_stats on_world with_time_elapsed stats_episode
         stats_time_elapsed stats_episode_lengths].
    split; [exact Hlen|]. split; [|split; [discriminate|]].
    + intros Hpos. rewrite Hlast.
      * destruct (max_episodes P) as [|n]; [lia|].
        rewrite seq_S, last_last. simpl. lia.
      * destruct (max_episodes P); [lia | discriminate].
    + intros e He. apply Hk. apply in_seq. lia.
  - unfold arrays_length. simpl. rewrite !repeat_length.
    repeat split; reflexivity.
  - intros e He. apply in_seq in He. lia.
Qed.

End Episodes.

(** ** The table and the generator over a run *)

Section RunFrame.

Variable I : Interfaces.
Variable P : Params I.

Lemma steps_frame (episode : nat) (l l' : Locals) (s s' : St I)
    (trs : list Transition) :
  steps P episode l s trs l' s' ->
  shape (q_values s') = shape (q_values s) /\
  shape (stats_state_action_visits (stats s'))
    = shape (stats_state_action_visits (stats s)) /\
  np_rng (world s') = Nat.iter (length trs) (@next_rng I) (np_rng (world s)) /\
  (forall p, updates_to p trs = 0%nat ->
             item (q_values s') p = item (q_values s) p).
Proof.
  induction 1 as [|l l1 l2 s s1 s2 tr trs Hd Hb Hs IH].
  - repeat split; reflexivity.
  - destruct (loop_body_Ok _ _ _ _ Hb)
      as (obs & r & nr & nm & _ & _ & _ & _ & Hst & _ & _ & _ & _ & _ & _
          & _ & _ & _ & _ & Hrng & _ & _ & Hq & Hv).
    destruct IH as (IHq & IHv & IHr & IHp).
    split; [rewrite IHq, Hq; reflexivity|].
    split; [rewrite IHv, Hv; reflexivity|].
    split.
    + rewrite IHr, Hrng. cbn [length]. rewrite Nat.iter_succ_r. reflexivity.
    + intros p Hp. simpl in Hp.
      destruct (decide (tr_index tr = p)) as [E|E]; [lia|].
      rewrite IHp by lia. rewrite Hq. apply store_other.
      unfold tr_index in E. rewrite Hst in E. congruence.
Qed.

Lemma run_episode_frame (fuel episode : nat) (epsilon0 alpha0 gamma0 : Q)
    (l : Locals) (s s' : St I) :
  run_episode P fuel episode epsilon0 alpha0 gamma0 s = (Ok l, s') ->
  let trs := episode_transitions P fuel episode epsilon0 alpha0 gamma0 s in
  shape (q_values s') = shape (q_values s) /\
  shape (stats_state_action_visits (stats s'))
    = shape (stats_state_action_visits (stats s)) /\
  np_rng (world s') = Nat.iter (length trs) (@next_rng I) (np_rng (world s)) /\
  (forall p, updates_to p trs = 0%nat ->
             item (q_values s') p = item (q_values s) p).
Proof.
  intros H. unfold run_episode in H.
  step_M H as l0 s0 Hbeg.
  step_M H as l1 s1 Hw.
  step_M H as u s2 Hend.
  apply ret_Ok in H. destruct H as [-> ->].
  cbv zeta. unfold episode_transitions. rewrite Hbeg.
  apply begin_episode_Ok in Hbeg.
  destruct Hbeg as (_ & _ & _ & _ & _ & _ & Hq0 & Hst0 & Hr0 & _).
  apply while_not_done_steps in Hw. destruct Hw as [Hs _].
  apply steps_frame in Hs. destruct Hs as (Hq1 & Hv1 & Hr1 & Hp1).
  apply end_episode_Ok in Hend. destruct Hend as (Hq2 & Hv2 & Hr2 & _).
  rewrite Hq2, Hv2, Hr2, Hq1, Hv1, Hr1, Hq0, Hst0, Hr0.
  repeat split; trivial.
  intros p Hp. rewrite (Hp1 p Hp), Hq0. reflexivity.
Qed.

Lemma for_episodes_frame (fuel : nat) (episodes : list nat) :
  forall (epsilon0 alpha0 gamma0 : Q) (s s' : St I) (u : unit),
    for_episodes P fuel episodes epsilon0 alpha0 gamma0 s = (Ok u, s') ->
    let trs := for_transitions P fuel episodes epsilon0 alpha0 gamma0 s in
    shape (q_values s') = shape (q_values s) /\
    shape (stats_state_action_visits (stats s'))
      = shape (stats_state_action_visits (stats s)) /\
    np_rng (world s') = Nat.iter (length trs) (@next_rng I) (np_rng (world s)) /\
    (forall p, updates_to p trs = 0%nat ->
               item (q_values s') p = item (q_values s) p).
Proof.
  induction episodes as [|episode rest IH]; intros e0 a0 g0 s s' u H;
    simpl in *.
  - apply ret_Ok in H. destruct H as [_ ->]. repeat split; reflexivity.
  - apply bind_Ok in H. destruct H as (l & s1 & Hrun & H).
    rewrite Hrun.
    apply run_episode_frame in Hrun. destruct Hrun as (Hq1 & Hv1 & Hr1 & Hp1).
    apply IH in H. destruct H as (Hq2 & Hv2 & Hr2 & Hp2).
    split; [congruence|]. split; [congruence|]. split.
    + rewrite Hr2, Hr1, length_app, Nat.add_comm, Nat.iter_add. reflexivity.
    + intros p Hp. rewrite updates_to_app in Hp.
      rewrite Hp2 by lia. apply Hp1. lia.
Qed.

(** X11. The table that a run returns has the shape of the table it started
    from, the warm-start table or the fresh one, and so have the visit
    counts; an entry whose visit count is 0 still holds its initial value. *)
Theorem unvisited_entries_keep_initial_value (fuel : nat) (w w' : World I)
    (q : ndarray) (st : Stats I) :
  learn P fuel w = (Returned q st, w') ->
  let q_init := match q_values0 P with
                | Some q0 => q0
                | None => fresh_q_values P (gym_env w)
                end in
  shape q = shape q_init /\
  shape (stats_state_action_visits st) = shape q_init /\
  (forall p : list nat,
     (item (stats_state_action_visits st) p == 0)%Q ->
     item q p = item q_init p).
Proof.
  intros H.
  destruct (learn_Returned _ _ _ H)
    as (start & q0 & st0 & w1 & s1 & u & Hset & Hfor & -> & Hv).
  pose proof Hfor as Hcount.
  apply for_episodes_frame in Hfor. destruct Hfor as (Hq & Hvs & _ & Hp).
  apply set_up_Ok in Hset.
  destruct Hset as ((start_time & env & ->) & _ & _ & Hinit).
  cbv zeta. cbn [q_values stats] in *.
  assert (Hq0 : q0 = match q_values0 P with
                     | Some q0 => q0
                     | None => fresh_q_values P (gym_env w)
                     end).
  { destruct Hinit as [[-> _] | (-> & _ & ->)]; reflexivity. }
  rewrite <- Hq0.
  split; [exact Hq|]. split; [rewrite Hv, Hvs; reflexivity|].
  intros p Hzero. apply Hp.
  apply for_episodes_visits with (p := p) in Hcount.
  rewrite Hv, Hcount in Hzero. cbn in Hzero.
  destruct (updates_to p _) as [|k]; [reflexivity|].
  exfalso. unfold of_nat in Hzero.
  assert (0 + inject_Z (Z.of_nat (S k)) == 0)%Q as Hz by exact Hzero.
  unfold Qeq in Hz. simpl in Hz. lia.
Qed.

(** X12. [learn] seeds the global generator and then takes one draw per step:
    when it returns, the generator is the seeded one advanced by as many
    draws as the run had transitions. *)
Theorem learn_draws_once_per_step (fuel : nat) (w w' : World I)
    (q : ndarray) (st : Stats I) :
  learn P fuel w = (Returned q st, w') ->
  np_rng w'
  = Nat.iter (length (learn_transitions P fuel w)) (@next_rng I)
      (np_random_seed I (seed P)).
Proof.
  unfold learn, learn_transitions. intros H.
  destruct (set_up P w) as [[[[start q0] st0]|e|] w1] eqn:Hset;
    [|discriminate|discriminate].
  destruct (main_loop P fuel start _) as [[[q' st']|e|] s2] eqn:Hmain;
    [|discriminate|discriminate].
  injection H as _ _ <-.
  unfold main_loop in Hmain.
  step_M Hmain as u s1 Hfor.
  step_M Hmain as finish s3 Hfin.
  step_M Hmain as u1 s4 Hm1.
  step_M Hmain as u2 s5 Hm2.
  step_M Hmain as q1 s6 Hq.
  step_M Hmain as st1 s7 Hst.
  apply ret_Ok in Hmain. destruct Hmain as [_ ->].
  destruct (process_time I (clock (world s1))) as [x c].
  injection Hfin as _ <-.
  apply for_episodes_frame in Hfor. destruct Hfor as (_ & _ & Hr & _).
  apply set_up_Ok in Hset. destruct Hset as (_ & Hseed & _).
  cbn [world np_rng on_world with_clock emit with_stats] in *.
  rewrite Hr, Hseed. reflexivity.
Qed.

End RunFrame.

(** ** The two branches of [select_action] *)

Section Selection.

Variable I : Interfaces.

(** X13. When the draw is not below [epsilon], the action that [select_action]
    returns is a maximum of the row of the state and the first one: every
    action before it has a strictly smaller value. *)
Theorem select_action_exploits_first_maximum (q : ndarray)
    (state : list nat) (env : EnvArg) (epsilon : Q) (s s' : St I)
    (action : nat) :
  (epsilon <= fst (np_random_random I (np_rng (world s))))%Q ->
  select_action q state env epsilon s = (Ok action, s') ->
  exists (r : list Q) (v : Q),
    row q state = Ok r /\ r !! action = Some v /\
    Forall (fun x => (x <= v)%Q) r /\
    forall k w, (k < action)%nat -> r !! k = Some w -> (w < v)%Q.
Proof.
  intros Hle H. unfold select_action, bind, random in H.
  destruct (np_random_random I (np_rng (world s))) as [u g].
  simpl in Hle. apply Qltb_false in Hle. rewrite Hle in H.
  apply lift_Ok in H. destruct H as [H _].
  apply greedy_first_maximum. exact H.
Qed.

(** X14. When the draw is below [epsilon], [select_action] does not look at the
    table: whatever the table and the state, in range or not, it returns
    what the sampler of the action space proposes, the generator one draw
    further and the sampler advanced; called with a number in the place of
    the environment, it raises [AttributeError] instead. *)
Theorem select_action_explores_without_table (q : ndarray)
    (state : list nat) (epsilon : Q) (s : St I) :
  (fst (np_random_random I (np_rng (world s))) < epsilon)%Q ->
  let g := snd (np_random_random I (np_rng (world s))) in
  let sampled := action_space_sample I (gym_env (world s)) in
  select_action q state TheEnv epsilon s
  = (Ok (fst sampled),
     on_world (with_env (snd sampled)) (on_world (with_rng g) s)) /\
  forall x : Q,
    select_action q state (Number x) epsilon s
    = (Raise AttributeError, on_world (with_rng g) s).
Proof.
  intros Hlt. cbv zeta. unfold select_action, bind, random.
  destruct (np_random_random I (np_rng (world s))) as [u g].
  simpl in Hlt. apply Qltb_true in Hlt. rewrite Hlt. simpl.
  split; [|reflexivity].
  unfold sample. simpl.
  destruct (action_space_sample I (gym_env (world s))). reflexivity.
Qed.

End Selection.

(** ** A step that leads out of the table *)

Section OutOfRange.

Variable I : Interfaces.
Variable P : Params I.

(** X15. When the discretized next state, which has one component per state
    axis of the table, is not within the table, the step raises
    [IndexError] at the look-up of the next state, that is, after the
    environment was stepped and the visit was counted and before the table
    is written: the count of the pair is one higher although no update was
    applied to it. *)
Theorem out_of_range_next_state_raises_after_counting (episode : nat)
    (l : Locals) (s : St I) (action : nat) (obs : Obs I) (reward : Q)
    (dn : bool) (e : Env I) :
  (0 <= fst (np_random_random I (np_rng (world s))))%Q ->
  greedy (q_values s) (state l) = Ok action ->
  env_step I (gym_env (world s)) action = ((obs, reward, dn), e) ->
  in_bounds (shape (stats_state_action_visits (stats s)))
    (state l ++ [action]) = true ->
  length (discretize_state I (buckets P) (state_bounds P) (env_bins I e) obs)
  = length (removelast (shape (q_values s))) ->
  in_bounds (removelast (shape (q_values s)))
    (discretize_state I (buckets P) (state_bounds P) (env_bins I e) obs)
  = false ->
  exists s' : St I,
    loop_body P episode l s = (Raise IndexError, s') /\
    q_values s' = q_values s /\
    gym_env (world s') = e /\
    stats_state_action_visits (stats s')
    = store (stats_state_action_visits (stats s)) (state l ++ [action])
        (item (stats_state_action_visits (stats s)) (state l ++ [action])
         + 1).
Proof.
  intros Hu Hgr He Hidx _ Hout.
  destruct (np_random_random I (np_rng (world s))) as [u g] eqn:Hd.
  simpl in Hu. apply Qltb_false in Hu.
  assert (Hsel : select_action (q_values s) (state l) (Number (epsilon l)) 0 s
                 = (Ok action, on_world (with_rng g) s)).
  { unfold select_action, bind, random. rewrite Hd, Hu.
    apply lift_run. exact Hgr. }
  assert (Hrow : row (q_values s)
                   (discretize_state I (buckets P) (state_bounds P)
                      (env_bins I e) obs) = Raise IndexError).
  { unfold row. destruct (shape (q_values s)); [reflexivity|].
    rewrite Hout. reflexivity. }
  eexists. unfold loop_body.
  erewrite bind_run by apply gets_run.
  erewrite bind_run by exact Hsel.
  erewrite bind_run
    by (unfold step; cbn [world on_world with_rng gym_env]; rewrite He;
        reflexivity).
  cbv iota beta.
  erewrite bind_run by apply gets_run.
  erewrite bind_run.
  2:{ unfold count_visit.
      erewrite bind_run by apply gets_run.
      erewrite bind_run
        by (apply lift_run; unfold getitem; cbn; rewrite Hidx; reflexivity).
      erewrite bind_run
        by (apply lift_run; unfold setitem; cbn; rewrite Hidx; reflexivity).
      erewrite bind_run by reflexivity.
      erewrite bind_run by apply gets_run.
      apply lift_run. unfold getitem. cbn [stats with_stats with_visits
        stats_state_action_visits store shape]. cbn in Hidx. rewrite Hidx.
      reflexivity. }
  erewrite bind_run by apply gets_run.
  split; [|split; [|split]].
  - apply bind_raise. unfold lift.
    cbn [q_values with_stats on_world world gym_env with_env].
    rewrite Hrow. reflexivity.
  - reflexivity.
  - reflexivity.
  - reflexivity.
Qed.

End OutOfRange.

(** ** A fresh table *)

Section Fresh.

Variable I : Interfaces.
Variable P : Params I.

Lemma in_bounds_multi_indices (sh : list nat) :
  forall p : list nat,
    in_bounds sh p = true <-> In p (multi_indices sh).
Proof.
  induction sh as [|d sh IH]; intros p; simpl.
  - destruct p; split; intros H; try discriminate; auto.
    + destruct H as [H|[]]. discriminate.
  - rewrite in_flat_map. destruct p as [|i p].
    + split; [discriminate|]. intros (x & _ & H).
      apply in_map_iff in H. destruct H as (y & H & _). discriminate.
    + rewrite andb_true_iff, Nat.ltb_lt, IH. split.
      * intros [Hi Hp]. exists i. split; [apply in_seq; lia|].
        apply in_map. exact Hp.
      * intros (x & Hx & H). apply in_map_iff in H.
        destruct H as (y & Hy & Hin). injection Hy as -> ->.
        apply in_seq in Hx. split; [lia | exact Hin].
Qed.

Lemma fold_store (f : list nat -> Q) (l : list (list nat)) :
  forall q0 : ndarray,
    let q := fold_left (fun q idx => store q idx (f idx)) l q0 in
    shape q = shape q0 /\
    (forall p, In p l -> item q p = f p) /\
    (forall p, ~ In p l -> item q p = item q0 p).
Proof.
  induction l as [|a l IH]; intros q0; simpl.
  - repeat split; tauto.
  - destruct (IH (store q0 a (f a))) as (Hs & Hin & Hout).
    split; [exact Hs|]. split.
    + intros p [->|Hp].
      * destruct (in_dec (@list_eq_dec nat Nat.eq_dec) p l) as [Hl|Hl];
          [apply Hin; exact Hl|].
        rewrite (Hout p Hl). apply store_same.
      * apply Hin. exact Hp.
    + intros p Hp. rewrite Hout by tauto. apply store_other.
      intros ->. tauto.
Qed.

Lemma fresh_item (env : Env I) (state : list nat) (action : nat) :
  in_bounds (buckets P) state = true ->
  (action < action_space_n I env)%nat ->
  shape (fresh_q_values P env) = buckets P ++ [action_space_n I env] /\
  item (fresh_q_values P env) (state ++ [action])
  = l_function I env
      (discrete_to_real I (buckets P) (state_bounds P) state).
Proof.
  intros Hst Hact. unfold fresh_q_values.
  destruct (fold_store
              (fun idx =>
                 l_function I env
                   (discrete_to_real I (buckets P) (state_bounds P)
                      (removelast idx)))
              (multi_indices (buckets P ++ [action_space_n I env]))
              (zeros (buckets P ++ [action_space_n I env])))
    as (Hs & Hin & _).
  split; [exact Hs|].
  rewrite Hin.
  - rewrite removelast_last. reflexivity.
  - apply in_bounds_multi_indices. rewrite in_bounds_app, Hst.
    apply Nat.ltb_lt in Hact. rewrite Hact. reflexivity.
Qed.

(** X16. A fresh table has the shape [buckets + (env.action_space.n,)], and each
    of its entries holds the value of [env.l_function] at the real-valued
    point of its state, the same for all the actions of a state. *)
Theorem fresh_table_holds_l_function (env : Env I) (state : list nat)
    (action : nat) :
  in_bounds (buckets P) state = true ->
  (action < action_space_n I env)%nat ->
  shape (fresh_q_values P env) = buckets P ++ [action_space_n I env] /\
  item (fresh_q_values P env) (state ++ [action])
  = l_function I env
      (discrete_to_real I (buckets P) (state_bounds P) state).
Proof. exact (@fresh_item env state action). Qed.

Lemma argmax_from_constant (v : Q) (l : list Q) :
  Forall (fun x => x = v) l ->
  forall best i, argmax_from best v i l = best.
Proof.
  induction 1 as [|x l Hx Hl IH]; intros best i; simpl; [reflexivity|].
  subst x. assert (E : Qltb v v = false) by (apply Qltb_false; lra).
  rewrite E. apply IH.
Qed.

(** X17. In a fresh table all the actions of a state have the same value, so
    that the greedy action is action 0 in every state. *)
Theorem fresh_table_greedy_action_is_zero (env : Env I)
    (state : list nat) :
  in_bounds (buckets P) state = true ->
  (0 < action_space_n I env)%nat ->
  greedy (fresh_q_values P env) state = Ok 0%nat.
Proof.
  intros Hst Hn. unfold greedy, row.
  assert (Hshape : shape (fresh_q_values P env)
                   = buckets P ++ [action_space_n I env]).
  { unfold fresh_q_values. apply fold_store. }
  rewrite Hshape.
  destruct (buckets P ++ [action_space_n I env]) as [|d sh] eqn:E.
  { destruct (buckets P); discriminate. }
  rewrite <- E, removelast_last, last_last, Hst.
  destruct (action_space_n I env) as [|n] eqn:En; [lia|].
  simpl seq. cbn [map argmax]. f_equal.
  apply argmax_from_constant.
  apply List.Forall_forall. intros x Hx. apply in_map_iff in Hx.
  destruct Hx as (a & <- & Ha). apply in_seq in Ha.
  assert (H0 : (0 < action_space_n I env)%nat) by lia.
  destruct (@fresh_item env state a Hst) as [_ ->]; [lia|].
  destruct (@fresh_item env state 0%nat Hst) as [_ ->]; [lia|].
  reflexivity.
Qed.

End Fresh.

(** ** Runs that return *)

Section Returns.

Variable I : Interfaces.
Variable P : Params I.

Lemma set_up_returns (w : World I) :
  seed_in_range (seed P) = true ->
  (q_values0 P = None -> start_episode0 P = None) ->
  (q_values0 P = None ->
   zero_size (buckets P ++ [action_space_n I (gym_env w)]) = false) ->
  (forall q0, q_values0 P = Some q0 -> removelast (shape q0) = buckets P) ->
  exists (start : Q) (start_time : Time I) (w1 : World I),
    set_up P w
    = (Ok (start, q_init P w,
           initial_stats P start_time (q_init P w) (gym_env w)), w1) /\
    gym_env w1
    = set_discretization I (gym_env w) (buckets P) (state_bounds P).
Proof.
  intros Hseed Hfresh Hsize Hwarm. unfold q_init.
  destruct (set_up_unfold P w Hseed) as (w0 & He0 & _ & ->).
  unfold bind at 1. unfold set_up_q_values.
  destruct (q_values0 P) as [q0|].
  - unfold array_equal.
    destruct (decide (removelast (shape q0) = buckets P)) as [_|Hne];
      [|exfalso; apply Hne; apply Hwarm; reflexivity].
    simpl. unfold bind, read_datetime_now, gets, modify, ret.
    destruct (start_episode0 P); simpl;
      destruct (datetime_now I (clock w0)) as [x c]; simpl;
      rewrite He0; eexists _, _, _; split; reflexivity.
  - rewrite (Hfresh eq_refl). simpl.
    unfold bind, read_datetime_now, gets, modify, ret. simpl.
    rewrite He0, (Hsize eq_refl). simpl.
    destruct (datetime_now I (clock w0)) as [x c]. simpl.
    rewrite He0. eexists _, _, _. split; reflexivity.
Qed.

Lemma in_bounds_not_zero_size (sh : list nat) :
  forall idx : list nat, in_bounds sh idx = true -> zero_size sh = false.
Proof.
  induction sh as [|d sh IH]; intros [|i idx] H; simpl in *;
    try discriminate; [reflexivity|].
  apply andb_true_iff in H. destruct H as [Hi H].
  apply Nat.ltb_lt in Hi. rewrite (IH idx H).
  destruct d; [lia | reflexivity].
Qed.

(** X18. With [max_episodes = 0], a seed that [np.random.seed] accepts,
    arguments that pass the checks and, without a warm start, buckets and
    actions that give the fresh table at least one element, [learn] returns
    at once: the table is the initial one, no step was taken, the
    environment was configured but never reset, and the per-episode arrays
    are empty. *)
Theorem learn_without_episodes (fuel : nat) (w : World I) :
  seed_in_range (seed P) = true ->
  (q_values0 P = None -> start_episode0 P = None) ->
  (q_values0 P = None ->
   zero_size (buckets P ++ [action_space_n I (gym_env w)]) = false) ->
  (forall q0, q_values0 P = Some q0 -> removelast (shape q0) = buckets P) ->
  max_episodes P = 0%nat ->
  exists (st : Stats I) (w' : World I),
    learn P fuel w = (Returned (q_init P w) st, w') /\
    learn_transitions P fuel w = [] /\
    gym_env w'
    = set_discretization I (gym_env w) (buckets P) (state_bounds P) /\
    stats_episode_lengths st = [] /\
    stats_episode st = 0%nat.
Proof.
  intros Hseed Hfresh Hsize Hwarm Hzero.
  destruct (set_up_returns w Hseed Hfresh Hsize Hwarm)
    as (start & start_time & w1 & Hset & Henv).
  unfold learn, learn_transitions. rewrite Hset.
  unfold main_loop. rewrite Hzero. simpl.
  unfold bind, ret, gets, modify. simpl.
  destruct (process_time I (clock w1)) as [x c]. simpl.
  eexists _, _. split; [reflexivity|]. split; [reflexivity|].
  split; [exact Henv|]. simpl. rewrite Hzero. split; reflexivity.
Qed.

Variable m : nat.
Variable n : nat.

Hypothesis Hdraw : forall g : Rng I, (0 <= fst (np_random_random I g))%Q.
Hypothesis Hdisc :
  forall bins obs,
    in_bounds (buckets P)
      (discretize_state I (buckets P) (state_bounds P) bins obs) = true.
Hypothesis Hlen : max_episode_length P = Some m.
Hypothesis Hn : (0 < n)%nat.

Lemma while_not_done_returns (episode fuel : nat) :
  forall (l : Locals) (s : St I),
    shape (q_values s) = buckets P ++ [n] ->
    shape (stats_state_action_visits (stats s)) = buckets P ++ [n] ->
    in_bounds (buckets P) (state l) = true ->
    (1 <= fuel)%nat ->
    (m <= t l + fuel)%nat ->
    exists (l' : Locals) (s' : St I),
      while_not_done P fuel episode l s = (Ok l', s') /\
      shape (q_values s') = buckets P ++ [n] /\
      shape (stats_state_action_visits (stats s')) = buckets P ++ [n].
Proof.
  induction fuel as [|fuel IH]; intros l s Hq Hv Hst Hpos Hfuel; [lia|].
  simpl. destruct (done l) eqn:Hd.
  - exists l, s. repeat split; assumption.
  - destruct (@loop_body_completes I P episode l s (buckets P) n
                (Hdraw _) Hq Hv Hn Hst Hdisc)
      as (l1 & tr & s1 & Hb).
    erewrite bind_run by exact Hb. simpl.
    destruct (loop_body_Ok _ _ _ _ Hb)
      as (obs & r & nr & nm & _ & _ & _ & _ & _ & Hns & _ & _ & _ & _ & _
          & _ & _ & _ & Hl1 & _ & _ & _ & Hq1 & Hv1).
    assert (Hq' : shape (q_values s1) = buckets P ++ [n])
      by (rewrite Hq1; exact Hq).
    assert (Hv' : shape (stats_state_action_visits (stats s1))
                  = buckets P ++ [n]) by (rewrite Hv1; exact Hv).
    assert (Ht : t l1 = S (t l)) by (rewrite Hl1; reflexivity).
    unfold length_reached. rewrite Hlen.
    destruct (m <=? t l1) eqn:Hle.
    + exists l1, s1. repeat split; assumption.
    + apply Nat.leb_gt in Hle. apply IH; trivial; try lia.
      rewrite Hl1. cbn [state]. rewrite Hns. apply Hdisc.
Qed.

Lemma run_episode_returns (fuel episode : nat) (epsilon0 alpha0 gamma0 : Q)
    (s : St I) :
  shape (q_values s) = buckets P ++ [n] ->
  shape (stats_state_action_visits (stats s)) = buckets P ++ [n] ->
  (1 <= fuel)%nat -> (m <= fuel)%nat ->
  exists (l : Locals) (s' : St I),
    run_episode P fuel episode epsilon0 alpha0 gamma0 s = (Ok l, s') /\
    shape (q_values s') = buckets P ++ [n] /\
    shape (stats_state_action_visits (stats s')) = buckets P ++ [n].
Proof.
  intros Hq Hv Hpos Hfuel.
  assert (Hbeg : exists l0 s0,
            begin_episode P episode epsilon0 alpha0 gamma0 s = (Ok l0, s0) /\
            in_bounds (buckets P) (state l0) = true).
  { unfold begin_episode, bind, reset, gets, ret, modify.
    destruct (negb (suppress_print P) && _); simpl;
      destruct (env_reset I (gym_env (world s))) as [o e]; simpl;
      eexists _, _; (split; [reflexivity|]); apply Hdisc. }
  destruct Hbeg as (l0 & s0 & Hbeg & Hst0).
  destruct (begin_episode_Ok _ _ _ _ _ _ Hbeg)
    as (Hd0 & Ht0 & Hr0 & _ & _ & _ & Hq0 & Hs0 & _).
  destruct (while_not_done_returns episode (fuel := fuel) l0 s0)
    as (l1 & s1 & Hw & Hq1 & Hv1);
    [congruence | congruence | exact Hst0 | exact Hpos | lia |].
  pose proof Hw as Hsteps. apply while_not_done_steps in Hsteps.
  destruct Hsteps as [Hs Hexit]. destruct (Hexit Hd0) as [Hne _].
  apply steps_locals in Hs. destruct Hs as [_ Hrew].
  rewrite Hr0 in Hrew. simpl in Hrew.
  assert (Hmin : exists mn, amin (episode_rewards l1) = Ok mn).
  { rewrite Hrew. destruct (while_transitions P fuel episode l0 s0);
      [congruence|]. simpl. eexists. reflexivity. }
  destruct Hmin as (mn & Hmin).
  assert (Hend : exists s2, end_episode P episode l1 s1 = (Ok tt, s2)).
  { unfold end_episode.
    erewrite bind_run by reflexivity.
    erewrite bind_run by (apply lift_run; exact Hmin).
    erewrite bind_run by reflexivity.
    destruct (save_due P episode); eexists; reflexivity. }
  destruct Hend as (s2 & Hend).
  exists l1, s2. unfold run_episode.
  erewrite bind_run by exact Hbeg.
  erewrite bind_run by exact Hw.
  erewrite bind_run by exact Hend.
  split; [reflexivity|].
  apply end_episode_Ok in Hend. destruct Hend as (Hq2 & Hv2 & _).
  split; congruence.
Qed.

Lemma for_episodes_returns (fuel : nat) (episodes : list nat) :
  (1 <= fuel)%nat -> (m <= fuel)%nat ->
  forall (epsilon0 alpha0 gamma0 : Q) (s : St I),
    shape (q_values s) = buckets P ++ [n] ->
    shape (stats_state_action_visits (stats s)) = buckets P ++ [n] ->
    exists s' : St I,
      for_episodes P fuel episodes epsilon0 alpha0 gamma0 s = (Ok tt, s').
Proof.
  intros Hpos Hfuel.
  induction episodes as [|episode rest IH]; intros e0 a0 g0 s Hq Hv; simpl.
  - eexists. reflexivity.
  - destruct (@run_episode_returns fuel episode e0 a0 g0 s Hq Hv Hpos Hfuel)
      as (l & s1 & Hrun & Hq1 & Hv1).
    erewrite bind_run by exact Hrun. apply IH; assumption.
Qed.

(** X19. [learn] returns: for a seed that [np.random.seed] accepts, a
    fresh table or a warm-start table of the shape [buckets + (n,)] with at
    least one action, a discretizer that maps every observation into the
    buckets, a generator whose draws are not negative and a
    [max_episode_length], no access to the table fails and every episode
    ends, within [max_episode_length] passes (one at least). *)
Theorem learn_returns (fuel : nat) (w : World I) :
  seed_in_range (seed P) = true ->
  (q_values0 P = None -> start_episode0 P = None) ->
  (forall q0, q_values0 P = Some q0 -> shape q0 = buckets P ++ [n]) ->
  (q_values0 P = None -> action_space_n I (gym_env w) = n) ->
  (1 <= fuel)%nat -> (m <= fuel)%nat ->
  exists (q : ndarray) (st : Stats I) (w' : World I),
    learn P fuel w = (Returned q st, w').
Proof.
  intros Hseed Hfresh Hwarm Hact Hpos Hfuel.
  destruct (set_up_returns w Hseed Hfresh)
    as (start & start_time & w1 & Hset & _).
  { intros Hnone. rewrite (Hact Hnone).
    apply in_bounds_not_zero_size
      with (idx := discretize_state I (buckets P) (state_bounds P)
                     (env_bins I (gym_env w))
                     (fst (env_reset I (gym_env w))) ++ [0%nat]).
    rewrite in_bounds_app, Hdisc. apply Nat.ltb_lt. exact Hn. }
  { intros q0 Hq0. rewrite (Hwarm q0 Hq0). apply removelast_last. }
  assert (Hshape : shape (q_init P w) = buckets P ++ [n]).
  { unfold q_init. destruct (q_values0 P) as [q0|] eqn:Hq0.
    - apply Hwarm. reflexivity.
    - rewrite <- (Hact eq_refl). unfold fresh_q_values. apply fold_store. }
  unfold learn. rewrite Hset. unfold main_loop.
  destruct (@for_episodes_returns fuel (seq 0 (max_episodes P)) Hpos Hfuel
              (get_epsilon P (start_episode P) 1)
              (get_learning_rate P (start_episode P) 1)
              (get_gamma P (start_episode P) 1)
              {| world := w1; q_values := q_init P w;
                 stats := initial_stats P start_time (q_init P w)
                            (gym_env w) |})
    as (s1 & Hfor); [exact Hshape | exact Hshape |].
  erewrite bind_run by exact Hfor.
  unfold bind, gets, modify, ret.
  destruct (process_time I (clock (world s1))) as [x c].
  eexists _, _, _. reflexivity.
Qed.

End Returns.

(** ** Values under the safety backup *)

Section Bounded.

Variable I : Interfaces.
Variable P : Params I.
Variable lo hi : Q.

Hypothesis Hsbe : use_sbe P = true.
Hypothesis Hgamma :
  forall (episode : nat) (visits : Q),
    (0 <= get_gamma P episode visits <= 1)%Q.
Hypothesis Halpha :
  forall (episode : nat) (visits : Q),
    (0 <= get_learning_rate P episode visits <= 1)%Q.
Hypothesis Hreward :
  forall (env : Env I) (action : nat),
    (lo <= snd (fst (fst (env_step I env action))) <= hi)%Q.
Hypothesis Hterminal :
  forall v : Q, fictitious_terminal_val P = Some v -> (lo <= v)%Q.

Lemma py_min_between (a b : Q) :
  (lo <= a <= hi)%Q -> (lo <= b)%Q -> (lo <= py_min a b <= a)%Q.
Proof.
  intros Ha Hb. unfold py_min. destruct (Qltb b a) eqn:E.
  - apply Qltb_true in E. lra.
  - lra.
Qed.

Lemma convex_between (a x y : Q) :
  (0 <= a <= 1)%Q -> (lo <= x <= hi)%Q -> (lo <= y <= hi)%Q ->
  (lo <= (1 - a) * x + a * y <= hi)%Q.
Proof. intros. split; nra. Qed.

Lemma backup_terminal_between (reward gamma : Q) :
  (0 <= gamma <= 1)%Q -> (lo <= reward <= hi)%Q ->
  (lo <= backup_terminal P reward gamma <= hi)%Q.
Proof.
  intros Hg Hr. unfold backup_terminal. rewrite Hsbe.
  pose proof Hterminal as Ht.
  destruct (fictitious_terminal_val P) as [v|]; [|exact Hr].
  destruct (Qeq_bool v 0); [exact Hr|].
  pose proof (py_min_between Hr (Ht v eq_refl)) as Hm.
  apply convex_between; [exact Hg | exact Hr | lra].
Qed.

Lemma backup_non_terminal_between (reward gamma next_max : Q) :
  (0 <= gamma <= 1)%Q -> (lo <= reward <= hi)%Q -> (lo <= next_max)%Q ->
  (lo <= backup_non_terminal P reward gamma next_max <= hi)%Q.
Proof.
  intros Hg Hr Hn. unfold backup_non_terminal. rewrite Hsbe.
  pose proof (py_min_between Hr Hn) as Hm.
  apply convex_between; [exact Hg | exact Hr | lra].
Qed.

Lemma loop_body_within (episode : nat) (l l' : Locals) (tr : Transition)
    (s s' : St I) :
  loop_body P episode l s = (Ok (l', tr), s') ->
  table_within lo hi (q_values s) ->
  table_within lo hi (q_values s').
Proof.
  intros H Hin.
  destruct (loop_body_Ok _ _ _ _ H)
    as (obs & r & next_row & next_max & _ & _ & _ & Hstep & _ & _ & _ & _
        & Hrow & Hmax & Hqt & Hqn & Hnew & Hidx & Hl' & _ & _ & _ & Hq & _).
  assert (Hrew : (lo <= tr_reward tr <= hi)%Q).
  { pose proof (Hreward (gym_env (world s)) (tr_action tr)) as Hr.
    rewrite Hstep in Hr. exact Hr. }
  assert (Hg : (0 <= gamma l' <= 1)%Q) by (rewrite Hl'; apply Hgamma).
  assert (Ha : (0 <= alpha l' <= 1)%Q) by (rewrite Hl'; apply Halpha).
  assert (Hnm : (lo <= next_max)%Q).
  { apply amax_spec in Hmax. destruct Hmax as [Hmem _].
    apply row_Ok in Hrow. destruct Hrow as [Hb ->].
    apply in_map_iff in Hmem. destruct Hmem as (a & <- & Ha').
    apply in_seq in Ha'. apply Hin.
    assert (Hne : shape (q_values s) <> []).
    { intros E. rewrite E in Ha'. simpl in Ha'. lia. }
    rewrite (app_removelast_last 0%nat Hne), in_bounds_app, Hb.
    apply Nat.ltb_lt. lia. }
  assert (Htarget : (lo <= tr_new_q tr <= hi)%Q).
  { rewrite Hnew, blend_done, Hqt, Hqn.
    destruct (tr_done tr);
      [apply backup_terminal_between | apply backup_non_terminal_between];
      assumption. }
  intros p Hp. rewrite Hq in Hp |- *. cbn [shape store] in Hp.
  destruct (decide (p = state l ++ [tr_action tr])) as [->|Hne].
  - rewrite store_same. apply convex_between; trivial.
    apply Hin. exact Hidx.
  - rewrite store_other by exact Hne. apply Hin. exact Hp.
Qed.

Lemma steps_within (episode : nat) (l l' : Locals) (s s' : St I)
    (trs : list Transition) :
  steps P episode l s trs l' s' ->
  table_within lo hi (q_values s) ->
  table_within lo hi (q_values s').
Proof.
  induction 1 as [|l l1 l2 s s1 s2 tr trs Hd Hb Hs IH]; intros Hin;
    [exact Hin|].
  apply IH. eapply loop_body_within; [exact Hb | exact Hin].
Qed.

Lemma for_episodes_within (fuel : nat) (episodes : list nat) :
  forall (epsilon0 alpha0 gamma0 : Q) (s s' : St I) (u : unit),
    for_episodes P fuel episodes epsilon0 alpha0 gamma0 s = (Ok u, s') ->
    table_within lo hi (q_values s) ->
    table_within lo hi (q_values s').
Proof.
  induction episodes as [|episode rest IH]; intros e0 a0 g0 s s' u H Hin;
    simpl in H.
  - apply ret_Ok in H. destruct H as [_ ->]. exact Hin.
  - apply bind_Ok in H. destruct H as (l & s1 & Hrun & H).
    eapply IH; [exact H|].
    unfold run_episode in Hrun.
    step_M Hrun as l0 s0 Hbeg.
    step_M Hrun as l1 s2 Hw.
    step_M Hrun as u1 s3 Hend.
    apply ret_Ok in Hrun. destruct Hrun as [_ ->].
    apply begin_episode_Ok in Hbeg.
    destruct Hbeg as (_ & _ & _ & _ & _ & _ & Hq0 & _).
    apply while_not_done_steps in Hw. destruct Hw as [Hs _].
    apply end_episode_Ok in Hend. destruct Hend as (Hq2 & _).
    rewrite Hq2. eapply steps_within; [exact Hs|]. rewrite Hq0. exact Hin.
Qed.

(** X20. Under the safety backup the values stay within the bounds of what goes
    in: when the discount and the learning rate are always in [0, 1], every
    reward of the environment lies in [lo, hi], a fictitious terminal value
    is at least [lo], and every entry of the initial table lies in
    [lo, hi], then so does every entry of the table that [learn] returns. *)
Theorem safety_backup_keeps_values_within (fuel : nat) (w w' : World I)
    (q : ndarray) (st : Stats I) :
  learn P fuel w = (Returned q st, w') ->
  table_within lo hi (q_init P w) ->
  table_within lo hi q.
Proof.
  intros H Hinit.
  destruct (learn_Returned _ _ _ H)
    as (start & q0 & st0 & w1 & s1 & u & Hset & Hfor & -> & _).
  eapply for_episodes_within; [exact Hfor|]. cbn [q_values].
  apply set_up_Ok in Hset. destruct Hset as (_ & _ & _ & Hq0).
  unfold q_init in Hinit.
  destruct Hq0 as [[Hq0 _] | (Hq0 & _ & ->)]; rewrite Hq0 in Hinit;
    exact Hinit.
Qed.

End Bounded.

(** ** The properties of [learn] and [select_action] on the toy runs *)

(** A hundred episodes: three snapshots, one report, the final newline. *)
Lemma learn_writes_its_schedule_witness :
  is_returned (fst (learn ToyRuns.reporting_params 3 (ToyRuns.world 2)))
    = true /\
  exists evs : list (Event ToyRuns.I),
    out (snd (learn ToyRuns.reporting_params 3 (ToyRuns.world 2)))
      = out (ToyRuns.world 2) ++ evs /\
    map (@kind_of ToyRuns.I) evs
      = [KSave 0; KSave 40; KSave 80; KPrintEpisode 100; KPrintNewline].
Proof.
  assert (Hr : is_returned
                 (fst (learn ToyRuns.reporting_params 3 (ToyRuns.world 2)))
               = true) by (vm_compute; reflexivity).
  split; [exact Hr|].
  destruct (learn ToyRuns.reporting_params 3 (ToyRuns.world 2))
    as [[q st| |] w'] eqn:E; try discriminate Hr.
  exact (learn_writes_its_schedule ToyRuns.reporting_params 3
           (ToyRuns.world 2) E).
Defined.

(** A [start_episode] without a table and no [max_episode_length]: with
    the seed 0 the warning is written before the error, with the seed -1
    nothing is. *)
Lemma configuration_error_after_length_warning_witness :
  (exists (e : exn) (table : option ndarray) (w' : World ToyRuns.I),
     learn ToyRuns.orphan_start_params 3 (ToyRuns.world 2)
       = (Raised e table None, w') /\
     e = ValueError /\
     out w' = [Warn ToyRuns.I NoMaxEpisodeLength]) /\
  (exists (e : exn) (table : option ndarray) (w' : World ToyRuns.I),
     learn (ToyRuns.with_seed (-1) ToyRuns.orphan_start_params) 3
       (ToyRuns.world 2)
       = (Raised e table None, w') /\
     e = ValueError /\
     out w' = []).
Proof.
  split; eexists _, _, _; (split; [vm_compute; reflexivity|]).
  - apply (@configuration_error_after_length_warning ToyRuns.I
             ToyRuns.orphan_start_params 3 (ToyRuns.world 2) _ _ None).
    vm_compute. reflexivity.
  - apply (@configuration_error_after_length_warning ToyRuns.I
             (ToyRuns.with_seed (-1) ToyRuns.orphan_start_params) 3
             (ToyRuns.world 2) _ _ None).
    vm_compute. reflexivity.
Defined.

(** An episode from a table on which the greedy actions alternate, cut
    after three steps. *)
Lemma episode_takes_between_one_and_length_steps_witness :
  exists (l : Locals) (s' : St Toy.I),
    run_episode Toy.params 10 0 1 (1 # 2) (1 # 2)
      (Toy.st0 (Toy.table 0 5 5 0) 100) = (Ok l, s') /\
    length (episode_transitions Toy.params 10 0 1 (1 # 2) (1 # 2)
              (Toy.st0 (Toy.table 0 5 5 0) 100)) = 3%nat /\
    t l = 3%nat.
Proof.
  eexists _, _. split; [vm_compute; reflexivity|].
  split; [vm_compute; reflexivity|].
  exact (proj1 (proj2
    (episode_takes_between_one_and_length_steps Toy.params 10 0
       1 (1 # 2) (1 # 2) (Toy.st0 (Toy.table 0 5 5 0) 100)
       ltac:(vm_compute; reflexivity)))).
Defined.

Lemma episode_records_its_own_entries_witness :
  exists (l : Locals) (s' : St Toy.I),
    run_episode Toy.params 10 1 1 (1 # 2) (1 # 2)
      (Toy.st0 (Toy.table 0 5 5 0) 2) = (Ok l, s') /\
    stats_episode (stats s') = 1%nat /\
    stats_episode_lengths (stats s') !! 1%nat = Some (of_nat 2) /\
    stats_episode_lengths (stats s') !! 0%nat = Some 0%Q.
Proof.
  eexists _, _. split; [vm_compute; reflexivity|].
  pose proof (@episode_records_its_own_entries Toy.I Toy.params 10 1 2
                1 (1 # 2) (1 # 2) _ (Toy.st0 (Toy.table 0 5 5 0) 2) _
                ltac:(vm_compute; reflexivity)
                ltac:(vm_compute; repeat split)
                ltac:(lia)) as H.
  destruct H as (_ & He & Hl & _ & _ & _ & _ & _ & _ & Hother).
  split; [exact He|]. split; [exact Hl|].
  rewrite (proj1 (Hother 0%nat ltac:(lia))). reflexivity.
Defined.

Lemma returned_statistics_have_no_gaps_witness :
  exists (q : ndarray) (st : Stats ToyRuns.I) (w' : World ToyRuns.I),
    learn ToyRuns.warm_params 5 (ToyRuns.world 2) = (Returned q st, w') /\
    arrays_length 3 st /\
    stats_episode st = 2%nat /\
    stats_time_elapsed st <> None.
Proof.
  eexists _, _, _. split; [vm_compute; reflexivity|].
  pose proof (@returned_statistics_have_no_gaps ToyRuns.I ToyRuns.warm_params
                5 (ToyRuns.world 2) _ _ _ ltac:(vm_compute; reflexivity))
    as (Ha & He & Ht & _).
  split; [exact Ha|]. split; [exact (He ltac:(vm_compute; lia)) | exact Ht].
Defined.

(** The greedy actions from the table [[0, 1], [1, 0]] alternate between
    (0, 1) and (1, 0): the two other entries are never visited. *)
Lemma unvisited_entries_keep_initial_value_witness :
  exists (q : ndarray) (st : Stats ToyRuns.I) (w' : World ToyRuns.I),
    learn ToyRuns.warm_params 5 (ToyRuns.world 2) = (Returned q st, w') /\
    (item (stats_state_action_visits st) [0; 0]%nat == 0)%Q /\
    item q [0; 0]%nat = item (Toy.table 0 1 1 0) [0; 0]%nat.
Proof.
  eexists _, _, _. split; [vm_compute; reflexivity|].
  split; [vm_compute; reflexivity|].
  apply (proj2 (proj2
    (@unvisited_entries_keep_initial_value ToyRuns.I ToyRuns.warm_params
       5 (ToyRuns.world 2) _ _ _ ltac:(vm_compute; reflexivity)))).
  vm_compute. reflexivity.
Defined.

Lemma learn_draws_once_per_step_witness :
  exists (q : ndarray) (st : Stats ToyRuns.I) (w' : World ToyRuns.I),
    learn ToyRuns.warm_params 5 (ToyRuns.world 2) = (Returned q st, w') /\
    length (learn_transitions ToyRuns.warm_params 5 (ToyRuns.world 2))
      = 6%nat /\
    np_rng w'
    = Nat.iter 6 (@next_rng ToyRuns.I)
        (np_random_seed ToyRuns.I (seed ToyRuns.warm_params)).
Proof.
  eexists _, _, _. split; [vm_compute; reflexivity|].
  split; [vm_compute; reflexivity|].
  exact (@learn_draws_once_per_step ToyRuns.I ToyRuns.warm_params
           5 (ToyRuns.world 2) _ _ _ ltac:(vm_compute; reflexivity)).
Defined.

Lemma select_action_exploits_first_maximum_witness :
  exists (action : nat) (s' : St Toy.I) (r : list Q) (v : Q),
    select_action (Toy.table 1 1 0 0) [0%nat] TheEnv 0
      (Toy.st0 (Toy.table 1 1 0 0) 5) = (Ok action, s') /\
    row (Toy.table 1 1 0 0) [0%nat] = Ok r /\ r !! action = Some v /\
    Forall (fun x => (x <= v)%Q) r /\
    forall k w, (k < action)%nat -> r !! k = Some w -> (w < v)%Q.
Proof.
  eexists _, _.
  assert (H : select_action (Toy.table 1 1 0 0) [0%nat] TheEnv 0
                (Toy.st0 (Toy.table 1 1 0 0) 5)
              = (Ok 0%nat,
                 on_world (with_rng (1%nat : Rng Toy.I))
                   (Toy.st0 (Toy.table 1 1 0 0) 5)))
    by (vm_compute; reflexivity).
  destruct (@select_action_exploits_first_maximum Toy.I
              (Toy.table 1 1 0 0) [0%nat] TheEnv 0
              (Toy.st0 (Toy.table 1 1 0 0) 5) _ _
              ltac:(vm_compute; discriminate) H) as (r & v & Hr).
  exists r, v. split; [exact H | exact Hr].
Defined.

Lemma select_action_explores_without_table_witness :
  select_action (Toy.table 0 5 5 0) [0%nat] TheEnv 1
    (Toy.st0 (Toy.table 0 5 5 0) 5)
  = (Ok 1%nat,
     on_world (@with_env Toy.I (Toy.mk_env 0 5 1))
       (on_world (with_rng (1%nat : Rng Toy.I))
          (Toy.st0 (Toy.table 0 5 5 0) 5))) /\
  select_action (Toy.table 0 5 5 0) [0%nat] (Number 1) 1
    (Toy.st0 (Toy.table 0 5 5 0) 5)
  = (Raise AttributeError,
     on_world (with_rng (1%nat : Rng Toy.I))
       (Toy.st0 (Toy.table 0 5 5 0) 5)).
Proof.
  destruct (@select_action_explores_without_table Toy.I
              (Toy.table 0 5 5 0) [0%nat] 1
              (Toy.st0 (Toy.table 0 5 5 0) 5)
              ltac:(vm_compute; reflexivity)) as [H1 H2].
  split; [exact H1 | exact (H2 1%Q)].
Defined.

(** From the one-state table the greedy action 1 leads to state 1. *)
Lemma out_of_range_next_state_raises_after_counting_witness :
  exists s' : St Toy.I,
    loop_body Toy.params 0 Toy.l0 (Toy.st0 ToyPlay.narrow_table 5)
      = (Raise IndexError, s') /\
    q_values s' = ToyPlay.narrow_table /\
    (item (stats_state_action_visits (stats s')) [0; 1]%nat == 1)%Q.
Proof.
  destruct (@out_of_range_next_state_raises_after_counting Toy.I Toy.params
              0 Toy.l0 (Toy.st0 ToyPlay.narrow_table 5) 1%nat 1%nat 1%Q
              false (Toy.mk_env 1 5 0)
              ltac:(vm_compute; discriminate)
              ltac:(vm_compute; reflexivity)
              ltac:(vm_compute; reflexivity)
              ltac:(vm_compute; reflexivity)
              ltac:(vm_compute; reflexivity)
              ltac:(vm_compute; reflexivity))
    as (s' & Hrun & Hq & _ & Hv).
  exists s'. split; [exact Hrun|]. split; [exact Hq|].
  rewrite Hv. vm_compute. reflexivity.
Defined.

Lemma fresh_table_holds_l_function_witness :
  shape (fresh_q_values Toy.params (Toy.mk_env 0 5 0)) = [2; 2]%nat /\
  item (fresh_q_values Toy.params (Toy.mk_env 0 5 0)) [1; 1]%nat
  = l_function Toy.I (Toy.mk_env 0 5 0) 1%nat.
Proof.
  apply (@fresh_table_holds_l_function Toy.I Toy.params (Toy.mk_env 0 5 0)
           [1%nat] 1%nat);
    [reflexivity | vm_compute; lia].
Defined.

Lemma fresh_table_greedy_action_is_zero_witness :
  greedy (fresh_q_values Toy.params (Toy.mk_env 0 5 0)) [1%nat] = Ok 0%nat.
Proof.
  apply (@fresh_table_greedy_action_is_zero Toy.I Toy.params);
    [reflexivity | vm_compute; lia].
Defined.

Lemma learn_without_episodes_witness :
  exists (st : Stats ToyRuns.I) (w' : World ToyRuns.I),
    learn ToyRuns.idle_params 0 (ToyRuns.world 2)
      = (Returned (q_init ToyRuns.idle_params (ToyRuns.world 2)) st, w') /\
    learn_transitions ToyRuns.idle_params 0 (ToyRuns.world 2) = [] /\
    gym_env w' = gym_env (ToyRuns.world 2) /\
    stats_episode_lengths st = [] /\
    stats_episode st = 0%nat.
Proof.
  apply (@learn_without_episodes ToyRuns.I ToyRuns.idle_params 0
           (ToyRuns.world 2));
    [reflexivity | reflexivity | reflexivity | discriminate | reflexivity].
Defined.

Lemma learn_returns_witness :
  exists (q : ndarray) (st : Stats ToyRuns.I) (w' : World ToyRuns.I),
    learn ToyRuns.params 3 (ToyRuns.world 100) = (Returned q st, w').
Proof.
  apply (@learn_returns ToyRuns.I ToyRuns.params 3 2).
  - intros g. unfold Qle. simpl. lia.
  - intros bins [|[|obs]]; reflexivity.
  - reflexivity.
  - lia.
  - reflexivity.
  - reflexivity.
  - discriminate.
  - reflexivity.
  - lia.
  - lia.
Defined.

Lemma safety_backup_keeps_values_within_witness :
  exists (q : ndarray) (st : Stats ToyRuns.I) (w' : World ToyRuns.I),
    learn ToyRuns.warm_params 5 (ToyRuns.world 2) = (Returned q st, w') /\
    table_within 0 1 q.
Proof.
  eexists _, _, _. split; [vm_compute; reflexivity|].
  refine (@safety_backup_keeps_values_within ToyRuns.I ToyRuns.warm_params
            0 1 _ _ _ _ _ 5 (ToyRuns.world 2) _ _ _ _ _).
  - reflexivity.
  - intros. vm_compute. split; discriminate.
  - intros. vm_compute. split; discriminate.
  - intros. vm_compute. split; discriminate.
  - discriminate.
  - vm_compute. reflexivity.
  - intros [|[|[|a]] [|[|[|b]] [|c p]]] Hp; try discriminate Hp;
      vm_compute; split; discriminate.
Defined.

Lemma learn_does_not_diverge_witness :
  fst (learn Toy.params 3 (Toy.world_at 0 100)) <> Diverged Toy.I.
Proof.
  apply learn_does_not_diverge with (m := 3%nat); [reflexivity | lia | lia].
Defined.
